(** * Islamic finance analytics: the synthetic data generator

    A shallow embedding of [islamic_finance_db.py]: the loan generator
    ([generate_business_loans]), the payment-history generator
    ([generate_loan_payments]), the subscription generator
    ([generate_sukuk_purchases]) and the distribution generator
    ([generate_profit_distributions]).

    Conventions of the embedding.
    - Python [int] values are integers ([Z]). The generators are embedded
      twice. The first reading takes a [float] for the exact rational ([Q])
      and models the explicit [round(x, n)] calls only; the facts proved of
      it are about row counts, dates, keys and references, which no float
      rounding changes, and about the arithmetic identities of the schedule
      on exact numbers. The second reading, [F64], rounds every float
      operation to binary64 as the program does ([PyFloat.double]); the
      facts about stored amounts are proved of it. [Binary64] replays the
      split of one payment on the IEEE operations of [SpecFloat].
    - A [date] is its proleptic Gregorian ordinal ([date.toordinal()]), so
      [d + timedelta(days=k)] is [d + k] and [(d1 - d2).days] is [d1 - d2].
    - The three pseudo-random generators of the process (the [random] module,
      numpy's global generator used by [DataFrame.sample], and Faker's own
      generator) are explicit states threaded through a state-and-exception
      monad; Python exceptions are the [Raise] outcome.
    - [datetime.now().date()] is the parameter [now]: one run reads the same
      calendar date at every call. *)

From Stdlib Require Import String ZArith QArith Qround Qminmax Qpower List Lia Lqa Bool.
From Stdlib Require Import Floats.SpecFloat.
From Stdlib Require Import Sorted.
Import ListNotations.
Local Open Scope Z_scope.
Local Open Scope Q_scope.

Set Implicit Arguments.

(** ** Python numbers *)

Module PyNum.

(** [int(x)] on a float: truncation toward zero. *)
Definition py_int (x : Q) : Z := Z.quot (Qnum x) (Zpos (Qden x)).

(** Rounding of an exact value to the nearest integer, ties to even. *)
Definition round_half_even (x : Q) : Z :=
  let f := Qfloor x in
  match Qcompare (x - inject_Z f) (1 # 2) with
  | Lt => f
  | Gt => (f + 1)%Z
  | Eq => if Z.even f then f else (f + 1)%Z
  end.

Fixpoint pow10 (n : nat) : positive :=
  match n with
  | O => 1%positive
  | S n' => (10 * pow10 n')%positive
  end.

(** [round(x, ndigits)]. *)
Definition py_round (x : Q) (ndigits : nat) : Q :=
  Qmake (round_half_even (x * inject_Z (Zpos (pow10 ndigits)))) (pow10 ndigits).

(** [max(0, x)] and [min(x, 1.0)] return their first argument on a tie, as
    [Qmax] and [Qmin] do. *)
Definition py_max0 (x : Q) : Q := Qmax 0 x.

End PyNum.
Export PyNum.

(** ** Exceptions, and the state-and-exception monad *)

Inductive exn : Type :=
| ZeroDivisionError
| IndexError
| ValueError.

Inductive result (A : Type) : Type :=
| Ok (a : A)
| Raise (e : exn).
Arguments Ok {A} a.
Arguments Raise {A} e.

(** The interface of a pseudo-random generator: [next_float] is
    [Random.random()], a float in [0, 1); [randbelow n] is
    [Random._randbelow(n)], an integer in [0, n). *)
Class RandomSource (rng : Type) : Type := {
  next_float : rng -> Q * rng;
  randbelow : Z -> rng -> Z * rng;
  next_float_range : forall s, 0 <= fst (next_float s) /\ fst (next_float s) < 1;
  randbelow_range : forall n s, (0 < n)%Z -> (0 <= fst (randbelow n s) < n)%Z
}.

Section Monad.

Variable rng : Type.

(** The generators of the process: [py_random] is the [random] module's,
    [np_random] numpy's global one, [faker_random] the one of [fake]. *)
Record world : Type := World {
  py_random : rng;
  np_random : rng;
  faker_random : rng
}.

Definition M (A : Type) : Type := world -> result (A * world).

Definition ret {A} (a : A) : M A := fun w => Ok (a, w).

Definition bind {A B} (m : M A) (f : A -> M B) : M B :=
  fun w => match m w with
           | Ok (a, w') => f a w'
           | Raise e => Raise e
           end.

Definition raise {A} (e : exn) : M A := fun _ => Raise e.

End Monad.

Arguments World {rng} _ _ _.
Arguments py_random {rng} _.
Arguments np_random {rng} _.
Arguments faker_random {rng} _.
Arguments ret {rng A} a _.
Arguments bind {rng A B} m f _.
Arguments raise {rng A} e _.

Declare Scope monad_scope.
Delimit Scope monad_scope with monad.
Notation "x <- m ;; k" := (bind m (fun x => k))
  (at level 61, m at next level, right associativity) : monad_scope.
Notation "' pat <- m ;; k" := (bind m (fun x => match x with pat => k end))
  (at level 61, pat pattern, m at next level, right associativity) : monad_scope.
Local Open Scope monad_scope.

(** ** The random API used by the generators *)

Section RandomAPI.

Context {rng : Type} {RS : RandomSource rng}.
Local Abbreviation M := (M rng).

Definition on_py {A} (f : rng -> A * rng) : M A :=
  fun w => let (a, s) := f (py_random w) in
           Ok (a, World s (np_random w) (faker_random w)).

Definition on_np {A} (f : rng -> A * rng) : M A :=
  fun w => let (a, s) := f (np_random w) in
           Ok (a, World (py_random w) s (faker_random w)).

Definition on_faker {A} (f : rng -> A * rng) : M A :=
  fun w => let (a, s) := f (faker_random w) in
           Ok (a, World (py_random w) (np_random w) s).

(** [random.random()]. *)
Definition random : M Q := on_py next_float.

(** [random.uniform(a, b)] is [a + (b - a) * random()]. *)
Definition uniform (a b : Q) : M Q :=
  x <- random ;; ret (a + (b - a) * x).

(** [random.randint(a, b)] is [a + _randbelow(b - a + 1)], and raises
    [ValueError] on an empty range. *)
Definition randint (a b : Z) : M Z :=
  if (b <? a)%Z then raise ValueError
  else x <- on_py (randbelow (b - a + 1)) ;; ret (a + x)%Z.

(** [random.choice(seq)] is [seq[_randbelow(len(seq))]], and raises
    [IndexError] on an empty sequence. *)
Definition choice {A} (seq : list A) : M A :=
  match seq with
  | [] => raise IndexError
  | d :: _ =>
      i <- on_py (randbelow (Z.of_nat (length seq))) ;;
      ret (nth (Z.to_nat i) seq d)
  end.

Fixpoint accumulate (acc : Q) (ws : list Q) : list Q :=
  match ws with
  | [] => []
  | x :: ws' => (acc + x) :: accumulate (acc + x) ws'
  end.

(** [bisect(cum, x, 0, hi)] on a sorted list: the first index below [hi]
    whose entry exceeds [x], or [hi]. *)
Fixpoint bisect (cum : list Q) (x : Q) (hi : nat) : nat :=
  match hi, cum with
  | S hi', c :: cum' => if Qlt_le_dec x c then O else S (bisect cum' x hi')
  | _, _ => O
  end.

(** [random.choices(population, weights=weights)[0]]: one draw of
    [random()], scaled by the total weight and located in the cumulative
    weights. *)
Definition choices1 {A} (population : list A) (weights : list Q) : M A :=
  match population with
  | [] => raise IndexError
  | d :: _ =>
      let cum_weights := accumulate 0 weights in
      let total := last cum_weights 0 in
      x <- random ;;
      ret (nth (bisect cum_weights (x * total) (length population - 1)%nat) population d)
  end.

(** [fake.date_between(start_date, end_date)]: a date of the closed range,
    drawn from Faker's generator; an empty range raises. *)
Definition date_between (start_date end_date : Z) : M Z :=
  if (end_date <? start_date)%Z then raise ValueError
  else x <- on_faker (randbelow (end_date - start_date + 1)) ;;
       ret (start_date + x)%Z.

(** Removal of the element of index [i]. *)
Fixpoint remove_nth {A} (i : nat) (l : list A) : list A :=
  match i, l with
  | _, [] => []
  | O, _ :: t => t
  | S i', h :: t => h :: remove_nth i' t
  end.

(** [df.sample(n)]: [n] rows drawn without replacement from numpy's global
    generator; asking for more rows than there are raises [ValueError]. *)
Fixpoint df_sample {A} (n : nat) (rows : list A) : M (list A) :=
  match n with
  | O => ret []
  | S n' =>
      match rows with
      | [] => raise ValueError
      | d :: _ =>
          i <- on_np (randbelow (Z.of_nat (length rows))) ;;
          rest <- df_sample n' (remove_nth (Z.to_nat i) rows) ;;
          ret (nth (Z.to_nat i) rows d :: rest)
      end
  end.

(** [df.sample(1).iloc[0]]. *)
Definition df_sample1 {A} (rows : list A) : M A :=
  l <- df_sample 1 rows ;;
  match l with
  | r :: _ => ret r
  | [] => raise IndexError
  end.

(** A float division whose denominator is not a literal:
    [ZeroDivisionError] on a zero denominator. *)
Definition py_div (x y : Q) : M Q :=
  if Qeq_bool y 0 then raise ZeroDivisionError else ret (x / y).

End RandomAPI.

(** ** Reasoning about monadic code

    [wp m P w]: run from [w], [m] returns normally with a value satisfying
    [P]. It is a total-correctness predicate: an exception refutes it. *)

Section WP.

Context {rng : Type} {RS : RandomSource rng}.
Local Abbreviation M := (M rng).

Definition wp {A} (m : M A) (P : A -> Prop) (w : world rng) : Prop :=
  exists a w', m w = Ok (a, w') /\ P a.

End WP.

(** ** Configuration *)

Definition MIN_LOAN_AMOUNT : Z := 10000.
Definition MAX_LOAN_AMOUNT : Z := 500000.
Definition DEFAULT_RATE : Q := 0.05.

(** [datetime(2020, 1, 1)] and [datetime(2024, 10, 31)], as ordinals. *)
Definition START_DATE : Z := 737425.
Definition END_DATE : Z := 739190.

Definition NUM_SUKUK_PURCHASES : nat := 1500.
Definition NUM_LOANS : nat := 250.
Definition NUM_LOAN_PAYMENTS : nat := 2000.
Definition NUM_PROFIT_DISTRIBUTIONS : nat := 800.

(** ** Data model: the rows of the tables *)

Inductive LoanStatus : Type := Active | PaidOff | Defaulted.
Inductive PaymentStatus : Type := OnTime | Late | Missed.

Module Borrower.
Record row : Type := Row {
  borrower_id : Z;
  credit_score : Z
}.
End Borrower.

Module Sukuk.
Record row : Type := Row {
  sukuk_id : Z;
  issue_date : Z;
  expected_return_rate : Q;
  minimum_investment : Q
}.
End Sukuk.

Module Purchase.
Record row : Type := Row {
  investor_id : Z;
  sukuk_id : Z;
  purchase_date : Z;
  amount : Z;
  units : Q;
  processed_by_employee_id : Z
}.
End Purchase.

Module Loan.
Record row : Type := Row {
  borrower_id : Z;
  loan_amount : Z;
  disbursement_date : Z;
  maturity_date : Z;
  profit_rate : Q;
  purpose : string;
  loan_status : LoanStatus;
  collateral_description : string;
  approved_by_employee_id : Z;
  outstanding_balance : Q
}.
End Loan.

Module Payment.
Record row : Type := Row {
  loan_id : Z;
  payment_date : Z;
  payment_amount : Q;
  principal_amount : Q;
  profit_amount : Q;
  remaining_balance : Q;
  payment_status : PaymentStatus
}.
End Payment.

(** A row of the query joining [sukuk_purchases] with [sukuk_issuances]. *)
Module PurchaseReturn.
Record row : Type := Row {
  purchase_id : Z;
  investor_id : Z;
  sukuk_id : Z;
  purchase_date : Z;
  amount : Z;
  expected_return_rate : Q
}.
End PurchaseReturn.

Module Distribution.
Record row : Type := Row {
  purchase_id : Z;
  distribution_date : Z;
  amount : Q;
  period_start : Z;
  period_end : Z;
  processed_by_employee_id : Z
}.
End Distribution.

(** [range(n)]. *)
Definition py_range (n : Z) : list Z := map Z.of_nat (seq 0 (Z.to_nat n)).

(** The [AUTOINCREMENT] keys of a freshly created table: 1, 2, ... *)
Definition with_rowid {A} (rows : list A) : list (Z * A) :=
  combine (map Z.of_nat (seq 1 (length rows))) rows.

(** ** The generators *)

Section Generators.

Context {rng : Type} {RS : RandomSource rng}.
Local Abbreviation M := (M rng).

(** [datetime.now().date()]. *)
Variable now : Z.

(** *** [generate_sukuk_purchases] *)

(** The body of the loop of [generate_sukuk_purchases]. *)
Definition generate_sukuk_purchase (investor_ids : list Z)
    (sukuk_df : list Sukuk.row) (employee_ids : list Z) : M Purchase.row :=
  sukuk_row <- df_sample1 sukuk_df ;;
  let sukuk_id := Sukuk.sukuk_id sukuk_row in
  let issue_date := Sukuk.issue_date sukuk_row in
  let min_investment := Sukuk.minimum_investment sukuk_row in
  purchase_date <- date_between issue_date (Z.min now (issue_date + 365)) ;;
  amount <- randint (py_int min_investment) (py_int (min_investment * 50)) ;;
  let units := inject_Z amount / 1000 in
  investor <- choice investor_ids ;;
  processed_by <- choice employee_ids ;;
  ret {| Purchase.investor_id := investor;
         Purchase.sukuk_id := sukuk_id;
         Purchase.purchase_date := purchase_date;
         Purchase.amount := amount;
         Purchase.units := units;
         Purchase.processed_by_employee_id := processed_by |}.

Fixpoint generate_sukuk_purchases_loop (investor_ids : list Z)
    (sukuk_df : list Sukuk.row) (employee_ids : list Z)
    (num_purchases : nat) (purchases : list Purchase.row) : M (list Purchase.row) :=
  match num_purchases with
  | O => ret purchases
  | S n =>
      p <- generate_sukuk_purchase investor_ids sukuk_df employee_ids ;;
      generate_sukuk_purchases_loop investor_ids sukuk_df employee_ids n (purchases ++ [p])
  end.

Definition generate_sukuk_purchases (investor_ids : list Z)
    (sukuk_df : list Sukuk.row) (employee_ids : list Z)
    (num_purchases : nat) : M (list Purchase.row) :=
  generate_sukuk_purchases_loop investor_ids sukuk_df employee_ids num_purchases [].

(** *** [generate_business_loans] *)

Local Open Scope string_scope.

Definition loan_purposes : list string :=
  [ "Equipment Purchase"; "Business Expansion"; "Working Capital";
    "Real Estate Acquisition"; "Inventory Financing"; "Technology Upgrade";
    "Facility Renovation"; "Debt Consolidation" ].

Definition collateral_types : list string :=
  [ "Real Estate Property"; "Equipment and Machinery"; "Inventory";
    "Accounts Receivable"; "Business Assets"; "Personal Guarantee" ].

Local Close Scope string_scope.

(** The bounds of [random.randint] for the loan amount of a credit score. *)
Definition loan_amount_range (credit_score : Z) : Z * Z :=
  if (750 <=? credit_score)%Z then (100000, 500000)%Z
  else if (650 <=? credit_score)%Z then (50000, 250000)%Z
  else (10000, 100000)%Z.

Definition base_profit_rate : Q := 0.10.

(** The profit rate of a credit score, before the jitter. *)
Definition tier_profit_rate (credit_score : Z) : Q :=
  if (750 <=? credit_score)%Z then base_profit_rate - 0.02
  else if (650 <=? credit_score)%Z then base_profit_rate
  else base_profit_rate + 0.03.

(** Status and outstanding balance of a new loan. *)
Definition resolve_status (loan_amount disbursement_date maturity_date : Z)
  : M (LoanStatus * Q) :=
  r <- random ;;
  if Qlt_le_dec r DEFAULT_RATE then
    u <- uniform 0.3 0.9 ;;
    ret (Defaulted, inject_Z loan_amount * u)
  else if (maturity_date <? now)%Z then
    ret (PaidOff, 0)
  else
    let days_elapsed := (now - disbursement_date)%Z in
    let total_days := (maturity_date - disbursement_date)%Z in
    if (0 <? total_days)%Z then
      ratio <- py_div (inject_Z days_elapsed) (inject_Z total_days) ;;
      let progress := Qmin ratio 1 in
      ret (Active, inject_Z loan_amount * (1 - progress * 0.7))
    else
      ret (Active, inject_Z loan_amount).

(** The body of the loop of [generate_business_loans]. *)
Definition generate_business_loan (borrowers_df : list Borrower.row)
    (employee_ids : list Z) : M Loan.row :=
  borrower_row <- df_sample1 borrowers_df ;;
  let borrower_id := Borrower.borrower_id borrower_row in
  let credit_score := Borrower.credit_score borrower_row in
  loan_amount <- randint (fst (loan_amount_range credit_score))
                         (snd (loan_amount_range credit_score)) ;;
  disbursement_date <- date_between START_DATE END_DATE ;;
  loan_term_months <- choice [12; 24; 36; 48; 60]%Z ;;
  let maturity_date := (disbursement_date + loan_term_months * 30)%Z in
  jitter <- uniform (- 0.01) 0.01 ;;
  let profit_rate := tier_profit_rate credit_score + jitter in
  '(loan_status, outstanding_balance) <-
    resolve_status loan_amount disbursement_date maturity_date ;;
  purpose <- choice loan_purposes ;;
  collateral <- choice collateral_types ;;
  approved_by <- choice employee_ids ;;
  ret {| Loan.borrower_id := borrower_id;
         Loan.loan_amount := loan_amount;
         Loan.disbursement_date := disbursement_date;
         Loan.maturity_date := maturity_date;
         Loan.profit_rate := py_round profit_rate 4;
         Loan.purpose := purpose;
         Loan.loan_status := loan_status;
         Loan.collateral_description := collateral;
         Loan.approved_by_employee_id := approved_by;
         Loan.outstanding_balance := py_round outstanding_balance 2 |}.

Fixpoint generate_business_loans_loop (borrowers_df : list Borrower.row)
    (employee_ids : list Z) (num_loans : nat) (loans : list Loan.row)
  : M (list Loan.row) :=
  match num_loans with
  | O => ret loans
  | S n =>
      l <- generate_business_loan borrowers_df employee_ids ;;
      generate_business_loans_loop borrowers_df employee_ids n (loans ++ [l])
  end.

Definition generate_business_loans (borrowers_df : list Borrower.row)
    (employee_ids : list Z) (num_loans : nat) : M (list Loan.row) :=
  generate_business_loans_loop borrowers_df employee_ids num_loans [].

(** *** [generate_loan_payments] *)

(** The amounts realized by one payment: payment, principal and profit. *)
Definition realized_payment (monthly_payment principal_portion profit_portion : Q)
    (payment_status_choice : PaymentStatus) : M (Q * Q * Q) :=
  match payment_status_choice with
  | Missed => ret (0, 0, 0)
  | Late =>
      u <- uniform 0.5 0.9 ;;
      let actual_payment := monthly_payment * u in
      principal_share <- py_div principal_portion monthly_payment ;;
      profit_share <- py_div profit_portion monthly_payment ;;
      ret (actual_payment, actual_payment * principal_share, actual_payment * profit_share)
  | OnTime => ret (monthly_payment, principal_portion, profit_portion)
  end.

(** The loop over [range(num_loan_payments)]; both [break]s return. *)
Fixpoint payment_loop (loan_id disbursement_date : Z) (profit_rate monthly_payment : Q)
    (num_payments : nat) (payment_nums : list Z) (remaining : Q)
    (all_payments : list Payment.row) : M (list Payment.row) :=
  match payment_nums with
  | [] => ret all_payments
  | payment_num :: rest =>
      let payment_date := (disbursement_date + 30 * (payment_num + 1))%Z in
      if (now <? payment_date)%Z then ret all_payments
      else
        let profit_portion := remaining * (profit_rate / 12) in
        let principal_portion := monthly_payment - profit_portion in
        payment_status_choice <-
          choices1 [OnTime; Late; Missed] [0.95; 0.03; 0.02] ;;
        '(actual_payment, actual_principal, actual_profit) <-
          realized_payment monthly_payment principal_portion profit_portion
                           payment_status_choice ;;
        let remaining := py_max0 (remaining - actual_principal) in
        let all_payments := all_payments ++
          [ {| Payment.loan_id := loan_id;
               Payment.payment_date := payment_date;
               Payment.payment_amount := py_round actual_payment 2;
               Payment.principal_amount := py_round actual_principal 2;
               Payment.profit_amount := py_round actual_profit 2;
               Payment.remaining_balance := py_round remaining 2;
               Payment.payment_status := payment_status_choice |} ] in
        if (num_payments <=? length all_payments)%nat then ret all_payments
        else payment_loop loan_id disbursement_date profit_rate monthly_payment
                          num_payments rest remaining all_payments
  end.

(** The period count of a loan. *)
Definition loan_months (loan : Loan.row) : Z :=
  Z.max 1 (py_int (inject_Z (Loan.maturity_date loan - Loan.disbursement_date loan) / 30)).

(** The number of payments to generate for a loan. *)
Definition draw_num_loan_payments (loan : Loan.row) : M Z :=
  let months := loan_months loan in
  match Loan.loan_status loan with
  | PaidOff => ret months
  | Defaulted =>
      randint (py_int (inject_Z months * 0.3)) (py_int (inject_Z months * 0.7))
  | Active =>
      let months_elapsed :=
        py_int (inject_Z (now - Loan.disbursement_date loan) / 30) in
      ret (Z.min months_elapsed months)
  end.

(** The per-period installment of a loan. *)
Definition loan_monthly_payment (loan : Loan.row) : M Q :=
  let loan_amount := inject_Z (Loan.loan_amount loan) in
  let months := loan_months loan in
  let total_profit := loan_amount * Loan.profit_rate loan * (inject_Z months / 12) in
  let total_to_pay := loan_amount + total_profit in
  py_div total_to_pay (inject_Z months).

(** The body of the loop over the loans. *)
Definition loan_payments (num_payments : nat) (loan_id : Z) (loan : Loan.row)
    (all_payments : list Payment.row) : M (list Payment.row) :=
  monthly_payment <- loan_monthly_payment loan ;;
  num_loan_payments <- draw_num_loan_payments loan ;;
  payment_loop loan_id (Loan.disbursement_date loan) (Loan.profit_rate loan)
               monthly_payment num_payments (py_range num_loan_payments)
               (inject_Z (Loan.loan_amount loan)) all_payments.

Fixpoint generate_loan_payments_loop (num_payments : nat)
    (loans_df : list (Z * Loan.row)) (all_payments : list Payment.row)
  : M (list Payment.row) :=
  match loans_df with
  | [] => ret all_payments
  | (loan_id, loan) :: rest =>
      all_payments <- loan_payments num_payments loan_id loan all_payments ;;
      if (num_payments <=? length all_payments)%nat then ret all_payments
      else generate_loan_payments_loop num_payments rest all_payments
  end.

(** [business_loans] is the content of the table of that name. *)
Definition generate_loan_payments (business_loans : list Loan.row)
    (num_payments : nat) : M (list Payment.row) :=
  all_payments <- generate_loan_payments_loop num_payments (with_rowid business_loans) [] ;;
  ret (firstn num_payments all_payments).

(** *** [generate_profit_distributions] *)

(** The loop over the quarters of one purchase. *)
Fixpoint distribution_loop (purchase : PurchaseReturn.row) (employee_ids : list Z)
    (num_distributions : nat) (quarters : list Z)
    (distributions : list Distribution.row) : M (list Distribution.row) :=
  match quarters with
  | [] => ret distributions
  | quarter :: rest =>
      let period_start := (PurchaseReturn.purchase_date purchase + 90 * quarter)%Z in
      let period_end := (period_start + 90)%Z in
      let distribution_date := period_end in
      if (now <? distribution_date)%Z then ret distributions
      else
        u <- uniform 0.9 1.1 ;;
        let quarterly_profit :=
          (inject_Z (PurchaseReturn.amount purchase)
           * PurchaseReturn.expected_return_rate purchase / 4) * u in
        processed_by <- choice employee_ids ;;
        let distributions := distributions ++
          [ {| Distribution.purchase_id := PurchaseReturn.purchase_id purchase;
               Distribution.distribution_date := distribution_date;
               Distribution.amount := py_round quarterly_profit 2;
               Distribution.period_start := period_start;
               Distribution.period_end := period_end;
               Distribution.processed_by_employee_id := processed_by |} ] in
        if (num_distributions <=? length distributions)%nat then ret distributions
        else distribution_loop purchase employee_ids num_distributions rest distributions
  end.

Definition quarters_since_purchase (purchase : PurchaseReturn.row) : Z :=
  py_int (inject_Z (now - PurchaseReturn.purchase_date purchase) / 90).

(** The body of the loop over the sampled purchases. *)
Definition purchase_distributions (purchase : PurchaseReturn.row)
    (employee_ids : list Z) (num_distributions : nat)
    (distributions : list Distribution.row) : M (list Distribution.row) :=
  distribution_loop purchase employee_ids num_distributions
    (py_range (Z.min (quarters_since_purchase purchase) 8)) distributions.

Fixpoint generate_profit_distributions_loop (employee_ids : list Z)
    (num_distributions : nat) (sampled : list PurchaseReturn.row)
    (distributions : list Distribution.row) : M (list Distribution.row) :=
  match sampled with
  | [] => ret distributions
  | purchase :: rest =>
      distributions <-
        purchase_distributions purchase employee_ids num_distributions distributions ;;
      if (num_distributions <=? length distributions)%nat then ret distributions
      else generate_profit_distributions_loop employee_ids num_distributions rest distributions
  end.

(** [purchases_df] is the result of the join query, [employee_ids] the
    employees of the Finance department. *)
Definition generate_profit_distributions (purchases_df : list PurchaseReturn.row)
    (employee_ids : list Z) (num_distributions : nat) : M (list Distribution.row) :=
  sampled <- df_sample (Nat.min (length purchases_df) num_distributions) purchases_df ;;
  distributions <-
    generate_profit_distributions_loop employee_ids num_distributions sampled [] ;;
  ret (firstn num_distributions distributions).

(** *** The run *)

(** The join of [sukuk_purchases] with [sukuk_issuances] on [sukuk_id]. *)
Definition join_purchases (sukuk_purchases : list Purchase.row)
    (sukuk_df : list Sukuk.row) : list PurchaseReturn.row :=
  flat_map
    (fun '(purchase_id, p) =>
       map (fun si =>
              {| PurchaseReturn.purchase_id := purchase_id;
                 PurchaseReturn.investor_id := Purchase.investor_id p;
                 PurchaseReturn.sukuk_id := Purchase.sukuk_id p;
                 PurchaseReturn.purchase_date := Purchase.purchase_date p;
                 PurchaseReturn.amount := Purchase.amount p;
                 PurchaseReturn.expected_return_rate := Sukuk.expected_return_rate si |})
           (filter (fun si => (Sukuk.sukuk_id si =? Purchase.sukuk_id p)%Z) sukuk_df))
    (with_rowid sukuk_purchases).

(** The tables the four generators read: the rows and keys produced by the
    entity and instrument generators. *)
Record upstream : Type := Upstream {
  investor_ids : list Z;
  sukuk_df : list Sukuk.row;
  borrowers_df : list Borrower.row;
  operations_employee_ids : list Z;
  risk_employee_ids : list Z;
  finance_employee_ids : list Z
}.

(** The volume parameters of the four generators. *)
Record volumes : Type := Volumes {
  num_purchases : nat;
  num_loans : nat;
  num_payments : nat;
  num_distributions : nat
}.

Record dataset : Type := Dataset {
  sukuk_purchases : list Purchase.row;
  business_loans : list Loan.row;
  loan_payments_table : list Payment.row;
  profit_distributions : list Distribution.row
}.

(** The four stages of [main], in its order. *)
Definition main (u : upstream) (v : volumes) : M dataset :=
  purchases_df <- generate_sukuk_purchases (investor_ids u) (sukuk_df u)
                    (operations_employee_ids u) (num_purchases v) ;;
  loans_df <- generate_business_loans (borrowers_df u) (risk_employee_ids u)
                (num_loans v) ;;
  payments_df <- generate_loan_payments loans_df (num_payments v) ;;
  distributions_df <- generate_profit_distributions
                        (join_purchases purchases_df (sukuk_df u))
                        (finance_employee_ids u) (num_distributions v) ;;
  ret {| sukuk_purchases := purchases_df;
         business_loans := loans_df;
         loan_payments_table := payments_df;
         profit_distributions := distributions_df |}.

End Generators.

(** The volume parameters of the source. *)
Definition source_volumes : volumes :=
  {| num_purchases := NUM_SUKUK_PURCHASES;
     num_loans := NUM_LOANS;
     num_payments := NUM_LOAN_PAYMENTS;
     num_distributions := NUM_PROFIT_DISTRIBUTIONS |}.

(** ** A scripted random source

    The state is the list of the raw draws still to come; a float is the
    draw modulo 10000 over 10000, an integer below [n] the draw modulo [n];
    an exhausted script yields zeros. *)

Definition tape_next_float (s : list Z) : Q * list Z :=
  match s with
  | [] => (0, [])
  | z :: t => (Qmake (z mod 10000) 10000, t)
  end.

Definition tape_randbelow (n : Z) (s : list Z) : Z * list Z :=
  match s with
  | [] => (0%Z, [])
  | z :: t => ((z mod n)%Z, t)
  end.

#[export] Instance Tape : RandomSource (list Z).
Proof.
  refine {| next_float := tape_next_float; randbelow := tape_randbelow |}.
  - intros [|z t]; simpl.
    + split; [apply Qle_refl | reflexivity].
    + pose proof (Z.mod_pos_bound z 10000 eq_refl) as H.
      unfold Qle, Qlt; simpl. split; lia.
  - intros n [|z t] Hn; simpl.
    + lia.
    + apply Z.mod_pos_bound. exact Hn.
Defined.

(** ** The installment split in binary64

    The generators compute on IEEE binary64 floats. This module replays the
    installment and the split of the first payment of a loan in that
    arithmetic, operation by operation ([SpecFloat] is the specification of
    the IEEE operations, rounding to nearest, ties to even), to tell what
    holds of the floats from what holds of exact arithmetic. *)

Module Binary64.

Definition prec : Z := 53.
Definition emax : Z := 1024.

(** The float of an integer. *)
Definition of_Z (z : Z) : spec_float := binary_normalize prec emax z 0 false.

Definition fadd : spec_float -> spec_float -> spec_float := SFadd prec emax.
Definition fsub : spec_float -> spec_float -> spec_float := SFsub prec emax.
Definition fmul : spec_float -> spec_float -> spec_float := SFmul prec emax.
Definition fdiv : spec_float -> spec_float -> spec_float := SFdiv prec emax.

(** The float nearest to the decimal fraction [n / d]. *)
Definition of_fraction (n d : Z) : spec_float := fdiv (of_Z n) (of_Z d).

(** The amounts of the first payment of a loan when it is On Time:
    [actual_payment], [actual_principal] and [actual_profit]. The profit
    rate is [rate_n / rate_d]. *)
Definition first_on_time_payment (loan_amount rate_n rate_d months : Z)
  : spec_float * spec_float * spec_float :=
  let loan_amount := of_Z loan_amount in
  let profit_rate := of_fraction rate_n rate_d in
  let total_profit :=
    fmul (fmul loan_amount profit_rate) (fdiv (of_Z months) (of_Z 12)) in
  let total_to_pay := fadd loan_amount total_profit in
  let monthly_payment := fdiv total_to_pay (of_Z months) in
  let remaining := loan_amount in
  let profit_portion := fmul remaining (fdiv profit_rate (of_Z 12)) in
  let principal_portion := fsub monthly_payment profit_portion in
  (monthly_payment, principal_portion, profit_portion).

End Binary64.

(** ** The instrument generator, the borrowers' credit score and the
    investors' derived total *)

Module Issuance.

Inductive state : Type := Active | Matured.

(** [sukuk_name] is the text before the series character and the code
    point of that character, [chr(65 + i)]. *)
Record row : Type := Row {
  sukuk_name : string * Z;
  issue_date : Z;
  maturity_date : Z;
  total_amount : Z;
  expected_return_rate : Q;
  minimum_investment : Z;
  underlying_assets : string;
  status : state;
  issued_by_employee_id : Z
}.

End Issuance.

Section IssuanceGenerator.

Context {rng : Type} {RS : RandomSource rng}.
Local Abbreviation M := (M rng).

(** [datetime.now().date()], and the date Faker resolves the relative end
    date ['-6m'] of the issue window to; Faker is not part of the
    repository. *)
Variable now : Z.
Variable issue_window_end : Z.

Local Open Scope string_scope.

Definition sukuk_types : list string :=
  [ "Ijara"; "Mudaraba"; "Musharaka"; "Murabaha"; "Istisna" ].

Definition underlying_assets_options : list string :=
  [ "Commercial Real Estate Portfolio"; "Manufacturing Equipment Pool";
    "Technology Infrastructure"; "Healthcare Facilities";
    "Transportation Fleet"; "Renewable Energy Projects";
    "Educational Institutions" ].

(** The body of the loop of [generate_sukuk_issuances], at index [i]. *)
Definition generate_sukuk_issuance (employee_ids : list Z) (i : Z)
  : M Issuance.row :=
  issue_date <- date_between START_DATE issue_window_end ;;
  maturity_years <- choice [2; 3; 5; 7; 10]%Z ;;
  let maturity_date := (issue_date + maturity_years * 365)%Z in
  total_amount <- randint 1000000 10000000 ;;
  let base_rate := 0.05%Q in
  jitter <- uniform (- 0.01) 0.01 ;;
  let expected_return :=
    (base_rate + inject_Z maturity_years * 0.005 + jitter)%Q in
  let status := if (now <? maturity_date)%Z
                then Issuance.Active else Issuance.Matured in
  sukuk_type <- choice sukuk_types ;;
  minimum_investment <- choice [1000; 5000; 10000]%Z ;;
  underlying_assets <- choice underlying_assets_options ;;
  issued_by <- choice employee_ids ;;
  ret {| Issuance.sukuk_name := (sukuk_type ++ " Sukuk Series ", (65 + i)%Z);
         Issuance.issue_date := issue_date;
         Issuance.maturity_date := maturity_date;
         Issuance.total_amount := total_amount;
         Issuance.expected_return_rate := py_round expected_return 4;
         Issuance.minimum_investment := minimum_investment;
         Issuance.underlying_assets := underlying_assets;
         Issuance.status := status;
         Issuance.issued_by_employee_id := issued_by |}.

Local Close Scope string_scope.

Fixpoint generate_sukuk_issuances_loop (employee_ids : list Z)
    (indices : list Z) (sukuk_list : list Issuance.row)
  : M (list Issuance.row) :=
  match indices with
  | [] => ret sukuk_list
  | i :: rest =>
      r <- generate_sukuk_issuance employee_ids i ;;
      generate_sukuk_issuances_loop employee_ids rest (sukuk_list ++ [r])
  end.

(** [employee_ids] are the employees of the Finance department. *)
Definition generate_sukuk_issuances (employee_ids : list Z) (num_sukuk : nat)
  : M (list Issuance.row) :=
  generate_sukuk_issuances_loop employee_ids (py_range (Z.of_nat num_sukuk)) [].

End IssuanceGenerator.

(** The rows that [generate_sukuk_purchases] reads back from
    [sukuk_issuances]. *)
Definition read_sukuk (sukuk_issuances : list Issuance.row) : list Sukuk.row :=
  map (fun '(sukuk_id, r) =>
         {| Sukuk.sukuk_id := sukuk_id;
            Sukuk.issue_date := Issuance.issue_date r;
            Sukuk.expected_return_rate := Issuance.expected_return_rate r;
            Sukuk.minimum_investment := inject_Z (Issuance.minimum_investment r) |})
      (with_rowid sukuk_issuances).

(** [np.clip(x, lo, hi)] is [minimum(maximum(x, lo), hi)]. *)
Definition np_clip (x lo hi : Q) : Q := Qmin (Qmax x lo) hi.

(** The credit score of a borrower, from the draw of
    [np.random.normal(680, 60)]. *)
Definition credit_score_of (normal_draw : Q) : Z :=
  py_int (np_clip normal_draw 300 850).

Definition Zsum (l : list Z) : Z := fold_right Z.add 0%Z l.

(** The value the [UPDATE] that ends [generate_sukuk_purchases] gives to
    [total_invested] of the investor [investor_id]: the sum of the amounts
    of the investor's purchases, 0 when there is none. *)
Definition total_invested (sukuk_purchases : list Purchase.row)
    (investor_id : Z) : Z :=
  Zsum (map Purchase.amount
            (filter (fun p => (Purchase.investor_id p =? investor_id)%Z)
                    sukuk_purchases)).

(** ** Binary64 floats

    A float is the rational it denotes. [double x] is the binary64 value
    nearest to the rational [x], ties to even: the value of a decimal
    literal, of the conversion of an [int], and of each arithmetic operation
    applied to the exact result. The significand has 53 bits; the exponent
    range is not modelled (no overflow to infinity, no subnormal numbers):
    the amounts, rates and draws of the generators are far inside it. *)

Module PyFloat.

(** The binade of a positive rational: the integer [e] with
    [2^e <= x < 2^(e+1)]. *)
Definition ilog2 (x : Q) : Z :=
  let n := Qnum x in
  let d := Zpos (Qden x) in
  let a := Z.log2 n in
  let b := Z.log2 d in
  if (d * 2 ^ a <=? n * 2 ^ b)%Z then (a - b)%Z else (a - b - 1)%Z.

(** A positive rational rounded to 53 significant bits. *)
Definition round53 (x : Q) : Q :=
  let c := (ilog2 x - 52)%Z in
  inject_Z (round_half_even (x * 2 ^ (- c))) * 2 ^ c.

Definition double (x : Q) : Q :=
  match Qcompare x 0 with
  | Eq => 0
  | Gt => round53 x
  | Lt => - round53 (- x)
  end.

(** [x + y], [x - y], [x * y] and [x / y] on floats. *)
Definition fadd (x y : Q) : Q := double (x + y).
Definition fsub (x y : Q) : Q := double (x - y).
Definition fmul (x y : Q) : Q := double (x * y).
Definition fdiv (x y : Q) : Q := double (x / y).

(** [round(x, ndigits)] on a float: the float nearest to the decimal that
    is nearest to [x]. *)
Definition float_round (x : Q) (ndigits : nat) : Q := double (py_round x ndigits).

(** [x] is a binary64 value. *)
Definition is_float (x : Q) : Prop := double x == x.

(** The rational that a finite IEEE float denotes. *)
Definition of_spec_float (f : spec_float) : Q :=
  match f with
  | S754_finite s m e =>
      (if s then - inject_Z (Zpos m) else inject_Z (Zpos m)) * 2 ^ e
  | _ => 0
  end.

End PyFloat.
Export PyFloat.

(** ** The amounts in binary64

    The loan, payment and distribution generators once more, with every
    float operation of the source rounded as the program rounds it. The
    control flow, the dates and the integer draws are those of the
    definitions above; the amounts, the rates and the float draws are
    binary64 values. The statements about stored amounts are made of these
    definitions. *)

Module F64.

Section Generators.

Context {rng : Type} {RS : RandomSource rng}.
Local Abbreviation M := (M rng).

(** [datetime.now().date()]. *)
Variable now : Z.

(** [random.random()]: an integer of 53 random bits, scaled by 2^-53. *)
Definition random : M Q :=
  k <- on_py (randbelow (2 ^ 53)) ;;
  ret (inject_Z k / inject_Z (2 ^ 53)).

(** [random.uniform(a, b)] is [a + (b - a) * random()]. *)
Definition uniform (a b : Q) : M Q :=
  x <- random ;; ret (fadd a (fmul (fsub b a) x)).

(** A division whose denominator is not a literal. *)
Definition py_div (x y : Q) : M Q :=
  if Qeq_bool y 0 then raise ZeroDivisionError else ret (fdiv x y).

(** [itertools.accumulate(weights)]. *)
Fixpoint accumulate_from (total : Q) (ws : list Q) : list Q :=
  match ws with
  | [] => []
  | x :: ws' => fadd total x :: accumulate_from (fadd total x) ws'
  end.

Definition accumulate (ws : list Q) : list Q :=
  match ws with
  | [] => []
  | x :: ws' => x :: accumulate_from x ws'
  end.

(** [random.choices(population, weights=weights)[0]]. *)
Definition choices1 {A} (population : list A) (weights : list Q) : M A :=
  match population with
  | [] => raise IndexError
  | d :: _ =>
      let cum_weights := accumulate weights in
      let total := fadd (last cum_weights 0) 0 in
      x <- random ;;
      ret (nth (bisect cum_weights (fmul x total) (length population - 1)%nat)
               population d)
  end.

(** *** [generate_business_loans] *)

Definition base_profit_rate : Q := double 0.10.

Definition tier_profit_rate (credit_score : Z) : Q :=
  if (750 <=? credit_score)%Z then fsub base_profit_rate (double 0.02)
  else if (650 <=? credit_score)%Z then base_profit_rate
  else fadd base_profit_rate (double 0.03).

Definition resolve_status (loan_amount disbursement_date maturity_date : Z)
  : M (LoanStatus * Q) :=
  r <- random ;;
  if Qlt_le_dec r (double DEFAULT_RATE) then
    u <- uniform (double 0.3) (double 0.9) ;;
    ret (Defaulted, fmul (double (inject_Z loan_amount)) u)
  else if (maturity_date <? now)%Z then
    ret (PaidOff, 0)
  else
    let days_elapsed := (now - disbursement_date)%Z in
    let total_days := (maturity_date - disbursement_date)%Z in
    if (0 <? total_days)%Z then
      ratio <- py_div (inject_Z days_elapsed) (inject_Z total_days) ;;
      let progress := Qmin ratio 1 in
      ret (Active,
           fmul (double (inject_Z loan_amount))
                (fsub 1 (fmul progress (double 0.7))))
    else
      ret (Active, double (inject_Z loan_amount)).

(** The body of the loop of [generate_business_loans]. *)
Definition generate_business_loan (borrowers_df : list Borrower.row)
    (employee_ids : list Z) : M Loan.row :=
  borrower_row <- df_sample1 borrowers_df ;;
  let borrower_id := Borrower.borrower_id borrower_row in
  let credit_score := Borrower.credit_score borrower_row in
  loan_amount <- randint (fst (loan_amount_range credit_score))
                         (snd (loan_amount_range credit_score)) ;;
  disbursement_date <- date_between START_DATE END_DATE ;;
  loan_term_months <- choice [12; 24; 36; 48; 60]%Z ;;
  let maturity_date := (disbursement_date + loan_term_months * 30)%Z in
  jitter <- uniform (double (- 0.01)) (double 0.01) ;;
  let profit_rate := fadd (tier_profit_rate credit_score) jitter in
  '(loan_status, outstanding_balance) <-
    resolve_status loan_amount disbursement_date maturity_date ;;
  purpose <- choice loan_purposes ;;
  collateral <- choice collateral_types ;;
  approved_by <- choice employee_ids ;;
  ret {| Loan.borrower_id := borrower_id;
         Loan.loan_amount := loan_amount;
         Loan.disbursement_date := disbursement_date;
         Loan.maturity_date := maturity_date;
         Loan.profit_rate := float_round profit_rate 4;
         Loan.purpose := purpose;
         Loan.loan_status := loan_status;
         Loan.collateral_description := collateral;
         Loan.approved_by_employee_id := approved_by;
         Loan.outstanding_balance := float_round outstanding_balance 2 |}.

(** *** [generate_loan_payments] *)

Definition realized_payment (monthly_payment principal_portion profit_portion : Q)
    (payment_status_choice : PaymentStatus) : M (Q * Q * Q) :=
  match payment_status_choice with
  | Missed => ret (0, 0, 0)
  | Late =>
      u <- uniform (double 0.5) (double 0.9) ;;
      let actual_payment := fmul monthly_payment u in
      principal_share <- py_div principal_portion monthly_payment ;;
      profit_share <- py_div profit_portion monthly_payment ;;
      ret (actual_payment, fmul actual_payment principal_share,
           fmul actual_payment profit_share)
  | OnTime => ret (monthly_payment, principal_portion, profit_portion)
  end.

Fixpoint payment_loop (loan_id disbursement_date : Z) (profit_rate monthly_payment : Q)
    (num_payments : nat) (payment_nums : list Z) (remaining : Q)
    (all_payments : list Payment.row) : M (list Payment.row) :=
  match payment_nums with
  | [] => ret all_payments
  | payment_num :: rest =>
      let payment_date := (disbursement_date + 30 * (payment_num + 1))%Z in
      if (now <? payment_date)%Z then ret all_payments
      else
        let profit_portion := fmul remaining (fdiv profit_rate 12) in
        let principal_portion := fsub monthly_payment profit_portion in
        payment_status_choice <-
          choices1 [OnTime; Late; Missed] [double 0.95; double 0.03; double 0.02] ;;
        '(actual_payment, actual_principal, actual_profit) <-
          realized_payment monthly_payment principal_portion profit_portion
                           payment_status_choice ;;
        let remaining := py_max0 (fsub remaining actual_principal) in
        let all_payments := all_payments ++
          [ {| Payment.loan_id := loan_id;
               Payment.payment_date := payment_date;
               Payment.payment_amount := float_round actual_payment 2;
               Payment.principal_amount := float_round actual_principal 2;
               Payment.profit_amount := float_round actual_profit 2;
               Payment.remaining_balance := float_round remaining 2;
               Payment.payment_status := payment_status_choice |} ] in
        if (num_payments <=? length all_payments)%nat then ret all_payments
        else payment_loop loan_id disbursement_date profit_rate monthly_payment
                          num_payments rest remaining all_payments
  end.

Definition loan_months (loan : Loan.row) : Z :=
  Z.max 1 (py_int (fdiv (inject_Z (Loan.maturity_date loan - Loan.disbursement_date loan))
                        30)).

Definition draw_num_loan_payments (loan : Loan.row) : M Z :=
  let months := loan_months loan in
  match Loan.loan_status loan with
  | PaidOff => ret months
  | Defaulted =>
      randint (py_int (fmul (double (inject_Z months)) (double 0.3)))
              (py_int (fmul (double (inject_Z months)) (double 0.7)))
  | Active =>
      let months_elapsed :=
        py_int (fdiv (inject_Z (now - Loan.disbursement_date loan)) 30) in
      ret (Z.min months_elapsed months)
  end.

Definition loan_monthly_payment (loan : Loan.row) : M Q :=
  let loan_amount := double (inject_Z (Loan.loan_amount loan)) in
  let months := loan_months loan in
  let total_profit :=
    fmul (fmul loan_amount (Loan.profit_rate loan)) (fdiv (inject_Z months) 12) in
  let total_to_pay := fadd loan_amount total_profit in
  py_div total_to_pay (double (inject_Z months)).

Definition loan_payments (num_payments : nat) (loan_id : Z) (loan : Loan.row)
    (all_payments : list Payment.row) : M (list Payment.row) :=
  monthly_payment <- loan_monthly_payment loan ;;
  num_loan_payments <- draw_num_loan_payments loan ;;
  payment_loop loan_id (Loan.disbursement_date loan) (Loan.profit_rate loan)
               monthly_payment num_payments (py_range num_loan_payments)
               (double (inject_Z (Loan.loan_amount loan))) all_payments.

(** *** [generate_profit_distributions] *)

Fixpoint distribution_loop (purchase : PurchaseReturn.row) (employee_ids : list Z)
    (num_distributions : nat) (quarters : list Z)
    (distributions : list Distribution.row) : M (list Distribution.row) :=
  match quarters with
  | [] => ret distributions
  | quarter :: rest =>
      let period_start := (PurchaseReturn.purchase_date purchase + 90 * quarter)%Z in
      let period_end := (period_start + 90)%Z in
      let distribution_date := period_end in
      if (now <? distribution_date)%Z then ret distributions
      else
        u <- uniform (double 0.9) (double 1.1) ;;
        let quarterly_profit :=
          fmul (fdiv (fmul (double (inject_Z (PurchaseReturn.amount purchase)))
                           (PurchaseReturn.expected_return_rate purchase)) 4) u in
        processed_by <- choice employee_ids ;;
        let distributions := distributions ++
          [ {| Distribution.purchase_id := PurchaseReturn.purchase_id purchase;
               Distribution.distribution_date := distribution_date;
               Distribution.amount := float_round quarterly_profit 2;
               Distribution.period_start := period_start;
               Distribution.period_end := period_end;
               Distribution.processed_by_employee_id := processed_by |} ] in
        if (num_distributions <=? length distributions)%nat then ret distributions
        else distribution_loop purchase employee_ids num_distributions rest distributions
  end.

Definition quarters_since_purchase (purchase : PurchaseReturn.row) : Z :=
  py_int (fdiv (inject_Z (now - PurchaseReturn.purchase_date purchase)) 90).

Definition purchase_distributions (purchase : PurchaseReturn.row)
    (employee_ids : list Z) (num_distributions : nat)
    (distributions : list Distribution.row) : M (list Distribution.row) :=
  distribution_loop purchase employee_ids num_distributions
    (py_range (Z.min (quarters_since_purchase purchase) 8)) distributions.

End Generators.

(** *** Vocabulary of the statements about binary64 amounts *)

(** The largest value of [random.random()], and the largest value that
    [random.uniform(a, b)] computes from it. *)
Definition random_max : Q := inject_Z (2 ^ 53 - 1) / inject_Z (2 ^ 53).

Definition uniform_max (a b : Q) : Q := fadd a (fmul (fsub b a) random_max).

(** What [resolve_status] returns, case by case. *)
Definition resolved_raw (now loan_amount disbursement_date maturity_date : Z)
    (r : LoanStatus * Q) : Prop :=
  let L := double (inject_Z loan_amount) in
  match fst r with
  | Defaulted => exists u, double 0.3 <= u /\ u <= double 0.9 /\ snd r = fmul L u
  | PaidOff => (maturity_date < now)%Z /\ snd r = 0
  | Active =>
      (now <= maturity_date)%Z /\
      snd r = if (0 <? maturity_date - disbursement_date)%Z
              then fmul L (fsub 1 (fmul (Qmin (fdiv (inject_Z (now - disbursement_date))
                                                    (inject_Z (maturity_date
                                                               - disbursement_date))) 1)
                                        (double 0.7)))
              else L
  end.

(** The ranges of the draws of a generated loan; the stored rate is a
    float between the floats of 0.07 and 0.14. *)
Definition generated_loan (loan : Loan.row) : Prop :=
  (MIN_LOAN_AMOUNT <= Loan.loan_amount loan <= MAX_LOAN_AMOUNT)%Z /\
  (START_DATE <= Loan.disbursement_date loan <= END_DATE)%Z /\
  (exists term, In term [12; 24; 36; 48; 60]%Z /\
     Loan.maturity_date loan = (Loan.disbursement_date loan + term * 30)%Z) /\
  double 0.07 <= Loan.profit_rate loan /\ Loan.profit_rate loan <= double 0.14.

(** What [generate_business_loan] establishes for the row it returns. *)
Definition loan_post (now : Z) (borrowers_df : list Borrower.row)
    (employee_ids : list Z) (loan : Loan.row) : Prop :=
  generated_loan loan /\
  (exists b, In b borrowers_df /\
     Loan.borrower_id loan = Borrower.borrower_id b /\
     (fst (loan_amount_range (Borrower.credit_score b)) <= Loan.loan_amount loan
      <= snd (loan_amount_range (Borrower.credit_score b)))%Z) /\
  In (Loan.approved_by_employee_id loan) employee_ids /\
  exists balance,
    resolved_raw now (Loan.loan_amount loan) (Loan.disbursement_date loan)
                 (Loan.maturity_date loan) (Loan.loan_status loan, balance) /\
    Loan.outstanding_balance loan = float_round balance 2.


(** The installment of a loan, as a value. *)
Definition installment (loan : Loan.row) : Q :=
  let loan_amount := double (inject_Z (Loan.loan_amount loan)) in
  let months := loan_months loan in
  fdiv (fadd loan_amount
             (fmul (fmul loan_amount (Loan.profit_rate loan))
                   (fdiv (inject_Z months) 12)))
       (double (inject_Z months)).

(** The installment [monthly_payment] is a positive float that covers the
    profit portion of any balance up to [L]. *)
Definition installment_ok (L profit_rate monthly_payment : Q) : Prop :=
  is_float monthly_payment /\ 0 < monthly_payment /\
  0 <= fdiv profit_rate 12 /\
  fmul L (fdiv profit_rate 12) <= monthly_payment.

(** The principal realized by a payment of status [status] made at the
    running balance [remaining]. *)
Definition realized_rule (profit_rate monthly_payment remaining : Q)
    (status : PaymentStatus) (realized : Q) : Prop :=
  let principal_portion :=
    fsub monthly_payment (fmul remaining (fdiv profit_rate 12)) in
  match status with
  | Missed => realized = 0
  | OnTime => realized = principal_portion
  | Late => exists u, double 0.5 <= u /\ u <= double 0.9 /\
              realized = fmul (fmul monthly_payment u)
                              (fdiv principal_portion monthly_payment)
  end.

(** [balance_trace r mp remaining ps]: the payments [ps] continue a running
    balance that stands at [remaining]; each one lowers it by its realized
    principal, floored at zero, and stores the result rounded to 2
    decimals. *)
Inductive balance_trace (profit_rate monthly_payment : Q)
  : Q -> list Payment.row -> Prop :=
| trace_nil remaining :
    balance_trace profit_rate monthly_payment remaining []
| trace_cons remaining realized p ps :
    realized_rule profit_rate monthly_payment remaining
                  (Payment.payment_status p) realized ->
    0 <= py_max0 (fsub remaining realized) ->
    py_max0 (fsub remaining realized) <= remaining ->
    Payment.remaining_balance p = float_round (py_max0 (fsub remaining realized)) 2 ->
    balance_trace profit_rate monthly_payment (py_max0 (fsub remaining realized)) ps ->
    balance_trace profit_rate monthly_payment remaining (p :: ps).

(** The stored amounts of a payment against the installment
    [monthly_payment]. *)
Definition payment_amounts_ok (monthly_payment : Q) (p : Payment.row) : Prop :=
  0 <= Payment.payment_amount p /\
  Payment.payment_amount p <= float_round monthly_payment 2 /\
  0 <= Payment.principal_amount p /\
  0 <= Payment.profit_amount p /\
  match Payment.payment_status p with
  | OnTime => Payment.payment_amount p = float_round monthly_payment 2
  | Late =>
      float_round (fmul monthly_payment (double 0.5)) 2 <= Payment.payment_amount p /\
      Payment.payment_amount p <= float_round (fmul monthly_payment (double 0.9)) 2
  | Missed =>
      Payment.payment_amount p == 0 /\ Payment.principal_amount p == 0 /\
      Payment.profit_amount p == 0
  end.

(** The quarterly share of the expected annual return of a purchase. *)
Definition quarterly_share (purchase : PurchaseReturn.row) : Q :=
  fdiv (fmul (double (inject_Z (PurchaseReturn.amount purchase)))
             (PurchaseReturn.expected_return_rate purchase)) 4.

(** What the distribution loop establishes for each row it adds. *)
Definition distribution_post (now : Z) (purchase : PurchaseReturn.row)
    (employee_ids : list Z) (d : Distribution.row) : Prop :=
  Distribution.purchase_id d = PurchaseReturn.purchase_id purchase /\
  (Distribution.distribution_date d <= now)%Z /\
  In (Distribution.processed_by_employee_id d) employee_ids /\
  (0 <= quarterly_share purchase ->
   float_round (fmul (quarterly_share purchase) (double 0.9)) 2 <= Distribution.amount d /\
   Distribution.amount d <= float_round (fmul (quarterly_share purchase) (double 1.1)) 2).

End F64.

(** ** Vocabulary of the statements *)

(** What [resolve_status] returns, case by case. *)
Definition resolved_raw (now loan_amount disbursement_date maturity_date : Z)
    (r : LoanStatus * Q) : Prop :=
  let L := inject_Z loan_amount in
  match fst r with
  | Defaulted => exists u, 0.3 <= u /\ u <= 0.9 /\ snd r = L * u
  | PaidOff => (maturity_date < now)%Z /\ snd r = 0
  | Active =>
      (now <= maturity_date)%Z /\
      snd r = if (0 <? maturity_date - disbursement_date)%Z
              then L * (1 - Qmin (inject_Z (now - disbursement_date)
                                  / inject_Z (maturity_date - disbursement_date)) 1 * 0.7)
              else L
  end.

(** What every generated loan satisfies: the ranges of its draws. *)
Definition generated_loan (loan : Loan.row) : Prop :=
  (MIN_LOAN_AMOUNT <= Loan.loan_amount loan <= MAX_LOAN_AMOUNT)%Z /\
  (START_DATE <= Loan.disbursement_date loan <= END_DATE)%Z /\
  (exists term, In term [12; 24; 36; 48; 60]%Z /\
     Loan.maturity_date loan = (Loan.disbursement_date loan + term * 30)%Z) /\
  0.07 <= Loan.profit_rate loan /\ Loan.profit_rate loan <= 0.14.


(** What [generate_business_loan] establishes for the row it returns. *)
Definition loan_post (now : Z) (borrowers_df : list Borrower.row)
    (employee_ids : list Z) (loan : Loan.row) : Prop :=
  generated_loan loan /\
  (exists b, In b borrowers_df /\
     Loan.borrower_id loan = Borrower.borrower_id b /\
     (fst (loan_amount_range (Borrower.credit_score b)) <= Loan.loan_amount loan
      <= snd (loan_amount_range (Borrower.credit_score b)))%Z) /\
  In (Loan.approved_by_employee_id loan) employee_ids /\
  exists balance,
    resolved_raw now (Loan.loan_amount loan) (Loan.disbursement_date loan)
                 (Loan.maturity_date loan) (Loan.loan_status loan, balance) /\
    Loan.outstanding_balance loan = py_round balance 2.

(** The credit tier of a score: 2 from 750, 1 from 650 to 749, 0 below. *)
Definition credit_tier (credit_score : Z) : nat :=
  if (750 <=? credit_score)%Z then 2%nat
  else if (650 <=? credit_score)%Z then 1%nat
  else 0%nat.

(** The value a run returns, if it returns. *)
Definition value_of {S A} (r : result (A * S)) : option A :=
  match r with
  | Ok (a, _) => Some a
  | Raise _ => None
  end.

(** The installment [monthly_payment] covers the profit portion of any
    balance up to [L]. *)
Definition installment_ok (L profit_rate monthly_payment : Q) : Prop :=
  0 < monthly_payment /\ 0 <= profit_rate /\
  L * (profit_rate / 12) <= monthly_payment.

(** The principal realized by a payment of status [status] made at the
    running balance [remaining]. *)
Definition realized_rule (profit_rate monthly_payment remaining : Q)
    (status : PaymentStatus) (realized : Q) : Prop :=
  let principal_portion := monthly_payment - remaining * (profit_rate / 12) in
  match status with
  | Missed => realized == 0
  | OnTime => realized == principal_portion
  | Late => exists u, 0.5 <= u /\ u <= 0.9 /\ realized == u * principal_portion
  end.

(** [balance_trace r mp remaining ps]: the payments [ps] continue a running
    balance that stands at [remaining]; each one lowers it by its realized
    principal, floored at zero, and stores the rounded result. *)
Inductive balance_trace (profit_rate monthly_payment : Q)
  : Q -> list Payment.row -> Prop :=
| trace_nil remaining :
    balance_trace profit_rate monthly_payment remaining []
| trace_cons remaining realized p ps :
    realized_rule profit_rate monthly_payment remaining
                  (Payment.payment_status p) realized ->
    0 <= py_max0 (remaining - realized) ->
    py_max0 (remaining - realized) <= remaining ->
    Payment.remaining_balance p = py_round (py_max0 (remaining - realized)) 2 ->
    balance_trace profit_rate monthly_payment (py_max0 (remaining - realized)) ps ->
    balance_trace profit_rate monthly_payment remaining (p :: ps).


(** What [realized_payment] returns, case by case. *)
Definition realized_post (monthly_payment principal_portion profit_portion : Q)
    (status : PaymentStatus) (r : Q * Q * Q) : Prop :=
  let '(actual_payment, actual_principal, actual_profit) := r in
  match status with
  | Missed => actual_payment = 0 /\ actual_principal = 0 /\ actual_profit = 0
  | OnTime => actual_payment = monthly_payment /\
              actual_principal = principal_portion /\
              actual_profit = profit_portion
  | Late => exists u, 0.5 <= u /\ u <= 0.9 /\
              actual_payment = monthly_payment * u /\
              actual_principal
              = monthly_payment * u * (principal_portion / monthly_payment) /\
              actual_profit
              = monthly_payment * u * (profit_portion / monthly_payment)
  end.

(** The number of payments drawn for a loan, by status. *)
Definition num_payments_rule (now : Z) (loan : Loan.row) (n : Z) : Prop :=
  let months := loan_months loan in
  match Loan.loan_status loan with
  | PaidOff => n = months
  | Defaulted =>
      (py_int (inject_Z months * 0.3) <= n <= py_int (inject_Z months * 0.7))%Z
  | Active =>
      n = Z.min (py_int (inject_Z (now - Loan.disbursement_date loan) / 30)) months
  end.

(** The installment of a loan, as a value. *)
Definition installment (loan : Loan.row) : Q :=
  (inject_Z (Loan.loan_amount loan)
   + inject_Z (Loan.loan_amount loan) * Loan.profit_rate loan
     * (inject_Z (loan_months loan) / 12))
  / inject_Z (loan_months loan).

(** A loan row the payment generator can serve: a positive principal and a
    profit rate that is not negative. *)
Definition serviceable (loan : Loan.row) : Prop :=
  (0 < Loan.loan_amount loan)%Z /\ 0 <= Loan.profit_rate loan.

(** The period window of a distribution: start, end and payout date. *)
Definition window (d : Distribution.row) : Z * Z * Z :=
  (Distribution.period_start d, Distribution.period_end d,
   Distribution.distribution_date d).

(** The window of the quarter [quarter] of a purchase made on
    [purchase_date]. *)
Definition quarter_window (purchase_date quarter : Z) : Z * Z * Z :=
  ((purchase_date + 90 * quarter)%Z, (purchase_date + 90 * quarter + 90)%Z,
   (purchase_date + 90 * quarter + 90)%Z).

(** Each window starts where the previous one ends, and later. *)
Fixpoint contiguous_windows (ds : list Distribution.row) : Prop :=
  match ds with
  | d1 :: (d2 :: _) as rest =>
      Distribution.period_start d2 = Distribution.period_end d1 /\
      (Distribution.period_start d1 < Distribution.period_start d2)%Z /\
      contiguous_windows rest
  | _ => True
  end.




(** The stored amounts of a payment against the installment
    [monthly_payment]. *)
Definition payment_amounts_ok (monthly_payment : Q) (p : Payment.row) : Prop :=
  0 <= Payment.payment_amount p /\
  Payment.payment_amount p <= py_round monthly_payment 2 /\
  0 <= Payment.principal_amount p /\
  0 <= Payment.profit_amount p /\
  match Payment.payment_status p with
  | OnTime => Payment.payment_amount p = py_round monthly_payment 2
  | Late =>
      py_round (monthly_payment * 0.5) 2 <= Payment.payment_amount p /\
      Payment.payment_amount p <= py_round (monthly_payment * 0.9) 2
  | Missed =>
      Payment.payment_amount p == 0 /\ Payment.principal_amount p == 0 /\
      Payment.profit_amount p == 0
  end.

(** The date of the payment of index [payment_num]. *)
Definition due_date (disbursement_date payment_num : Z) : Z :=
  (disbursement_date + 30 * (payment_num + 1))%Z.


(** What [generate_sukuk_purchase] establishes for the row it returns. *)
Definition purchase_post (now : Z) (investor_ids : list Z)
    (sukuk_df : list Sukuk.row) (employee_ids : list Z) (p : Purchase.row) : Prop :=
  (exists s, In s sukuk_df /\
     Purchase.sukuk_id p = Sukuk.sukuk_id s /\
     (Sukuk.issue_date s <= Purchase.purchase_date p)%Z /\
     (Purchase.purchase_date p <= Sukuk.issue_date s + 365)%Z /\
     (py_int (Sukuk.minimum_investment s) <= Purchase.amount p
      <= py_int (Sukuk.minimum_investment s * 50))%Z) /\
  (Purchase.purchase_date p <= now)%Z /\
  In (Purchase.investor_id p) investor_ids /\
  In (Purchase.processed_by_employee_id p) employee_ids /\
  Purchase.units p = inject_Z (Purchase.amount p) / 1000.

(** The quarterly share of the expected annual return of a purchase. *)
Definition quarterly_share (purchase : PurchaseReturn.row) : Q :=
  inject_Z (PurchaseReturn.amount purchase)
  * PurchaseReturn.expected_return_rate purchase / 4.

(** What the distribution loop establishes for each row it adds. *)
Definition distribution_post (now : Z) (purchase : PurchaseReturn.row)
    (employee_ids : list Z) (d : Distribution.row) : Prop :=
  Distribution.purchase_id d = PurchaseReturn.purchase_id purchase /\
  (Distribution.distribution_date d <= now)%Z /\
  In (Distribution.processed_by_employee_id d) employee_ids /\
  (0 <= quarterly_share purchase ->
   py_round (quarterly_share purchase * 0.9) 2 <= Distribution.amount d /\
   Distribution.amount d <= py_round (quarterly_share purchase * 1.1) 2).

(** What [generate_sukuk_issuance] establishes for the row of index [i]. *)
Definition issuance_post (now issue_window_end : Z) (employee_ids : list Z)
    (i : Z) (r : Issuance.row) : Prop :=
  snd (Issuance.sukuk_name r) = (65 + i)%Z /\
  (START_DATE <= Issuance.issue_date r <= issue_window_end)%Z /\
  (exists years, In years [2; 3; 5; 7; 10]%Z /\
     Issuance.maturity_date r = (Issuance.issue_date r + years * 365)%Z /\
     py_round (0.04 + inject_Z years * 0.005) 4 <= Issuance.expected_return_rate r /\
     Issuance.expected_return_rate r <= py_round (0.06 + inject_Z years * 0.005) 4) /\
  (1000000 <= Issuance.total_amount r <= 10000000)%Z /\
  0.05 <= Issuance.expected_return_rate r /\
  Issuance.expected_return_rate r <= 0.11 /\
  In (Issuance.minimum_investment r) [1000; 5000; 10000]%Z /\
  (Issuance.status r = Issuance.Active <-> (now < Issuance.maturity_date r)%Z) /\
  In (Issuance.issued_by_employee_id r) employee_ids.

(** * Facts *)

(** ** Python numbers *)

Lemma round_half_even_mono x y : x <= y -> (round_half_even x <= round_half_even y)%Z.
Proof.
  intros Hxy. unfold round_half_even.
  pose proof (Qfloor_le x) as Hx1. pose proof (Qlt_floor x) as Hx2.
  pose proof (Qfloor_le y) as Hy1. pose proof (Qlt_floor y) as Hy2.
  pose proof (Qfloor_resp_le x y Hxy) as Hf.
  rewrite inject_Z_plus in Hx2, Hy2.
  destruct (Z.eq_dec (Qfloor x) (Qfloor y)) as [E | NE].
  - rewrite <- E in *.
    destruct (Qcompare_spec (x - inject_Z (Qfloor x)) (1 # 2));
    destruct (Qcompare_spec (y - inject_Z (Qfloor x)) (1 # 2));
    destruct (Z.even (Qfloor x)); try lia; exfalso; lra.
  - destruct (Qcompare (x - inject_Z (Qfloor x)) (1 # 2));
    destruct (Qcompare (y - inject_Z (Qfloor y)) (1 # 2));
    destruct (Z.even (Qfloor x)); destruct (Z.even (Qfloor y)); lia.
Qed.

Lemma round_half_even_comp x y : x == y -> round_half_even x = round_half_even y.
Proof.
  intros E. apply Z.le_antisymm; apply round_half_even_mono; rewrite E; apply Qle_refl.
Qed.

Lemma round_half_even_inject z : round_half_even (inject_Z z) = z.
Proof.
  unfold round_half_even. rewrite Qfloor_Z.
  destruct (Qcompare_spec (inject_Z z - inject_Z z) (1 # 2)) as [E | L | G].
  - exfalso. lra.
  - reflexivity.
  - exfalso. lra.
Qed.

Lemma py_round_mono n x y : x <= y -> py_round x n <= py_round y n.
Proof.
  intros Hxy. unfold py_round, Qle. cbn [Qnum Qden].
  apply Z.mul_le_mono_nonneg_r; [lia|].
  apply round_half_even_mono.
  apply Qmult_le_compat_r; [exact Hxy|]. unfold Qle; simpl; lia.
Qed.

Lemma py_round_inject n z : py_round (inject_Z z) n == inject_Z z.
Proof.
  unfold py_round.
  rewrite (@round_half_even_comp (inject_Z z * inject_Z (Z.pos (pow10 n))) (inject_Z (z * Z.pos (pow10 n)))).
  - rewrite round_half_even_inject. unfold Qeq. simpl. lia.
  - rewrite inject_Z_mult. reflexivity.
Qed.

Lemma py_round_nonneg n x : 0 <= x -> 0 <= py_round x n.
Proof.
  intros H. rewrite <- (py_round_inject n 0). apply py_round_mono. exact H.
Qed.

Lemma py_round_le_inject n x z : x <= inject_Z z -> py_round x n <= inject_Z z.
Proof.
  intros H. rewrite <- (py_round_inject n z). apply py_round_mono. exact H.
Qed.

Lemma py_int_div a b : py_int (inject_Z a / inject_Z (Zpos b)) = Z.quot a (Zpos b).
Proof.
  unfold py_int, Qdiv, Qinv, Qmult, inject_Z. cbn [Qnum Qden].
  rewrite Z.mul_1_r, Pos.mul_1_l. reflexivity.
Qed.

(** ** The monad and the random API *)

Section WPFacts.

Context {rng : Type} {RS : RandomSource rng}.
Local Abbreviation M := (M rng).
Implicit Types w : world rng.

Lemma wp_ret {A} (a : A) (P : A -> Prop) w : P a -> wp (ret a) P w.
Proof. intros H. exists a, w. split; [reflexivity | exact H]. Qed.

Lemma wp_bind {A B} (m : M A) (f : A -> M B) (P : B -> Prop) w :
  wp m (fun a => forall w1, wp (f a) P w1) w -> wp (bind m f) P w.
Proof.
  intros (a & w1 & E & H). destruct (H w1) as (b & w2 & E2 & Hb).
  exists b, w2. unfold bind. rewrite E. split; assumption.
Qed.

Lemma wp_mono {A} (m : M A) (P P' : A -> Prop) w :
  wp m P w -> (forall a, P a -> P' a) -> wp m P' w.
Proof. intros (a & w1 & E & H) HP. exists a, w1. split; auto. Qed.

Lemma wp_bind_with {A B} (m : M A) (f : A -> M B) (R : A -> Prop) (P : B -> Prop) w :
  wp m R w -> (forall a w1, R a -> wp (f a) P w1) -> wp (bind m f) P w.
Proof.
  intros Hm Hf. apply wp_bind. apply wp_mono with (P := R); auto.
Qed.

Lemma wp_on_py {A} (f : rng -> A * rng) (P : A -> Prop) w :
  (forall s, P (fst (f s))) -> wp (on_py f) P w.
Proof.
  intros H. unfold wp, on_py. specialize (H (py_random w)).
  destruct (f (py_random w)) as [a s]. eauto.
Qed.

Lemma wp_on_np {A} (f : rng -> A * rng) (P : A -> Prop) w :
  (forall s, P (fst (f s))) -> wp (on_np f) P w.
Proof.
  intros H. unfold wp, on_np. specialize (H (np_random w)).
  destruct (f (np_random w)) as [a s]. eauto.
Qed.

Lemma wp_on_faker {A} (f : rng -> A * rng) (P : A -> Prop) w :
  (forall s, P (fst (f s))) -> wp (on_faker f) P w.
Proof.
  intros H. unfold wp, on_faker. specialize (H (faker_random w)).
  destruct (f (faker_random w)) as [a s]. eauto.
Qed.

Lemma wp_random w : wp random (fun x => 0 <= x /\ x < 1) w.
Proof. apply wp_on_py. intros s. apply next_float_range. Qed.

Lemma wp_uniform a b w :
  a <= b -> wp (uniform a b) (fun x => a <= x /\ x <= b) w.
Proof.
  intros Hab. unfold uniform. eapply wp_bind_with; [apply wp_random|].
  intros x w1 [H0 H1]. apply wp_ret.
  assert (H2 : 0 <= (b - a) * x) by (apply Qmult_le_0_compat; lra).
  assert (H3 : 0 <= (b - a) * (1 - x)) by (apply Qmult_le_0_compat; lra).
  split; lra.
Qed.

Lemma wp_randint a b w :
  (a <= b)%Z -> wp (randint a b) (fun x => (a <= x <= b)%Z) w.
Proof.
  intros Hab. unfold randint.
  destruct (Z.ltb_spec b a) as [Hlt | _]; [lia|].
  eapply wp_bind_with.
  - apply wp_on_py with (P := fun x => (0 <= x < b - a + 1)%Z).
    intros s. apply randbelow_range. lia.
  - intros x w1 Hx. apply wp_ret. cbv beta in *. lia.
Qed.

Lemma wp_date_between a b w :
  (a <= b)%Z -> wp (date_between a b) (fun x => (a <= x <= b)%Z) w.
Proof.
  intros Hab. unfold date_between.
  destruct (Z.ltb_spec b a) as [Hlt | _]; [lia|].
  eapply wp_bind_with.
  - apply wp_on_faker with (P := fun x => (0 <= x < b - a + 1)%Z).
    intros s. apply randbelow_range. lia.
  - intros x w1 Hx. apply wp_ret. cbv beta in *. lia.
Qed.

Lemma wp_choice {A} (seq : list A) w :
  seq <> [] -> wp (choice seq) (fun x => In x seq) w.
Proof.
  intros Hne. unfold choice. destruct seq as [|d t] eqn:E; [congruence|].
  rewrite <- E. assert (Hlen : (0 < Z.of_nat (length seq))%Z) by (subst; simpl; lia).
  eapply wp_bind_with.
  - apply wp_on_py with (P := fun x => (0 <= x < Z.of_nat (length seq))%Z).
    intros s. apply randbelow_range. exact Hlen.
  - intros i w1 Hi. apply wp_ret. cbv beta in *. apply nth_In. lia.
Qed.

Lemma wp_choices1 {A} (population : list A) weights w :
  population <> [] -> wp (choices1 population weights) (fun x => In x population) w.
Proof.
  intros Hne. unfold choices1. destruct population as [|d t] eqn:E; [congruence|].
  rewrite <- E. eapply wp_bind_with; [apply wp_random|].
  intros x w1 _. apply wp_ret. apply nth_In.
  assert (Hb : forall cum y hi, (bisect cum y hi <= hi)%nat).
  { intros cum y hi. revert cum. induction hi as [|hi IH]; intros [|c cum]; simpl; try lia.
    destruct (Qlt_le_dec y c); [lia|]. specialize (IH cum). lia. }
  specialize (Hb (accumulate 0 weights) (x * last (accumulate 0 weights) 0) (length population - 1)%nat).
  subst population. simpl in *. lia.
Qed.

Lemma wp_df_sample1 {A} (rows : list A) w :
  rows <> [] -> wp (df_sample1 rows) (fun x => In x rows) w.
Proof.
  intros Hne. unfold df_sample1, df_sample.
  destruct rows as [|d t] eqn:E; [congruence|]. rewrite <- E.
  assert (Hlen : (0 < Z.of_nat (length rows))%Z) by (subst; simpl; lia).
  apply wp_bind. eapply wp_bind_with.
  - apply wp_on_np with (P := fun x => (0 <= x < Z.of_nat (length rows))%Z).
    intros s. apply randbelow_range. exact Hlen.
  - intros i w1 Hi. apply wp_bind. apply wp_ret. intros w2. apply wp_ret.
    intros w3. apply wp_ret. cbv beta in *. apply nth_In. lia.
Qed.

Lemma wp_py_div x y w :
  ~ y == 0 -> wp (py_div x y) (fun q => q = x / y) w.
Proof.
  intros Hy. unfold py_div. destruct (Qeq_bool y 0) eqn:E.
  - apply Qeq_bool_eq in E. contradiction.
  - apply wp_ret. reflexivity.
Qed.


End WPFacts.

(** ** The loan generator *)

Tactic Notation "wp_step" uconstr(lem) :=
  eapply wp_bind_with;
  [ apply lem; try assumption; try discriminate; try lia; try lra
  | cbv beta; intros ].

Lemma inject_Z_le_const (a b : Z) : (a <= b)%Z -> inject_Z a <= inject_Z b.
Proof. intros H. rewrite <- Zle_Qle. exact H. Qed.

Lemma loan_amount_range_bounds credit_score :
  (MIN_LOAN_AMOUNT <= fst (loan_amount_range credit_score)
   <= snd (loan_amount_range credit_score))%Z
  /\ (snd (loan_amount_range credit_score) <= MAX_LOAN_AMOUNT)%Z.
Proof.
  unfold loan_amount_range, MIN_LOAN_AMOUNT, MAX_LOAN_AMOUNT.
  destruct (750 <=? credit_score)%Z; [simpl; lia|].
  destruct (650 <=? credit_score)%Z; simpl; lia.
Qed.

Lemma tier_profit_rate_bounds credit_score :
  0.08 <= tier_profit_rate credit_score /\ tier_profit_rate credit_score <= 0.13.
Proof.
  unfold tier_profit_rate, base_profit_rate.
  destruct (750 <=? credit_score)%Z; [split; lra|].
  destruct (650 <=? credit_score)%Z; split; lra.
Qed.

Lemma ratio_nonneg (a b : Z) : (0 <= a)%Z -> (0 < b)%Z -> 0 <= inject_Z a / inject_Z b.
Proof.
  intros Ha Hb. unfold Qdiv. apply Qmult_le_0_compat.
  - change 0 with (inject_Z 0). apply inject_Z_le_const. exact Ha.
  - apply Qinv_le_0_compat. change 0 with (inject_Z 0). apply inject_Z_le_const. lia.
Qed.

Lemma inject_Z_nonzero (b : Z) : b <> 0%Z -> ~ inject_Z b == 0.
Proof.
  intros Hb E. apply Hb. unfold Qeq in E. simpl in E. lia.
Qed.

Section LoanFacts.

Context {rng : Type} {RS : RandomSource rng}.
Implicit Types w : world rng.
Variable now : Z.

Lemma wp_resolve_status loan_amount disbursement_date maturity_date w :
  wp (resolve_status now loan_amount disbursement_date maturity_date)
     (resolved_raw now loan_amount disbursement_date maturity_date) w.
Proof.
  unfold resolve_status. wp_step wp_random.
  destruct (Qlt_le_dec a DEFAULT_RATE) as [Hd | Hd].
  - wp_step wp_uniform. apply wp_ret. unfold resolved_raw; simpl.
    exists a0. tauto.
  - destruct (Z.ltb_spec maturity_date now) as [Hm | Hm].
    + apply wp_ret. unfold resolved_raw; simpl. split; [exact Hm | reflexivity].
    + destruct (Z.ltb_spec 0 (maturity_date - disbursement_date)) as [Ht | Ht].
      * wp_step wp_py_div.
        { apply inject_Z_nonzero. lia. }
        apply wp_ret. unfold resolved_raw; simpl. split; [exact Hm|].
        destruct (Z.ltb_spec 0 (maturity_date - disbursement_date)); [|lia].
        subst a0. reflexivity.
      * apply wp_ret. unfold resolved_raw; simpl. split; [exact Hm|].
        destruct (Z.ltb_spec 0 (maturity_date - disbursement_date)); [lia|].
        reflexivity.
Qed.

Lemma wp_generate_business_loan borrowers_df employee_ids w :
  borrowers_df <> [] -> employee_ids <> [] ->
  wp (generate_business_loan now borrowers_df employee_ids)
     (loan_post now borrowers_df employee_ids) w.
Proof.
  intros Hb He. unfold generate_business_loan.
  wp_step wp_df_sample1. rename a into borrower_row, H into Hrow.
  pose proof (loan_amount_range_bounds (Borrower.credit_score borrower_row)) as [Hr1 Hr2].
  wp_step wp_randint. rename a into loan_amount, H into Hamount.
  wp_step wp_date_between.
  rename a into disbursement_date, H into Hdate.
  wp_step wp_choice. rename a into term, H into Hterm.
  wp_step wp_uniform. rename a into jitter, H into Hjitter.
  wp_step (wp_resolve_status loan_amount disbursement_date (disbursement_date + term * 30)).
  destruct a as [status balance]. rename H into Hres.
  wp_step wp_choice.
  wp_step wp_choice.
  wp_step wp_choice. rename a1 into approver, H1 into Happ.
  apply wp_ret. unfold loan_post, generated_loan; cbn [Loan.borrower_id
    Loan.loan_amount Loan.disbursement_date Loan.maturity_date Loan.profit_rate
    Loan.loan_status Loan.approved_by_employee_id Loan.outstanding_balance].
  repeat split.
  - lia.
  - lia.
  - lia.
  - lia.
  - exists term. split; [exact Hterm | reflexivity].
  - pose proof (tier_profit_rate_bounds (Borrower.credit_score borrower_row)) as [Ht1 Ht2].
    apply Qle_trans with (py_round 0.07 4).
    + apply Qle_bool_imp_le. vm_compute. reflexivity.
    + apply py_round_mono. lra.
  - pose proof (tier_profit_rate_bounds (Borrower.credit_score borrower_row)) as [Ht1 Ht2].
    apply Qle_trans with (py_round 0.14 4).
    + apply py_round_mono. lra.
    + apply Qle_bool_imp_le. vm_compute. reflexivity.
  - exists borrower_row. repeat split; try assumption; try lia.
  - exact Happ.
  - exists balance. split; [exact Hres | reflexivity].
Qed.

End LoanFacts.

(** ** Principal tiers *)

(** C7, as amended. The principal of every generated loan lies in the range
    of the credit tier of its borrower; a higher tier has a strictly higher
    ceiling and a strictly higher floor; the three ranges are not disjoint:
    any two of them share the amount 100000. *)
Theorem principal_tiers :
  forall (rng : Type) (RS : RandomSource rng) (now : Z)
         (borrowers_df : list Borrower.row) (employee_ids : list Z) (w : world rng),
    borrowers_df <> [] -> employee_ids <> [] ->
    wp (generate_business_loan now borrowers_df employee_ids)
       (fun loan =>
          exists b, In b borrowers_df /\
            Loan.borrower_id loan = Borrower.borrower_id b /\
            (fst (loan_amount_range (Borrower.credit_score b))
             <= Loan.loan_amount loan
             <= snd (loan_amount_range (Borrower.credit_score b)))%Z) w
    /\ (forall cs,
          loan_amount_range cs
          = match credit_tier cs with
            | 2%nat => (100000, 500000)%Z
            | 1%nat => (50000, 250000)%Z
            | _ => (10000, 100000)%Z
            end)
    /\ (forall cs1 cs2, (credit_tier cs1 < credit_tier cs2)%nat ->
          (snd (loan_amount_range cs1) < snd (loan_amount_range cs2))%Z /\
          (fst (loan_amount_range cs1) < fst (loan_amount_range cs2))%Z)
    /\ (forall cs1 cs2,
          (fst (loan_amount_range cs1) <= 100000 <= snd (loan_amount_range cs1))%Z /\
          (fst (loan_amount_range cs2) <= 100000 <= snd (loan_amount_range cs2))%Z).
Proof.
  intros rng RS now borrowers_df employee_ids w Hb He.
  split; [|split; [|split]].
  - eapply wp_mono; [apply (wp_generate_business_loan now w Hb He)|].
    intros loan (_ & Hrange & _). exact Hrange.
  - intros cs. unfold loan_amount_range, credit_tier.
    destruct (750 <=? cs)%Z; [reflexivity|].
    destruct (650 <=? cs)%Z; reflexivity.
  - intros cs1 cs2. unfold loan_amount_range, credit_tier.
    destruct (750 <=? cs1)%Z; destruct (650 <=? cs1)%Z;
      destruct (750 <=? cs2)%Z; destruct (650 <=? cs2)%Z; simpl; lia.
  - intros cs1 cs2. unfold loan_amount_range.
    destruct (750 <=? cs1)%Z; destruct (650 <=? cs1)%Z;
      destruct (750 <=? cs2)%Z; destruct (650 <=? cs2)%Z; simpl; lia.
Qed.

Lemma principal_tiers_witness :
  [Borrower.Row 1 800; Borrower.Row 2 600] <> [] /\ [7%Z] <> [] /\
  (snd (loan_amount_range 600) < snd (loan_amount_range 800))%Z.
Proof.
  assert (H1 : [Borrower.Row 1 800; Borrower.Row 2 600] <> []) by discriminate.
  assert (H2 : [7%Z] <> []) by discriminate.
  split; [exact H1 | split; [exact H2|]].
  destruct (@principal_tiers (list Z) Tape 739923
              [Borrower.Row 1 800; Borrower.Row 2 600] [7%Z]
              (World [0; 0; 5000; 9000; 0; 0; 0]%Z [0%Z] [1765%Z]) H1 H2)
    as (_ & _ & Hceil & _).
  apply (Hceil 600%Z 800%Z). vm_compute. lia.
Defined.

(** C7 as stated fails: the ranges are not disjoint. A borrower of score
    800 and a borrower of score 600 both receive the principal 100000. *)
Lemma principal_ranges_overlap :
  option_map (fun loan => (Loan.borrower_id loan, Loan.loan_amount loan))
    (value_of (generate_business_loan (RS := Tape) 739923
                 [Borrower.Row 1 800; Borrower.Row 2 600] [7%Z]
                 (World [0; 0; 5000; 9000; 0; 0; 0]%Z [0%Z] [1765%Z])))
  = Some (1, 100000)%Z
  /\ option_map (fun loan => (Loan.borrower_id loan, Loan.loan_amount loan))
    (value_of (generate_business_loan (RS := Tape) 739923
                 [Borrower.Row 1 800; Borrower.Row 2 600] [7%Z]
                 (World [90000; 0; 5000; 9000; 0; 0; 0]%Z [1%Z] [1765%Z])))
  = Some (2, 100000)%Z
  /\ credit_tier 800 <> credit_tier 600.
Proof.
  split; [|split].
  - vm_compute. reflexivity.
  - vm_compute. reflexivity.
  - vm_compute. discriminate.
Qed.

(** ** Unit count of a purchase *)

Lemma py_int_nonneg x : 0 <= x -> py_int x = Qfloor x.
Proof.
  intros H. destruct x as [n d]. unfold py_int, Qfloor. cbn [Qnum Qden].
  apply Z.quot_div_nonneg; [|lia].
  unfold Qle in H. simpl in H. lia.
Qed.

Lemma py_int_mono x y : 0 <= x -> x <= y -> (py_int x <= py_int y)%Z.
Proof.
  intros H0 Hxy. rewrite !py_int_nonneg by lra. apply Qfloor_resp_le. exact Hxy.
Qed.

(** C9, as amended. The unit count of every generated purchase is the
    purchase amount divided by 1000, whatever the minimum subscription unit
    of the instrument; the amount lies between that minimum and 50 times
    it, so the unit count is the amount over the instrument's unit only
    for an instrument whose minimum is 1000. *)
Theorem purchase_units :
  forall (rng : Type) (RS : RandomSource rng) (now : Z)
         (investor_ids : list Z) (sukuk_df : list Sukuk.row)
         (employee_ids : list Z) (w : world rng),
    investor_ids <> [] -> sukuk_df <> [] -> employee_ids <> [] ->
    (forall s, In s sukuk_df ->
               (Sukuk.issue_date s <= now)%Z /\ 0 <= Sukuk.minimum_investment s) ->
    wp (generate_sukuk_purchase now investor_ids sukuk_df employee_ids)
       (fun p =>
          Purchase.units p = inject_Z (Purchase.amount p) / 1000 /\
          exists s, In s sukuk_df /\
            Purchase.sukuk_id p = Sukuk.sukuk_id s /\
            (py_int (Sukuk.minimum_investment s) <= Purchase.amount p
             <= py_int (Sukuk.minimum_investment s * 50))%Z /\
            (Sukuk.minimum_investment s == 1000 ->
             Purchase.units p
             == inject_Z (Purchase.amount p) / Sukuk.minimum_investment s)) w.
Proof.
  intros rng RS now investor_ids sukuk_df employee_ids w Hi Hs He Hrows.
  unfold generate_sukuk_purchase.
  wp_step wp_df_sample1. rename a into sukuk_row, H into Hrow.
  destruct (Hrows sukuk_row Hrow) as [Hissue Hmin].
  wp_step wp_date_between.
  wp_step wp_randint.
  { apply py_int_mono; [exact Hmin | lra]. }
  rename a0 into amount, H0 into Hamount.
  wp_step wp_choice. wp_step wp_choice.
  apply wp_ret. cbn [Purchase.units Purchase.amount Purchase.sukuk_id].
  split; [reflexivity|].
  exists sukuk_row. repeat split; try assumption; try lia.
  intros E. rewrite E. reflexivity.
Qed.

Lemma purchase_units_witness :
  wp (generate_sukuk_purchase (RS := Tape) 739923 [11%Z]
        [Sukuk.Row 1 738000 0.08 5000] [7%Z])
     (fun p => Purchase.units p = inject_Z (Purchase.amount p) / 1000)
     (World [0; 0; 0]%Z [0%Z] [30%Z]).
Proof.
  eapply wp_mono.
  - apply (@purchase_units (list Z) Tape 739923 [11%Z]
             [Sukuk.Row 1 738000 0.08 5000] [7%Z]
             (World [0; 0; 0]%Z [0%Z] [30%Z])); try discriminate.
    intros s [E | []]. subst s. simpl. split; [lia | lra].
  - intros p H. apply H.
Defined.

(** C9 as stated fails: for an instrument whose minimum subscription unit
    is 5000, a purchase of amount 5000 has the unit count 5, not 1. *)
Lemma units_ignore_minimum_investment :
  option_map (fun p => (Purchase.amount p, Qred (Purchase.units p)))
    (value_of (generate_sukuk_purchase (RS := Tape) 739923 [11%Z]
                 [Sukuk.Row 1 738000 0.08 5000] [7%Z]
                 (World [0; 0; 0]%Z [0%Z] [30%Z])))
  = Some (5000%Z, 5)
  /\ ~ 5 == inject_Z 5000 / 5000.
Proof.
  split.
  - vm_compute. reflexivity.
  - intros H. vm_compute in H. discriminate.
Qed.

(** ** The payment-history generator *)

Lemma In_py_range n x : In x (py_range n) -> (0 <= x < n)%Z.
Proof.
  unfold py_range. rewrite in_map_iff. intros (k & E & Hk).
  apply in_seq in Hk. lia.
Qed.

Lemma length_py_range n : length (py_range n) = Z.to_nat n.
Proof. unfold py_range. rewrite length_map, length_seq. reflexivity. Qed.

Lemma div12_nonneg r : 0 <= r -> 0 <= r / 12.
Proof.
  intros H. unfold Qdiv. apply Qmult_le_0_compat; [exact H|].
  apply Qinv_le_0_compat. lra.
Qed.

Lemma installment_of_loan (L r : Q) (months : Z) :
  0 < L -> 0 <= r -> (1 <= months)%Z ->
  installment_ok L r ((L + L * r * (inject_Z months / 12)) / inject_Z months).
Proof.
  intros HL Hr Hm.
  assert (HM : 1 <= inject_Z months).
  { change 1 with (inject_Z 1). apply inject_Z_le_const. exact Hm. }
  assert (E : (L + L * r * (inject_Z months / 12)) / inject_Z months
              == L / inject_Z months + L * (r / 12)).
  { field. lra. }
  assert (Hq : 0 < L / inject_Z months).
  { apply Qlt_shift_div_l; lra. }
  assert (Hp : 0 <= L * (r / 12)).
  { apply Qmult_le_0_compat; [lra | apply div12_nonneg; exact Hr]. }
  unfold installment_ok. rewrite E. repeat split; lra.
Qed.

Lemma py_max0_bounds remaining realized :
  0 <= remaining -> 0 <= realized ->
  0 <= py_max0 (remaining - realized) /\ py_max0 (remaining - realized) <= remaining.
Proof.
  intros H1 H2. unfold py_max0. split.
  - apply Q.le_max_l.
  - apply Q.max_lub; lra.
Qed.

Lemma principal_portion_nonneg L r mp remaining :
  installment_ok L r mp -> 0 <= remaining -> remaining <= L ->
  0 <= mp - remaining * (r / 12).
Proof.
  intros (Hmp & Hr & Hcover) H0 H1.
  assert (H : 0 <= (L - remaining) * (r / 12)).
  { apply Qmult_le_0_compat; [lra | apply div12_nonneg; exact Hr]. }
  lra.
Qed.

Section PaymentFacts.

Context {rng : Type} {RS : RandomSource rng}.
Implicit Types w : world rng.
Variable now : Z.

Lemma wp_realized_payment mp pp pf status w :
  ~ mp == 0 ->
  wp (realized_payment mp pp pf status) (realized_post mp pp pf status) w.
Proof.
  intros Hmp. unfold realized_payment. destruct status.
  - apply wp_ret. simpl. tauto.
  - wp_step wp_uniform. wp_step wp_py_div. wp_step wp_py_div.
    apply wp_ret. subst. simpl. exists a. tauto.
  - apply wp_ret. simpl. tauto.
Qed.

Lemma realized_rule_of_post L r mp remaining status a p f :
  installment_ok L r mp -> 0 <= remaining -> remaining <= L ->
  realized_post mp (mp - remaining * (r / 12)) (remaining * (r / 12)) status (a, p, f) ->
  realized_rule r mp remaining status p /\ 0 <= p.
Proof.
  intros Hok H0 H1 Hpost.
  pose proof (principal_portion_nonneg Hok H0 H1) as Hpp.
  destruct Hok as (Hmp & Hr & Hcover).
  unfold realized_rule. destruct status; simpl in Hpost.
  - destruct Hpost as (_ & -> & _). split; [reflexivity | exact Hpp].
  - destruct Hpost as (u & Hu1 & Hu2 & _ & -> & _).
    assert (E : mp * u * ((mp - remaining * (r / 12)) / mp)
                == u * (mp - remaining * (r / 12))) by (field; lra).
    split.
    + exists u. repeat split; assumption.
    + rewrite E. apply Qmult_le_0_compat; lra.
  - destruct Hpost as (_ & -> & _). split; [reflexivity | apply Qle_refl].
Qed.

Lemma wp_payment_loop loan_id d r mp num L payment_nums :
  installment_ok L r mp ->
  forall remaining all w,
    0 <= remaining -> remaining <= L ->
    wp (payment_loop now loan_id d r mp num payment_nums remaining all)
       (fun res =>
          exists new,
            res = all ++ new /\
            balance_trace r mp remaining new /\
            (length new <= length payment_nums)%nat /\
            ((forall pn, In pn payment_nums -> (d + 30 * (pn + 1) <= now)%Z) ->
             (length all + length payment_nums <= num)%nat ->
             length new = length payment_nums) /\
            Forall (fun p => Payment.loan_id p = loan_id) new) w.
Proof.
  intros Hok. induction payment_nums as [|pn rest IH]; intros remaining all w H0 H1.
  - simpl. apply wp_ret. exists []. rewrite app_nil_r.
    repeat split; auto. constructor.
  - cbn [payment_loop].
    destruct (Z.ltb_spec now (d + 30 * (pn + 1))) as [Hlate | Hdue].
    + apply wp_ret. exists []. rewrite app_nil_r.
      repeat split; auto.
      * constructor.
      * simpl; lia.
      * intros Hall _. specialize (Hall pn (or_introl eq_refl)). lia.
    + wp_step wp_choices1. rename a into status.
      wp_step wp_realized_payment.
      { destruct Hok as (Hmp & _). lra. }
      destruct a as [[actual_payment actual_principal] actual_profit].
      destruct (@realized_rule_of_post _ _ _ _ _ _ _ _ Hok H0 H1 H2) as [Hrule Hnn].
      destruct (py_max0_bounds H0 Hnn) as [Hb0 Hb1].
      set (row := {| Payment.loan_id := loan_id;
                     Payment.payment_date := (d + 30 * (pn + 1))%Z;
                     Payment.payment_amount := py_round actual_payment 2;
                     Payment.principal_amount := py_round actual_principal 2;
                     Payment.profit_amount := py_round actual_profit 2;
                     Payment.remaining_balance :=
                       py_round (py_max0 (remaining - actual_principal)) 2;
                     Payment.payment_status := status |}).
      assert (Hstep : forall ps,
                 balance_trace r mp (py_max0 (remaining - actual_principal)) ps ->
                 balance_trace r mp remaining (row :: ps)).
      { intros ps Hps. apply trace_cons with (realized := actual_principal); auto. }
      destruct (Nat.leb_spec num (length (all ++ [row]))) as [Hfull | Hroom].
      * apply wp_ret. exists [row]. repeat split.
        -- apply Hstep. constructor.
        -- simpl; lia.
        -- intros _ Hlen. rewrite length_app in Hfull. simpl in *. lia.
        -- constructor; [reflexivity | constructor].
      * eapply wp_mono.
        -- apply IH; [exact Hb0 | lra].
        -- intros res (new & Eres & Htrace & Hlen & Hexact & Hids).
           exists (row :: new). repeat split.
           ++ rewrite Eres, <- app_assoc. reflexivity.
           ++ apply Hstep. exact Htrace.
           ++ simpl; lia.
           ++ intros Hall Hquota. simpl. f_equal. apply Hexact.
              ** intros pn' Hin. apply Hall. right. exact Hin.
              ** rewrite length_app. simpl in *. lia.
           ++ constructor; [reflexivity | exact Hids].
Qed.

Lemma loan_months_pos loan : (1 <= loan_months loan)%Z.
Proof. unfold loan_months. lia. Qed.

Lemma wp_loan_monthly_payment loan w :
  wp (loan_monthly_payment loan) (fun mp => mp = installment loan) w.
Proof.
  unfold loan_monthly_payment. eapply wp_mono.
  - apply wp_py_div. apply inject_Z_nonzero. pose proof (loan_months_pos loan). lia.
  - intros mp E. exact E.
Qed.

Lemma wp_draw_num_loan_payments loan w :
  wp (draw_num_loan_payments now loan) (num_payments_rule now loan) w.
Proof.
  unfold draw_num_loan_payments, num_payments_rule.
  pose proof (loan_months_pos loan) as Hm.
  assert (HM : 1 <= inject_Z (loan_months loan)).
  { change 1 with (inject_Z 1). apply inject_Z_le_const. exact Hm. }
  destruct (Loan.loan_status loan).
  - apply wp_ret. reflexivity.
  - apply wp_ret. reflexivity.
  - apply wp_randint. apply py_int_mono; lra.
Qed.

Lemma wp_loan_payments num loan_id loan all w :
  serviceable loan ->
  wp (loan_payments now num loan_id loan all)
     (fun res =>
        exists new n,
          res = all ++ new /\
          num_payments_rule now loan n /\
          balance_trace (Loan.profit_rate loan) (installment loan)
                        (inject_Z (Loan.loan_amount loan)) new /\
          (length new <= Z.to_nat n)%nat /\
          ((Loan.disbursement_date loan + 30 * n <= now)%Z ->
           (length all + Z.to_nat n <= num)%nat ->
           length new = Z.to_nat n) /\
          Forall (fun p => Payment.loan_id p = loan_id) new) w.
Proof.
  intros [HL Hr]. unfold loan_payments.
  assert (HLq : 0 < inject_Z (Loan.loan_amount loan)).
  { change 0 with (inject_Z 0). rewrite <- Zlt_Qlt. exact HL. }
  wp_step wp_loan_monthly_payment. subst a.
  wp_step wp_draw_num_loan_payments. rename a into n, H into Hn.
  eapply wp_mono.
  - apply wp_payment_loop with (L := inject_Z (Loan.loan_amount loan)).
    + apply installment_of_loan; [exact HLq | exact Hr | apply loan_months_pos].
    + lra.
    + lra.
  - intros res (new & Eres & Htrace & Hlen & Hexact & Hids).
    rewrite length_py_range in Hlen, Hexact.
    exists new, n. repeat split; try assumption.
    intros Hdue Hquota. apply Hexact; [|exact Hquota].
    intros pn Hin. apply In_py_range in Hin. lia.
Qed.


End PaymentFacts.

(** ** The number of payments of a defaulted loan *)

Section RunFacts.

Context {rng : Type} {RS : RandomSource rng}.
Implicit Types w : world rng.

Lemma wp_bind_run {A B} (m : M rng A) (f : A -> M rng B) (P : B -> Prop) w a w1 :
  m w = Ok (a, w1) -> wp (f a) P w1 -> wp (bind m f) P w.
Proof.
  intros E (b & w2 & E2 & Hb). exists b, w2. unfold bind. rewrite E. split; assumption.
Qed.

Lemma randint_run a b w :
  (a <= b)%Z ->
  exists w1, randint a b w = Ok ((a + fst (randbelow (b - a + 1) (py_random w)))%Z, w1).
Proof.
  intros Hab. unfold randint.
  destruct (Z.ltb_spec b a) as [Hlt | _]; [lia|].
  unfold bind, on_py, ret.
  destruct (randbelow (b - a + 1) (py_random w)) as [x s]. cbn [fst].
  eexists. reflexivity.
Qed.

End RunFacts.

(** C3, as amended. For a Defaulted loan of 36 periods the number of
    payments to generate is the draw [n] of [randint] between
    int(36 x 0.3) = 10 and int(36 x 0.7) = 25 inclusive, 10 plus the draw
    of [_randbelow(16)]; the number of Payment records generated never
    exceeds [n], and equals [n] unless generation stops early, because a
    payment date would fall after [now] or because the global payment count
    is reached. *)
Theorem defaulted_payment_count :
  forall (rng : Type) (RS : RandomSource rng) (now : Z) (num_payments : nat)
         (loan_id : Z) (loan : Loan.row) (all_payments : list Payment.row)
         (w : world rng),
    (0 < Loan.loan_amount loan)%Z -> 0 <= Loan.profit_rate loan ->
    Loan.loan_status loan = Defaulted -> loan_months loan = 36%Z ->
    let n := (10 + fst (randbelow 16 (py_random w)))%Z in
    (10 <= n <= 25)%Z /\
    value_of (draw_num_loan_payments now loan w) = Some n /\
    wp (loan_payments now num_payments loan_id loan all_payments)
       (fun res =>
          exists new,
            res = all_payments ++ new /\
            (length new <= Z.to_nat n)%nat /\
            ((Loan.disbursement_date loan + 30 * n <= now)%Z ->
             (length all_payments + Z.to_nat n <= num_payments)%nat ->
             length new = Z.to_nat n)) w.
Proof.
  intros rng RS now num_payments loan_id loan all_payments w HL Hr Hst Hm n.
  assert (Hdraw : draw_num_loan_payments now loan = randint 10 25).
  { unfold draw_num_loan_payments. rewrite Hst, Hm. reflexivity. }
  destruct (@randint_run rng RS 10 25 w) as [w1 Hrun]; [lia|].
  change (25 - 10 + 1)%Z with 16%Z in Hrun. fold n in Hrun.
  assert (Hn : (10 <= n <= 25)%Z).
  { pose proof (@randbelow_range rng RS 16 (py_random w) eq_refl) as Hb. unfold n. lia. }
  split; [exact Hn|]. split.
  { rewrite Hdraw, Hrun. reflexivity. }
  assert (HLq : 0 < inject_Z (Loan.loan_amount loan)).
  { change 0 with (inject_Z 0). rewrite <- Zlt_Qlt. exact HL. }
  unfold loan_payments.
  assert (Hmp : loan_monthly_payment loan w = Ok (installment loan, w)).
  { unfold loan_monthly_payment, py_div.
    destruct (Qeq_bool (inject_Z (loan_months loan)) 0) eqn:E.
    - apply Qeq_bool_eq in E. rewrite Hm in E. discriminate E.
    - reflexivity. }
  eapply wp_bind_run; [exact Hmp|].
  rewrite Hdraw. eapply wp_bind_run; [exact Hrun|].
  eapply wp_mono.
  - apply wp_payment_loop with (L := inject_Z (Loan.loan_amount loan)).
    + apply installment_of_loan; [exact HLq | exact Hr | apply loan_months_pos].
    + lra.
    + lra.
  - intros res (new & Eres & _ & Hlen & Hexact & _).
    rewrite length_py_range in Hlen, Hexact.
    exists new. repeat split; try assumption.
    intros Hdue Hquota. apply Hexact; [|exact Hquota].
    intros pn Hin. apply In_py_range in Hin. lia.
Qed.

Lemma defaulted_payment_count_witness :
  wp (loan_payments (RS := Tape) 739923 2000 1
        (Loan.Row 1 100000 737425 738505 0.1 "Working Capital" Defaulted
                  "Inventory" 7 55000) [])
     (fun res => length res = 17%nat)
     (World [7]%Z [] []).
Proof.
  eapply wp_mono.
  - apply (@defaulted_payment_count (list Z) Tape 739923 2000%nat 1%Z
             (Loan.Row 1 100000 737425 738505 0.1 "Working Capital" Defaulted
                       "Inventory" 7 55000) [] (World [7]%Z [] [])).
    + simpl. lia.
    + simpl. lra.
    + reflexivity.
    + reflexivity.
  - intros res (new & E & Hle & Hexact). simpl in E. subst res.
    apply Hexact; vm_compute; try discriminate; lia.
Defined.

(** C3 as stated fails: a Defaulted loan of 36 periods disbursed on
    2020-01-01, none of whose 36 payment dates is after [now], receives 3
    Payment records when the global payment count is 3. *)
Lemma defaulted_loan_truncated_by_quota :
  let loan := Loan.Row 1 100000 737425 738505 0.1 "Working Capital" Defaulted
                       "Inventory" 7 55000 in
  loan_months loan = 36%Z
  /\ (Loan.disbursement_date loan + 30 * 36 <= 739923)%Z
  /\ option_map (@length Payment.row)
       (value_of (loan_payments (RS := Tape) 739923 3 1 loan [] (World [] [] [])))
     = Some 3%nat
  /\ ~ (10 <= 3 <= 26)%nat.
Proof.
  cbv zeta. split; [|split; [|split]].
  - reflexivity.
  - vm_compute. discriminate.
  - vm_compute. reflexivity.
  - lia.
Qed.

(** ** The distribution generator *)

Lemma firstn_seq_min k : forall a n, firstn k (seq a n) = seq a (Nat.min k n).
Proof.
  induction k as [|k IH]; intros a [|n]; simpl; try reflexivity.
  f_equal. apply IH.
Qed.

Lemma py_int_div90 (a : Z) : py_int (inject_Z a / 90) = Z.quot a 90.
Proof. change 90 with (inject_Z (Zpos 90)). apply py_int_div. Qed.

Lemma quarter_due now purchase quarter :
  (0 <= quarter < quarters_since_purchase now purchase)%Z ->
  (PurchaseReturn.purchase_date purchase + 90 * quarter + 90 <= now)%Z.
Proof.
  unfold quarters_since_purchase. rewrite py_int_div90. intros H.
  assert (Hq : (0 < Z.quot (now - PurchaseReturn.purchase_date purchase) 90)%Z) by lia.
  assert (Hpos : (0 <= now - PurchaseReturn.purchase_date purchase)%Z).
  { destruct (Z.le_gt_cases 0 (now - PurchaseReturn.purchase_date purchase)) as [Hle | Hgt];
      [exact Hle|].
    pose proof (Z.quot_opp_l (now - PurchaseReturn.purchase_date purchase) 90) as E.
    assert (Hn : (0 <= Z.quot (- (now - PurchaseReturn.purchase_date purchase)) 90)%Z)
      by (apply Z.quot_pos; lia).
    rewrite E in Hn by lia. lia. }
  rewrite Z.quot_div_nonneg in H by lia.
  pose proof (Z.mul_div_le (now - PurchaseReturn.purchase_date purchase) 90 eq_refl).
  lia.
Qed.

Lemma contiguous_of_windows purchase_date :
  forall k a ds,
    map window ds = map (quarter_window purchase_date) (map Z.of_nat (seq a k)) ->
    contiguous_windows ds /\
    Forall (fun d => Distribution.period_end d = (Distribution.period_start d + 90)%Z /\
                     Distribution.distribution_date d = Distribution.period_end d) ds /\
    match ds with
    | d :: _ => Distribution.period_start d = (purchase_date + 90 * Z.of_nat a)%Z
    | [] => True
    end.
Proof.
  induction k as [|k IH]; intros a ds E.
  - destruct ds; [|discriminate]. simpl. auto.
  - destruct ds as [|d ds]; [discriminate|].
    cbn [seq map] in E.
    assert (Ew : window d = quarter_window purchase_date (Z.of_nat a)) by congruence.
    assert (Erest : map window ds
                    = map (quarter_window purchase_date) (map Z.of_nat (seq (S a) k)))
      by congruence.
    unfold window, quarter_window in Ew.
    assert (Es : Distribution.period_start d = (purchase_date + 90 * Z.of_nat a)%Z)
      by congruence.
    assert (Ee : Distribution.period_end d = (purchase_date + 90 * Z.of_nat a + 90)%Z)
      by congruence.
    assert (Ed : Distribution.distribution_date d
                 = (purchase_date + 90 * Z.of_nat a + 90)%Z) by congruence.
    destruct (IH (S a) ds Erest) as (Hc & Hall & Hfirst).
    split; [|split].
    + destruct ds as [|d2 ds2]; [exact I|].
      change (Distribution.period_start d2 = Distribution.period_end d /\
              (Distribution.period_start d < Distribution.period_start d2)%Z /\
              contiguous_windows (d2 :: ds2)).
      rewrite Hfirst, Es, Ee. repeat split; [lia | lia | exact Hc].
    + constructor; [|exact Hall]. rewrite Es, Ee, Ed. split; reflexivity.
    + exact Es.
Qed.

Section DistributionFacts.

Context {rng : Type} {RS : RandomSource rng}.
Implicit Types w : world rng.
Variable now : Z.

Lemma wp_distribution_loop purchase employee_ids num quarters :
  employee_ids <> [] ->
  forall distributions w,
    wp (distribution_loop now purchase employee_ids num quarters distributions)
       (fun res =>
          exists new k,
            res = distributions ++ new /\
            length new = k /\ (k <= length quarters)%nat /\
            map window new
            = map (quarter_window (PurchaseReturn.purchase_date purchase))
                  (firstn k quarters) /\
            ((forall q, In q quarters ->
                 (PurchaseReturn.purchase_date purchase + 90 * q + 90 <= now)%Z) ->
             (length distributions + length quarters <= num)%nat ->
             k = length quarters) /\
            Forall (fun d => Distribution.purchase_id d
                             = PurchaseReturn.purchase_id purchase) new) w.
Proof.
  intros He. induction quarters as [|quarter rest IH]; intros distributions w.
  - simpl. apply wp_ret. exists [], 0%nat. rewrite app_nil_r.
    repeat split; auto.
  - cbn [distribution_loop].
    destruct (Z.ltb_spec now (PurchaseReturn.purchase_date purchase + 90 * quarter + 90))
      as [Hlate | Hdue].
    + apply wp_ret. exists [], 0%nat. rewrite app_nil_r.
      repeat split; auto.
      * simpl; lia.
      * intros Hall _. specialize (Hall quarter (or_introl eq_refl)). lia.
    + wp_step wp_uniform. wp_step wp_choice. rename a0 into processed_by.
      set (row := {| Distribution.purchase_id := PurchaseReturn.purchase_id purchase;
                     Distribution.distribution_date := _;
                     Distribution.amount := _;
                     Distribution.period_start := _;
                     Distribution.period_end := _;
                     Distribution.processed_by_employee_id := processed_by |}).
      destruct (Nat.leb_spec num (length (distributions ++ [row]))) as [Hfull | Hroom].
      * apply wp_ret. exists [row], 1%nat. repeat split.
        -- simpl; lia.
        -- intros _ Hlen. rewrite length_app in Hfull. simpl in *. lia.
        -- constructor; [reflexivity | constructor].
      * eapply wp_mono; [apply IH|].
        intros res (new & k & Eres & Hk & Hle & Hwin & Hexact & Hids).
        exists (row :: new), (S k). repeat split.
        -- rewrite Eres, <- app_assoc. reflexivity.
        -- simpl. rewrite Hk. reflexivity.
        -- simpl; lia.
        -- cbn [firstn map]. rewrite <- Hwin. reflexivity.
        -- intros Hall Hquota. simpl. f_equal. apply Hexact.
           ++ intros q Hin. apply Hall. right. exact Hin.
           ++ rewrite length_app. simpl in *. lia.
        -- constructor; [reflexivity | exact Hids].
Qed.

Lemma wp_purchase_distributions purchase employee_ids num distributions w :
  employee_ids <> [] ->
  wp (purchase_distributions now purchase employee_ids num distributions)
     (fun res =>
        exists new,
          res = distributions ++ new /\
          (length new <= Z.to_nat (Z.min (quarters_since_purchase now purchase) 8))%nat /\
          map window new
          = map (quarter_window (PurchaseReturn.purchase_date purchase))
                (map Z.of_nat (seq 0 (length new))) /\
          ((length distributions
            + Z.to_nat (Z.min (quarters_since_purchase now purchase) 8) <= num)%nat ->
           length new = Z.to_nat (Z.min (quarters_since_purchase now purchase) 8)) /\
          Forall (fun d => Distribution.purchase_id d
                           = PurchaseReturn.purchase_id purchase) new) w.
Proof.
  intros He. unfold purchase_distributions. eapply wp_mono.
  - apply wp_distribution_loop. exact He.
  - intros res (new & k & Eres & Hk & Hle & Hwin & Hexact & Hids).
    rewrite length_py_range in Hle, Hexact.
    exists new. repeat split; try assumption.
    + lia.
    + rewrite Hwin. unfold py_range. rewrite firstn_map, firstn_seq_min.
      rewrite Hk. rewrite Nat.min_l by lia. reflexivity.
    + intros Hquota. rewrite Hk. apply Hexact; [|exact Hquota].
      intros q Hin. apply In_py_range in Hin. apply quarter_due. lia.
Qed.

End DistributionFacts.

(** C4. The distributions generated for a purchase cover period windows
    that are each exactly 90 days long, each starting where the previous
    one ends and therefore ordered and non-overlapping, the first one
    starting at the purchase date; every distribution is dated at the end
    of its window. *)
Theorem distribution_windows :
  forall (rng : Type) (RS : RandomSource rng) (now : Z)
         (purchase : PurchaseReturn.row) (employee_ids : list Z)
         (num_distributions : nat) (distributions : list Distribution.row)
         (w : world rng),
    employee_ids <> [] ->
    wp (purchase_distributions now purchase employee_ids num_distributions distributions)
       (fun res =>
          exists new,
            res = distributions ++ new /\
            contiguous_windows new /\
            Forall (fun d => Distribution.period_end d
                             = (Distribution.period_start d + 90)%Z /\
                             Distribution.distribution_date d
                             = Distribution.period_end d) new /\
            match new with
            | d :: _ => Distribution.period_start d
                        = PurchaseReturn.purchase_date purchase
            | [] => True
            end /\
            Forall (fun d => Distribution.purchase_id d
                             = PurchaseReturn.purchase_id purchase) new) w.
Proof.
  intros rng RS now purchase employee_ids num_distributions distributions w He.
  eapply wp_mono.
  - apply wp_purchase_distributions. exact He.
  - intros res (new & Eres & _ & Hwin & _ & Hids).
    destruct (contiguous_of_windows _ _ _ _ Hwin) as (Hc & Hall & Hfirst).
    exists new. repeat split; try assumption.
    destruct new as [|d ds]; [exact I|]. rewrite Hfirst. simpl. lia.
Qed.

Lemma distribution_windows_witness :
  wp (purchase_distributions (RS := Tape) 739923
        (PurchaseReturn.Row 1 11 1 739700 5000 0.08) [7%Z] 800 [])
     (fun res => contiguous_windows res)
     (World [] [] []).
Proof.
  eapply wp_mono.
  - apply (@distribution_windows (list Z) Tape 739923
             (PurchaseReturn.Row 1 11 1 739700 5000 0.08) [7%Z] 800%nat []
             (World [] [] [])).
    discriminate.
  - intros res (new & E & H & _). simpl in E. subst res. exact H.
Defined.

(** ** The horizon cap *)

(** C5. A purchase whose elapsed quarters compute to 10 receives exactly 8
    Distribution records, provided the global distribution count leaves
    room for them. *)
Theorem horizon_cap :
  forall (rng : Type) (RS : RandomSource rng) (now : Z)
         (purchase : PurchaseReturn.row) (employee_ids : list Z)
         (num_distributions : nat) (distributions : list Distribution.row)
         (w : world rng),
    employee_ids <> [] ->
    quarters_since_purchase now purchase = 10%Z ->
    (length distributions + 8 <= num_distributions)%nat ->
    wp (purchase_distributions now purchase employee_ids num_distributions distributions)
       (fun res => exists new, res = distributions ++ new /\ length new = 8%nat) w.
Proof.
  intros rng RS now purchase employee_ids num_distributions distributions w He Hq Hroom.
  eapply wp_mono.
  - apply wp_purchase_distributions. exact He.
  - intros res (new & Eres & _ & _ & Hexact & _).
    rewrite Hq in Hexact. change (Z.to_nat (Z.min 10 8)) with 8%nat in Hexact.
    exists new. split; [exact Eres | apply Hexact; exact Hroom].
Qed.

Lemma horizon_cap_witness :
  wp (purchase_distributions (RS := Tape) 739923
        (PurchaseReturn.Row 1 11 1 739000 5000 0.08) [7%Z] 800 [])
     (fun res => length res = 8%nat)
     (World [] [] []).
Proof.
  eapply wp_mono.
  - apply (@horizon_cap (list Z) Tape 739923
             (PurchaseReturn.Row 1 11 1 739000 5000 0.08) [7%Z] 800%nat []
             (World [] [] [])).
    + discriminate.
    + vm_compute. reflexivity.
    + simpl. lia.
  - intros res (new & E & H). simpl in E. subst res. exact H.
Defined.

(** ** Denominators *)

Lemma generated_loan_serviceable loan : generated_loan loan -> serviceable loan.
Proof.
  intros (Hamt & _ & _ & Hr & _). unfold MIN_LOAN_AMOUNT in Hamt.
  split; [lia | lra].
Qed.

Lemma with_rowid_Forall {A} (P : A -> Prop) (rows : list A) :
  Forall P rows -> Forall (fun x => P (snd x)) (with_rowid rows).
Proof.
  intros H. apply Forall_forall. intros [i r] Hin.
  unfold with_rowid in Hin. apply in_combine_r in Hin.
  rewrite Forall_forall in H. apply H. exact Hin.
Qed.

Section PipelineFacts.

Context {rng : Type} {RS : RandomSource rng}.
Implicit Types w : world rng.
Variable now : Z.

Lemma wp_generate_business_loans_loop borrowers_df employee_ids num_loans :
  borrowers_df <> [] -> employee_ids <> [] ->
  forall loans w,
    Forall serviceable loans ->
    wp (generate_business_loans_loop now borrowers_df employee_ids num_loans loans)
       (Forall serviceable) w.
Proof.
  intros Hb He. induction num_loans as [|n IH]; intros loans w Hloans.
  - apply wp_ret. exact Hloans.
  - cbn [generate_business_loans_loop].
    wp_step (wp_generate_business_loan now). apply IH.
    apply Forall_app. split; [exact Hloans|].
    constructor; [|constructor].
    apply generated_loan_serviceable. apply H.
Qed.

Lemma wp_generate_loan_payments_loop num_payments loans_df :
  Forall (fun x => serviceable (snd x)) loans_df ->
  forall all_payments w,
    wp (generate_loan_payments_loop now num_payments loans_df all_payments)
       (fun _ => True) w.
Proof.
  induction 1 as [|[loan_id loan] rest Hloan Hrest IH]; intros all_payments w.
  - apply wp_ret. exact I.
  - cbn [generate_loan_payments_loop].
    wp_step wp_loan_payments.
    destruct (num_payments <=? length a)%nat; [apply wp_ret; exact I | apply IH].
Qed.

End PipelineFacts.

(** C8. No division of the loan and payment generators has a zero
    denominator: run one after the other on non-empty pools, the two
    generators return without raising, whatever the draws and the date. The
    installment divides by a period count floored at 1, so it is defined for
    every loan row, a zero-length term included; the ratio elapsed over
    total days is computed only for a positive number of total days, and
    otherwise the balance of an Active loan is the full principal. *)
Theorem no_zero_denominator :
  forall (rng : Type) (RS : RandomSource rng) (now : Z)
         (borrowers_df : list Borrower.row) (employee_ids : list Z)
         (num_loans num_payments : nat) (w : world rng),
    borrowers_df <> [] -> employee_ids <> [] ->
    wp (loans_df <- generate_business_loans now borrowers_df employee_ids num_loans ;;
        generate_loan_payments now loans_df num_payments)
       (fun _ => True) w
    /\ (forall (loan : Loan.row) (w0 : world rng),
          wp (loan_monthly_payment loan)
             (fun monthly_payment =>
                (1 <= loan_months loan)%Z /\ monthly_payment = installment loan) w0)
    /\ (forall loan_amount disbursement_date maturity_date (w0 : world rng),
          wp (resolve_status now loan_amount disbursement_date maturity_date)
             (fun res =>
                (maturity_date - disbursement_date <= 0)%Z ->
                fst res = Active -> snd res = inject_Z loan_amount) w0).
Proof.
  intros rng RS now borrowers_df employee_ids num_loans num_payments w Hb He.
  split; [|split].
  - unfold generate_business_loans, generate_loan_payments.
    eapply wp_bind_with.
    + apply (wp_generate_business_loans_loop now num_loans Hb He). constructor.
    + cbv beta. intros loans_df w1 Hloans.
      eapply wp_bind_with.
      * apply wp_generate_loan_payments_loop.
        apply with_rowid_Forall. exact Hloans.
      * cbv beta. intros. apply wp_ret. exact I.
  - intros loan w0. eapply wp_mono; [apply wp_loan_monthly_payment|].
    intros mp E. split; [apply loan_months_pos | exact E].
  - intros loan_amount disbursement_date maturity_date w0.
    eapply wp_mono; [apply wp_resolve_status|].
    intros [st bal] Hres Hdays Hst. unfold resolved_raw in Hres.
    cbn [fst snd] in *. subst st. destruct Hres as [_ Hbal].
    destruct (Z.ltb_spec 0 (maturity_date - disbursement_date)); [lia | exact Hbal].
Qed.

Lemma no_zero_denominator_witness :
  wp (loans_df <- generate_business_loans (RS := Tape) 739923
                    [Borrower.Row 1 800] [7%Z] 2 ;;
      generate_loan_payments 739923 loans_df 3)
     (fun _ => True)
     (World [0; 0; 5000; 9000; 0; 0; 0]%Z [0%Z] [1765%Z]).
Proof.
  apply (@no_zero_denominator (list Z) Tape 739923 [Borrower.Row 1 800] [7%Z]
           2%nat 3%nat (World [0; 0; 5000; 9000; 0; 0; 0]%Z [0%Z] [1765%Z]));
    discriminate.
Defined.

(** A loan row the generator cannot produce shows what [serviceable] is
    for: with a zero principal the installment is zero, and a Late payment
    divides by it. *)
Example late_payment_on_zero_principal :
  loan_payments (RS := Tape) 739923 3 1
    (Loan.Row 1 0 737425 738505 0.1 "Working Capital" Active "Inventory" 7 0) []
    (World [9600]%Z [] [])
  = Raise ZeroDivisionError.
Proof. vm_compute. reflexivity. Qed.

(** ** The split of a payment *)




(** ** Reproducibility *)


(** * Further properties of the generators *)

(** ** Payments: dates, amounts and the global count *)

Section PaymentRows.

Context {rng : Type} {RS : RandomSource rng}.
Implicit Types w : world rng.
Variable now : Z.

Lemma wp_conj {A} (m : M rng A) (P P' : A -> Prop) w :
  wp m P w -> wp m P' w -> wp m (fun a => P a /\ P' a) w.
Proof.
  intros (a & w1 & E & H) (a' & w1' & E' & H').
  rewrite E in E'. inversion E'. subst a' w1'.
  exists a, w1. auto.
Qed.

Lemma realized_amounts_ok L r mp remaining status a p f :
  installment_ok L r mp -> 0 <= remaining -> remaining <= L ->
  realized_post mp (mp - remaining * (r / 12)) (remaining * (r / 12)) status (a, p, f) ->
  0 <= a /\ a <= mp /\ 0 <= p /\ 0 <= f /\
  match status with
  | OnTime => a = mp
  | Late => mp * 0.5 <= a /\ a <= mp * 0.9
  | Missed => a = 0 /\ p = 0 /\ f = 0
  end.
Proof.
  intros Hok H0 H1 Hpost.
  pose proof (principal_portion_nonneg Hok H0 H1) as Hpp.
  destruct Hok as (Hmp & Hr & Hcover).
  assert (Hpf : 0 <= remaining * (r / 12)).
  { apply Qmult_le_0_compat; [exact H0 | apply div12_nonneg; exact Hr]. }
  destruct status; simpl in Hpost.
  - destruct Hpost as (-> & -> & ->). repeat split; try lra.
  - destruct Hpost as (u & Hu1 & Hu2 & -> & -> & ->).
    assert (E1 : mp * u * ((mp - remaining * (r / 12)) / mp)
                 == u * (mp - remaining * (r / 12))) by (field; lra).
    assert (E2 : mp * u * (remaining * (r / 12) / mp)
                 == u * (remaining * (r / 12))) by (field; lra).
    assert (Ha : 0 <= mp * (u - 0.5)) by (apply Qmult_le_0_compat; lra).
    assert (Hb : 0 <= mp * (0.9 - u)) by (apply Qmult_le_0_compat; lra).
    repeat split; try lra.
    + rewrite E1. apply Qmult_le_0_compat; lra.
    + rewrite E2. apply Qmult_le_0_compat; lra.
  - destruct Hpost as (-> & -> & ->). repeat split; try lra.
Qed.

Lemma wp_payment_loop_rows loan_id d r mp num L payment_nums :
  installment_ok L r mp ->
  forall remaining all w,
    0 <= remaining -> remaining <= L ->
    wp (payment_loop now loan_id d r mp num payment_nums remaining all)
       (fun res =>
          exists new,
            res = all ++ new /\
            map Payment.payment_date new
            = map (due_date d) (firstn (length new) payment_nums) /\
            Forall (fun p => (Payment.payment_date p <= now)%Z /\
                             payment_amounts_ok mp p) new /\
            ((length all < num)%nat -> (length res <= num)%nat)) w.
Proof.
  intros Hok. induction payment_nums as [|pn rest IH]; intros remaining all w H0 H1.
  - simpl. apply wp_ret. exists []. rewrite app_nil_r.
    repeat split; auto. lia.
  - cbn [payment_loop].
    destruct (Z.ltb_spec now (d + 30 * (pn + 1))) as [Hlate | Hdue].
    + apply wp_ret. exists []. rewrite app_nil_r. repeat split; auto. lia.
    + wp_step wp_choices1. rename a into status.
      wp_step wp_realized_payment.
      { destruct Hok as (Hmp & _). lra. }
      destruct a as [[actual_payment actual_principal] actual_profit].
      destruct (@realized_rule_of_post _ _ _ _ _ _ _ _ Hok H0 H1 H2) as [_ Hnn].
      destruct (@realized_amounts_ok _ _ _ _ _ _ _ _ Hok H0 H1 H2)
        as (Ha0 & Ha1 & Hp0 & Hf0 & Hst).
      destruct (py_max0_bounds H0 Hnn) as [Hb0 Hb1].
      set (row := {| Payment.loan_id := loan_id;
                     Payment.payment_date := (d + 30 * (pn + 1))%Z;
                     Payment.payment_amount := py_round actual_payment 2;
                     Payment.principal_amount := py_round actual_principal 2;
                     Payment.profit_amount := py_round actual_profit 2;
                     Payment.remaining_balance :=
                       py_round (py_max0 (remaining - actual_principal)) 2;
                     Payment.payment_status := status |}).
      assert (Hrow : (Payment.payment_date row <= now)%Z /\ payment_amounts_ok mp row).
      { split; [exact Hdue|]. unfold payment_amounts_ok. subst row.
        cbn [Payment.payment_amount Payment.principal_amount Payment.profit_amount
             Payment.payment_status].
        refine (conj _ (conj _ (conj _ (conj _ _)))).
        - apply py_round_nonneg. exact Ha0.
        - apply py_round_mono. exact Ha1.
        - apply py_round_nonneg. exact Hp0.
        - apply py_round_nonneg. exact Hf0.
        - destruct status.
          + rewrite Hst. reflexivity.
          + destruct Hst as [Hl Hh]. split; apply py_round_mono; assumption.
          + destruct Hst as (-> & -> & ->). repeat split; reflexivity. }
      destruct (Nat.leb_spec num (length (all ++ [row]))) as [Hfull | Hroom].
      * apply wp_ret. exists [row]. repeat split.
        -- constructor; [exact Hrow | constructor].
        -- intros Hlt. rewrite length_app. simpl. lia.
      * eapply wp_mono; [apply IH; [exact Hb0 | lra]|].
        intros res (new & Eres & Hdates & Hrows & Hcap).
        exists (row :: new). repeat split.
        -- rewrite Eres, <- app_assoc. reflexivity.
        -- cbn [length firstn map]. rewrite Hdates. reflexivity.
        -- constructor; [exact Hrow | exact Hrows].
        -- intros _. apply Hcap. exact Hroom.
Qed.

End PaymentRows.

Lemma firstn_py_range k n :
  (k <= Z.to_nat n)%nat -> firstn k (py_range n) = map Z.of_nat (seq 0 k).
Proof.
  intros H. unfold py_range. rewrite firstn_map, firstn_seq_min.
  rewrite Nat.min_l by exact H. reflexivity.
Qed.

Section LoanPaymentRows.

Context {rng : Type} {RS : RandomSource rng}.
Implicit Types w : world rng.
Variable now : Z.

Lemma wp_loan_payments_rows num loan_id loan all w :
  serviceable loan ->
  wp (loan_payments now num loan_id loan all)
     (fun res =>
        exists new,
          res = all ++ new /\
          map Payment.payment_date new
          = map (fun i => due_date (Loan.disbursement_date loan) (Z.of_nat i))
                (seq 0 (length new)) /\
          Forall (fun p => (Payment.payment_date p <= now)%Z /\
                           payment_amounts_ok (installment loan) p) new /\
          Forall (fun p => Payment.loan_id p = loan_id) new /\
          ((length all < num)%nat -> (length res <= num)%nat)) w.
Proof.
  intros [HL Hr]. unfold loan_payments.
  assert (HLq : 0 < inject_Z (Loan.loan_amount loan)).
  { change 0 with (inject_Z 0). rewrite <- Zlt_Qlt. exact HL. }
  wp_step wp_loan_monthly_payment. subst a.
  wp_step wp_draw_num_loan_payments. rename a into n.
  assert (Hok : installment_ok (inject_Z (Loan.loan_amount loan))
                  (Loan.profit_rate loan) (installment loan)).
  { apply installment_of_loan; [exact HLq | exact Hr | apply loan_months_pos]. }
  eapply wp_mono.
  - apply wp_conj.
    + apply (wp_payment_loop now loan_id (Loan.disbursement_date loan)
               num (py_range n) Hok) with (all := all); lra.
    + apply (wp_payment_loop_rows now loan_id (Loan.disbursement_date loan)
               num (py_range n) Hok) with (all := all); lra.
  - intros res [(new & Eres & _ & Hlen & _ & Hids) (new' & Eres' & Hdates & Hrows & Hcap)].
    rewrite Eres in Eres'. apply app_inv_head in Eres'. subst new'.
    rewrite length_py_range in Hlen.
    exists new. repeat split; try assumption.
    rewrite Hdates, firstn_py_range by exact Hlen.
    rewrite map_map. reflexivity.
Qed.

End LoanPaymentRows.

(** X1. The payments generated for a loan are dated 30, 60, 90, ... days
    after the disbursement date, in that order, and none is dated after
    [now]. *)
Theorem payment_schedule_dates :
  forall (rng : Type) (RS : RandomSource rng) (now : Z) (num_payments : nat)
         (loan_id : Z) (loan : Loan.row) (all_payments : list Payment.row)
         (w : world rng),
    (0 < Loan.loan_amount loan)%Z -> 0 <= Loan.profit_rate loan ->
    wp (loan_payments now num_payments loan_id loan all_payments)
       (fun res =>
          exists new,
            res = all_payments ++ new /\
            map Payment.payment_date new
            = map (fun i => (Loan.disbursement_date loan + 30 * (Z.of_nat i + 1))%Z)
                  (seq 0 (length new)) /\
            Forall (fun p => (Payment.payment_date p <= now)%Z) new) w.
Proof.
  intros rng RS now num_payments loan_id loan all_payments w HL Hr.
  eapply wp_mono.
  - apply wp_loan_payments_rows. split; [exact HL | exact Hr].
  - intros res (new & Eres & Hdates & Hrows & _).
    exists new. repeat split; try assumption.
    eapply Forall_impl; [|exact Hrows]. intros p [H _]. exact H.
Qed.

Lemma payment_schedule_dates_witness :
  wp (loan_payments (RS := Tape) 739923 3 1
        (Loan.Row 1 100000 737425 738505 0.1 "Working Capital" Defaulted
                  "Inventory" 7 55000) [])
     (fun res => Forall (fun p => (Payment.payment_date p <= 739923)%Z) res)
     (World [] [] []).
Proof.
  eapply wp_mono.
  - apply (@payment_schedule_dates (list Z) Tape 739923 3%nat 1%Z
             (Loan.Row 1 100000 737425 738505 0.1 "Working Capital" Defaulted
                       "Inventory" 7 55000) [] (World [] [] [])).
    + simpl. lia.
    + simpl. lra.
  - intros res (new & E & _ & H). simpl in E. subst res. exact H.
Defined.

(** ** Payments: the number of payments by status *)

Lemma quot_due (a c k : Z) :
  (0 < c)%Z -> (1 <= k <= Z.quot a c)%Z -> (c * k <= a)%Z.
Proof.
  intros Hc Hk.
  assert (Ha : (0 <= a)%Z).
  { destruct (Z.le_gt_cases 0 a) as [Hle | Hgt]; [exact Hle|].
    pose proof (Z.quot_opp_l a c) as E.
    assert (Hn : (0 <= Z.quot (- a) c)%Z) by (apply Z.quot_pos; lia).
    rewrite E in Hn by lia. lia. }
  rewrite Z.quot_div_nonneg in Hk by lia.
  pose proof (Z.mul_div_le a c Hc). nia.
Qed.

Lemma py_int_div30 (a : Z) : py_int (inject_Z a / 30) = Z.quot a 30.
Proof. change 30 with (inject_Z (Zpos 30)). apply py_int_div. Qed.

Lemma generated_loan_months loan :
  generated_loan loan ->
  In (loan_months loan) [12; 24; 36; 48; 60]%Z /\
  Loan.maturity_date loan = (Loan.disbursement_date loan + 30 * loan_months loan)%Z.
Proof.
  intros (_ & _ & (term & Hterm & Hmat) & _).
  assert (E : loan_months loan = term).
  { unfold loan_months. rewrite Hmat, py_int_div30.
    replace (Loan.disbursement_date loan + term * 30 - Loan.disbursement_date loan)%Z
      with (term * 30)%Z by lia.
    rewrite Z.quot_mul by lia. simpl in Hterm. lia. }
  rewrite E. split; [exact Hterm | lia].
Qed.

(** X3. A Paid Off loan of the loan generator, whose maturity date is
    before [now], receives exactly as many payments as its term has
    periods (12, 24, 36, 48 or 60), provided the global payment count leaves
    room for them: none of its payment dates is after [now]. *)
Theorem paid_off_full_schedule :
  forall (rng : Type) (RS : RandomSource rng) (now : Z) (num_payments : nat)
         (loan_id : Z) (loan : Loan.row) (all_payments : list Payment.row)
         (w : world rng),
    generated_loan loan ->
    Loan.loan_status loan = PaidOff ->
    (Loan.maturity_date loan < now)%Z ->
    (length all_payments + Z.to_nat (loan_months loan) <= num_payments)%nat ->
    wp (loan_payments now num_payments loan_id loan all_payments)
       (fun res =>
          exists new,
            res = all_payments ++ new /\
            length new = Z.to_nat (loan_months loan) /\
            In (loan_months loan) [12; 24; 36; 48; 60]%Z) w.
Proof.
  intros rng RS now num_payments loan_id loan all_payments w Hgen Hst Hmat Hroom.
  destruct (generated_loan_months Hgen) as [Hterm Hm].
  eapply wp_mono.
  - apply wp_loan_payments. apply generated_loan_serviceable. exact Hgen.
  - intros res (new & n & Eres & Hn & _ & _ & Hexact & _).
    unfold num_payments_rule in Hn. rewrite Hst in Hn. subst n.
    exists new. repeat split; try assumption.
    apply Hexact; [lia | exact Hroom].
Qed.

Lemma paid_off_full_schedule_witness :
  wp (loan_payments (RS := Tape) 739923 2000 1
        (Loan.Row 1 100000 737425 737785 0.1 "Working Capital" PaidOff
                  "Inventory" 7 0) [])
     (fun res => length res = 12%nat)
     (World [] [] []).
Proof.
  eapply wp_mono.
  - apply (@paid_off_full_schedule (list Z) Tape 739923 2000%nat 1%Z
             (Loan.Row 1 100000 737425 737785 0.1 "Working Capital" PaidOff
                       "Inventory" 7 0) [] (World [] [] [])).
    + unfold generated_loan, MIN_LOAN_AMOUNT, MAX_LOAN_AMOUNT, START_DATE, END_DATE.
      simpl. repeat split; try lia; try lra.
      exists 12%Z. split; [left; reflexivity | reflexivity].
    + reflexivity.
    + simpl. lia.
    + vm_compute. lia.
  - intros res (new & E & H & _). simpl in E. subst res. exact H.
Defined.

(** X4. An Active loan receives one payment per full 30-day period elapsed
    since its disbursement, at most its period count and none when the
    disbursement date is after [now], provided the global payment count
    leaves room: the date check never stops the loop of an Active loan. *)
Theorem active_payment_count :
  forall (rng : Type) (RS : RandomSource rng) (now : Z) (num_payments : nat)
         (loan_id : Z) (loan : Loan.row) (all_payments : list Payment.row)
         (w : world rng),
    (0 < Loan.loan_amount loan)%Z -> 0 <= Loan.profit_rate loan ->
    Loan.loan_status loan = Active ->
    (length all_payments
     + Z.to_nat (Z.min (Z.quot (now - Loan.disbursement_date loan) 30)
                       (loan_months loan)) <= num_payments)%nat ->
    wp (loan_payments now num_payments loan_id loan all_payments)
       (fun res =>
          exists new,
            res = all_payments ++ new /\
            length new
            = Z.to_nat (Z.min (Z.quot (now - Loan.disbursement_date loan) 30)
                              (loan_months loan))) w.
Proof.
  intros rng RS now num_payments loan_id loan all_payments w HL Hr Hst Hroom.
  eapply wp_mono.
  - apply wp_loan_payments. split; [exact HL | exact Hr].
  - intros res (new & n & Eres & Hn & _ & Hlen & Hexact & _).
    unfold num_payments_rule in Hn. rewrite Hst, py_int_div30 in Hn. subst n.
    exists new. split; [exact Eres|].
    set (n := Z.min (Z.quot (now - Loan.disbursement_date loan) 30) (loan_months loan)) in *.
    destruct (Z.le_gt_cases n 0) as [Hn0 | Hn1].
    + lia.
    + apply Hexact; [|exact Hroom].
      assert (H30 : (30 * n <= now - Loan.disbursement_date loan)%Z).
      { apply quot_due; lia. }
      lia.
Qed.

Lemma active_payment_count_witness :
  wp (loan_payments (RS := Tape) 737500 2000 1
        (Loan.Row 1 100000 737425 738505 0.1 "Working Capital" Active
                  "Inventory" 7 90000) [])
     (fun res => length res = 2%nat)
     (World [] [] []).
Proof.
  eapply wp_mono.
  - apply (@active_payment_count (list Z) Tape 737500 2000%nat 1%Z
             (Loan.Row 1 100000 737425 738505 0.1 "Working Capital" Active
                       "Inventory" 7 90000) [] (World [] [] [])).
    + simpl. lia.
    + simpl. lra.
    + reflexivity.
    + vm_compute. lia.
  - intros res (new & E & H). simpl in E. subst res. exact H.
Defined.

(** ** Payments: On Time payments amortize the principal *)

Lemma py_round_comp n x y : x == y -> py_round x n = py_round y n.
Proof.
  intros E. unfold py_round. f_equal. apply round_half_even_comp.
  rewrite E. reflexivity.
Qed.





(** ** Payments: the table *)

Lemma StronglySorted_app {A} (R : A -> A -> Prop) (l1 l2 : list A) :
  StronglySorted R (l1 ++ l2) <->
  StronglySorted R l1 /\ StronglySorted R l2 /\
  Forall (fun x => Forall (R x) l2) l1.
Proof.
  induction l1 as [|a l1 IH]; simpl.
  - split.
    + intros H. repeat split; [constructor | exact H | constructor].
    + intros (_ & H & _). exact H.
  - split.
    + intros H. apply StronglySorted_inv in H. destruct H as [Hs Hall].
      apply IH in Hs. destruct Hs as (H1 & H2 & H12).
      apply Forall_app in Hall. destruct Hall as [Ha1 Ha2].
      repeat split; try assumption; constructor; assumption.
    + intros (H1 & H2 & H12).
      apply StronglySorted_inv in H1. destruct H1 as [Hs Hall].
      inversion H12; subst. constructor.
      * apply IH. repeat split; assumption.
      * apply Forall_app. split; assumption.
Qed.

Lemma map_fst_with_rowid {A} (rows : list A) :
  map fst (with_rowid rows) = map Z.of_nat (seq 1 (length rows)).
Proof.
  unfold with_rowid.
  assert (H : forall (l : list Z) (r : list A),
             length l = length r -> map fst (combine l r) = l).
  { induction l as [|x l IH]; intros [|y r] E; simpl in *; try discriminate; auto.
    f_equal. apply IH. lia. }
  apply H. rewrite length_map, length_seq. reflexivity.
Qed.

Lemma rowids_sorted n : forall a,
  StronglySorted Z.le (map Z.of_nat (seq a n)).
Proof.
  induction n as [|n IH]; intros a; simpl; constructor.
  - apply IH.
  - apply Forall_forall. intros x Hx. apply in_map_iff in Hx.
    destruct Hx as (k & <- & Hk). apply in_seq in Hk. lia.
Qed.

Lemma Forall_firstn_of {A} (P : A -> Prop) n (l : list A) :
  Forall P l -> Forall P (firstn n l).
Proof.
  intros H. rewrite <- (firstn_skipn n l) in H.
  apply Forall_app in H. apply H.
Qed.

Lemma StronglySorted_firstn {A} (R : A -> A -> Prop) n (l : list A) :
  StronglySorted R l -> StronglySorted R (firstn n l).
Proof.
  intros H. rewrite <- (firstn_skipn n l) in H.
  apply StronglySorted_app in H. apply H.
Qed.

Section PaymentTable.

Context {rng : Type} {RS : RandomSource rng}.
Implicit Types w : world rng.
Variable now : Z.

Lemma wp_generate_loan_payments_loop_rows num loans_df :
  Forall (fun x => serviceable (snd x)) loans_df ->
  forall all w,
    StronglySorted Z.le (map Payment.loan_id all ++ map fst loans_df) ->
    wp (generate_loan_payments_loop now num loans_df all)
       (fun res =>
          exists new,
            res = all ++ new /\
            Forall (fun p => In (Payment.loan_id p) (map fst loans_df) /\
                             (Payment.payment_date p <= now)%Z) new /\
            StronglySorted Z.le (map Payment.loan_id res) /\
            ((length all < num)%nat -> (length res <= num)%nat)) w.
Proof.
  induction 1 as [|[loan_id loan] rest Hloan Hrest IH]; intros all w Hsorted.
  - apply wp_ret. exists []. rewrite app_nil_r in *.
    repeat split; auto; lia.
  - cbn [generate_loan_payments_loop].
    wp_step wp_loan_payments_rows.
    destruct H as (block & Eblock & _ & Hrows & Hids & Hcap).
    assert (Hsorted' : StronglySorted Z.le
                         (map Payment.loan_id a ++ map fst rest)).
    { subst a. rewrite map_app, <- app_assoc.
      cbn [map fst] in Hsorted.
      apply StronglySorted_app in Hsorted. destruct Hsorted as (Hs1 & Hs2 & H12).
      apply StronglySorted_inv in Hs2. destruct Hs2 as [Hsr Hlr].
      assert (Eb : Forall (fun x => x = loan_id) (map Payment.loan_id block)).
      { apply Forall_forall. intros x Hx. apply in_map_iff in Hx.
        destruct Hx as (p & <- & Hp). rewrite Forall_forall in Hids.
        apply Hids. exact Hp. }
      apply StronglySorted_app. repeat split.
      - exact Hs1.
      - apply StronglySorted_app. repeat split.
        + clear -Eb. induction Eb as [|x l Hx Hl IHl]; constructor; [exact IHl|].
          subst x. eapply Forall_impl; [|exact Hl]. intros y ->. lia.
        + exact Hsr.
        + eapply Forall_impl; [|exact Eb]. intros x ->. exact Hlr.
      - eapply Forall_impl; [|exact H12]. intros x Hx.
        inversion Hx as [|? ? Hxid Hxrest]; subst.
        apply Forall_app. split; [|exact Hxrest].
        eapply Forall_impl; [|exact Eb]. intros y ->. exact Hxid. }
    assert (Hblock : Forall (fun p => In (Payment.loan_id p) (map fst ((loan_id, loan) :: rest))
                                      /\ (Payment.payment_date p <= now)%Z) block).
    { apply Forall_forall. intros p Hp. rewrite Forall_forall in Hrows, Hids.
      split; [left; symmetry; apply Hids; exact Hp | apply Hrows; exact Hp]. }
    destruct (Nat.leb_spec num (length a)) as [Hfull | Hroom].
    + apply wp_ret. exists block. repeat split; try assumption.
      * apply StronglySorted_app in Hsorted'. apply Hsorted'.
    + eapply wp_mono; [apply IH; exact Hsorted'|].
      intros res (new & Eres & Hnew & Hs & Hcap').
      exists (block ++ new). repeat split.
      * rewrite Eres, Eblock, <- app_assoc. reflexivity.
      * apply Forall_app. split; [exact Hblock|].
        eapply Forall_impl; [|exact Hnew]. intros p [Hin Hd].
        split; [right; exact Hin | exact Hd].
      * exact Hs.
      * intros _. apply Hcap'. exact Hroom.
Qed.

End PaymentTable.

(** X6. The payment table holds at most [num_payments] rows; every row
    refers to a loan of the loans table (a key from 1 to the number of
    loans) and is dated on or before [now]; the rows come grouped by loan, in
    the order of the loan keys. For a positive [num_payments] the loops never
    collect more than [num_payments] rows, so the final slice drops
    nothing. *)
Theorem payments_table_integrity :
  forall (rng : Type) (RS : RandomSource rng) (now : Z)
         (business_loans : list Loan.row) (num_payments : nat) (w : world rng),
    Forall serviceable business_loans ->
    wp (generate_loan_payments now business_loans num_payments)
       (fun table =>
          (length table <= num_payments)%nat /\
          Forall (fun p => (1 <= Payment.loan_id p
                            <= Z.of_nat (length business_loans))%Z /\
                           (Payment.payment_date p <= now)%Z) table /\
          StronglySorted Z.le (map Payment.loan_id table)) w
    /\ wp (generate_loan_payments_loop now num_payments (with_rowid business_loans) [])
          (fun all_payments =>
             (1 <= num_payments)%nat -> firstn num_payments all_payments = all_payments) w.
Proof.
  intros rng RS now business_loans num_payments w Hloans.
  assert (Hloop : wp (generate_loan_payments_loop now num_payments
                        (with_rowid business_loans) [])
            (fun res =>
               exists new,
                 res = [] ++ new /\
                 Forall (fun p => In (Payment.loan_id p)
                                     (map fst (with_rowid business_loans)) /\
                                  (Payment.payment_date p <= now)%Z) new /\
                 StronglySorted Z.le (map Payment.loan_id res) /\
                 ((length (@nil Payment.row) < num_payments)%nat ->
                  (length res <= num_payments)%nat)) w).
  { apply wp_generate_loan_payments_loop_rows.
    - apply with_rowid_Forall. exact Hloans.
    - simpl. rewrite map_fst_with_rowid. apply rowids_sorted. }
  split.
  - unfold generate_loan_payments. eapply wp_bind_with; [exact Hloop|].
    cbv beta. intros all w1 (new & Eres & Hnew & Hs & _). simpl in Eres. subst new.
    apply wp_ret. repeat split.
    + apply firstn_le_length.
    + apply Forall_firstn_of. eapply Forall_impl; [|exact Hnew].
      intros p [Hin Hd]. split; [|exact Hd].
      rewrite map_fst_with_rowid in Hin. apply in_map_iff in Hin.
      destruct Hin as (k & <- & Hk). apply in_seq in Hk. lia.
    + rewrite <- firstn_map. apply StronglySorted_firstn. exact Hs.
  - eapply wp_mono; [exact Hloop|].
    intros all (new & _ & _ & _ & Hcap) Hpos.
    apply firstn_all2. apply Hcap. simpl. lia.
Qed.

Lemma payments_table_integrity_witness :
  wp (generate_loan_payments (RS := Tape) 739923
        [Loan.Row 1 100000 737425 738505 0.1 "Working Capital" Defaulted
                  "Inventory" 7 55000] 3)
     (fun table => (length table <= 3)%nat)
     (World [] [] []).
Proof.
  assert (H : Forall serviceable
                [Loan.Row 1 100000 737425 738505 0.1 "Working Capital" Defaulted
                          "Inventory" 7 55000]).
  { constructor; [|constructor]. split; simpl; [lia | lra]. }
  eapply wp_mono.
  - apply (proj1 (@payments_table_integrity (list Z) Tape 739923
                    [Loan.Row 1 100000 737425 738505 0.1 "Working Capital" Defaulted
                              "Inventory" 7 55000] 3%nat (World [] [] []) H)).
  - intros table Ht. apply Ht.
Defined.

(** ** The loan table *)

Section LoanTable.

Context {rng : Type} {RS : RandomSource rng}.
Implicit Types w : world rng.
Variable now : Z.

Lemma wp_raise_after {A B} (m : M rng A) (f : A -> M rng B) (e : exn) w :
  wp m (fun a => forall w1, f a w1 = Raise e) w -> bind m f w = Raise e.
Proof.
  intros (a & w1 & E & H). unfold bind. rewrite E. apply H.
Qed.


Lemma wp_generate_business_loans_loop_rows borrowers_df employee_ids num_loans :
  borrowers_df <> [] -> employee_ids <> [] ->
  forall loans w,
    wp (generate_business_loans_loop now borrowers_df employee_ids num_loans loans)
       (fun res =>
          exists new,
            res = loans ++ new /\ length new = num_loans /\
            Forall (loan_post now borrowers_df employee_ids) new) w.
Proof.
  intros Hb He. induction num_loans as [|n IH]; intros loans w.
  - apply wp_ret. exists []. rewrite app_nil_r. repeat split. constructor.
  - cbn [generate_business_loans_loop].
    wp_step (wp_generate_business_loan now).
    eapply wp_mono; [apply IH|].
    intros res (new & Eres & Hlen & Hall).
    exists (a :: new). repeat split.
    + rewrite Eres, <- app_assoc. reflexivity.
    + simpl. rewrite Hlen. reflexivity.
    + constructor; assumption.
Qed.

End LoanTable.

(** X7. With non-empty pools the loan generator returns exactly
    [num_loans] rows; every row has a principal between 10000 and 500000
    inside the range of its borrower's tier, a disbursement date in the
    window from START_DATE to END_DATE, a maturity date 30 days times a term
    of 12, 24, 36, 48 or 60 after it, a borrower of the borrower pool and an
    approver of the employee pool. *)
Theorem loans_table_rows :
  forall (rng : Type) (RS : RandomSource rng) (now : Z)
         (borrowers_df : list Borrower.row) (employee_ids : list Z)
         (num_loans : nat) (w : world rng),
    borrowers_df <> [] -> employee_ids <> [] ->
    wp (generate_business_loans now borrowers_df employee_ids num_loans)
       (fun loans =>
          length loans = num_loans /\
          Forall (fun loan =>
                    (10000 <= Loan.loan_amount loan <= 500000)%Z /\
                    (START_DATE <= Loan.disbursement_date loan <= END_DATE)%Z /\
                    (exists term, In term [12; 24; 36; 48; 60]%Z /\
                       Loan.maturity_date loan
                       = (Loan.disbursement_date loan + term * 30)%Z) /\
                    (exists b, In b borrowers_df /\
                       Loan.borrower_id loan = Borrower.borrower_id b /\
                       (fst (loan_amount_range (Borrower.credit_score b))
                        <= Loan.loan_amount loan
                        <= snd (loan_amount_range (Borrower.credit_score b)))%Z) /\
                    In (Loan.approved_by_employee_id loan) employee_ids) loans) w.
Proof.
  intros rng RS now borrowers_df employee_ids num_loans w Hb He.
  unfold generate_business_loans. eapply wp_mono.
  - apply (wp_generate_business_loans_loop_rows now num_loans Hb He).
  - intros res (new & Eres & Hlen & Hall). simpl in Eres. subst new.
    split; [exact Hlen|].
    eapply Forall_impl; [|exact Hall].
    intros loan ((Hamt & Hdate & Hterm & _) & Hbor & Happ & _).
    unfold MIN_LOAN_AMOUNT, MAX_LOAN_AMOUNT in Hamt.
    repeat split; try assumption; lia.
Qed.

Lemma loans_table_rows_witness :
  wp (generate_business_loans (RS := Tape) 739923 [Borrower.Row 1 800] [7%Z] 2)
     (fun loans => length loans = 2%nat)
     (World [0; 0; 5000; 9000; 0; 0; 0]%Z [0%Z] [1765%Z]).
Proof.
  eapply wp_mono.
  - apply (@loans_table_rows (list Z) Tape 739923 [Borrower.Row 1 800] [7%Z] 2%nat
             (World [0; 0; 5000; 9000; 0; 0; 0]%Z [0%Z] [1765%Z]));
      discriminate.
  - intros loans H. apply H.
Defined.



(** ** Empty pools *)

Tactic Notation "raise_step" uconstr(lem) :=
  apply wp_raise_after; eapply wp_mono;
  [ apply lem; try assumption; try discriminate; try lia; try lra
  | cbv beta; intros ].

Lemma generate_business_loan_no_approver :
  forall (rng : Type) (RS : RandomSource rng) (now : Z)
         (borrowers_df : list Borrower.row) (w : world rng),
    borrowers_df <> [] ->
    generate_business_loan now borrowers_df [] w = Raise IndexError.
Proof.
  intros rng RS now borrowers_df w Hb. unfold generate_business_loan.
  raise_step wp_df_sample1.
  pose proof (loan_amount_range_bounds (Borrower.credit_score a)) as [Hr1 Hr2].
  raise_step wp_randint.
  raise_step wp_date_between.
  raise_step wp_choice.
  raise_step wp_uniform.
  raise_step (wp_resolve_status now a0 a1 (a1 + a2 * 30)).
  destruct a4 as [status balance].
  raise_step wp_choice.
  raise_step wp_choice.
  reflexivity.
Qed.

(** X9. The loan generator fails fast on an empty pool: asked for at
    least one loan, it raises [IndexError] when no employee can approve
    (after the draws of the first loan) and [ValueError] when there is no
    borrower to sample; asked for no loan, it returns the empty table
    without drawing. *)
Theorem loan_generator_empty_pools :
  forall (rng : Type) (RS : RandomSource rng) (now : Z)
         (borrowers_df : list Borrower.row) (employee_ids : list Z)
         (n : nat) (w : world rng),
    borrowers_df <> [] ->
    generate_business_loans now borrowers_df [] (S n) w = Raise IndexError
    /\ generate_business_loans now [] employee_ids (S n) w = Raise ValueError
    /\ generate_business_loans now borrowers_df employee_ids 0 w = Ok ([], w).
Proof.
  intros rng RS now borrowers_df employee_ids n w Hb. split; [|split].
  - unfold generate_business_loans. cbn [generate_business_loans_loop].
    unfold bind at 1. rewrite generate_business_loan_no_approver by exact Hb.
    reflexivity.
  - reflexivity.
  - reflexivity.
Qed.

Lemma loan_generator_empty_pools_witness :
  generate_business_loans (RS := Tape) 739923 [Borrower.Row 1 800] [] 1
    (World [0; 0; 5000; 9000; 0; 0; 0]%Z [0%Z] [1765%Z])
  = Raise IndexError.
Proof.
  assert (H : [Borrower.Row 1 800] <> []) by discriminate.
  apply (proj1 (@loan_generator_empty_pools (list Z) Tape 739923
                  [Borrower.Row 1 800] [7%Z] 0%nat
                  (World [0; 0; 5000; 9000; 0; 0; 0]%Z [0%Z] [1765%Z]) H)).
Defined.

(** ** The purchase table and the investors' totals *)

Section PurchaseTable.

Context {rng : Type} {RS : RandomSource rng}.
Implicit Types w : world rng.
Variable now : Z.

Lemma wp_generate_sukuk_purchase investor_ids sukuk_df employee_ids w :
  investor_ids <> [] -> sukuk_df <> [] -> employee_ids <> [] ->
  (forall s, In s sukuk_df ->
             (Sukuk.issue_date s <= now)%Z /\ 0 <= Sukuk.minimum_investment s) ->
  wp (generate_sukuk_purchase now investor_ids sukuk_df employee_ids)
     (purchase_post now investor_ids sukuk_df employee_ids) w.
Proof.
  intros Hi Hs He Hrows. unfold generate_sukuk_purchase.
  wp_step wp_df_sample1. rename a into sukuk_row, H into Hrow.
  destruct (Hrows sukuk_row Hrow) as [Hissue Hmin].
  wp_step wp_date_between. rename a into purchase_date, H into Hdate.
  wp_step wp_randint.
  { apply py_int_mono; [exact Hmin | lra]. }
  rename a into amount, H into Hamount.
  wp_step wp_choice. rename a into investor, H into Hinv.
  wp_step wp_choice. rename a into processed_by, H into Hproc.
  apply wp_ret. unfold purchase_post.
  cbn [Purchase.sukuk_id Purchase.purchase_date Purchase.amount Purchase.units
       Purchase.investor_id Purchase.processed_by_employee_id].
  repeat split; try assumption; try lia.
  exists sukuk_row. repeat split; try assumption; lia.
Qed.

Lemma wp_generate_sukuk_purchases_loop investor_ids sukuk_df employee_ids n :
  investor_ids <> [] -> sukuk_df <> [] -> employee_ids <> [] ->
  (forall s, In s sukuk_df ->
             (Sukuk.issue_date s <= now)%Z /\ 0 <= Sukuk.minimum_investment s) ->
  forall purchases w,
    wp (generate_sukuk_purchases_loop now investor_ids sukuk_df employee_ids n purchases)
       (fun res =>
          exists new,
            res = purchases ++ new /\ length new = n /\
            Forall (purchase_post now investor_ids sukuk_df employee_ids) new) w.
Proof.
  intros Hi Hs He Hrows. induction n as [|n IH]; intros purchases w.
  - apply wp_ret. exists []. rewrite app_nil_r. repeat split. constructor.
  - cbn [generate_sukuk_purchases_loop].
    wp_step wp_generate_sukuk_purchase.
    eapply wp_mono; [apply IH|].
    intros res (new & Eres & Hlen & Hall).
    exists (a :: new). repeat split.
    + rewrite Eres, <- app_assoc. reflexivity.
    + simpl. rewrite Hlen. reflexivity.
    + constructor; assumption.
Qed.

End PurchaseTable.

(** X10. With non-empty pools and instruments issued on or before [now],
    the purchase generator returns exactly [num_purchases] rows; every
    purchase names an instrument of the instruments table, is dated from the
    issue date of that instrument to 365 days later and never after [now],
    has an amount between the instrument's minimum investment and 50 times
    it, an investor of the investor pool and a processing employee of the
    employee pool. *)
Theorem purchases_table_rows :
  forall (rng : Type) (RS : RandomSource rng) (now : Z)
         (investor_ids : list Z) (sukuk_df : list Sukuk.row)
         (employee_ids : list Z) (num_purchases : nat) (w : world rng),
    investor_ids <> [] -> sukuk_df <> [] -> employee_ids <> [] ->
    (forall s, In s sukuk_df ->
               (Sukuk.issue_date s <= now)%Z /\ 0 <= Sukuk.minimum_investment s) ->
    wp (generate_sukuk_purchases now investor_ids sukuk_df employee_ids num_purchases)
       (fun purchases =>
          length purchases = num_purchases /\
          Forall (fun p =>
                    (exists s, In s sukuk_df /\
                       Purchase.sukuk_id p = Sukuk.sukuk_id s /\
                       (Sukuk.issue_date s <= Purchase.purchase_date p)%Z /\
                       (Purchase.purchase_date p <= Sukuk.issue_date s + 365)%Z /\
                       (py_int (Sukuk.minimum_investment s) <= Purchase.amount p
                        <= py_int (Sukuk.minimum_investment s * 50))%Z) /\
                    (Purchase.purchase_date p <= now)%Z /\
                    In (Purchase.investor_id p) investor_ids /\
                    In (Purchase.processed_by_employee_id p) employee_ids)
                 purchases) w.
Proof.
  intros rng RS now investor_ids sukuk_df employee_ids num_purchases w Hi Hs He Hrows.
  unfold generate_sukuk_purchases. eapply wp_mono.
  - apply wp_generate_sukuk_purchases_loop; assumption.
  - intros res (new & Eres & Hlen & Hall). simpl in Eres. subst new.
    split; [exact Hlen|].
    eapply Forall_impl; [|exact Hall].
    intros p (H1 & H2 & H3 & H4 & _). repeat split; assumption.
Qed.

Lemma purchases_table_rows_witness :
  wp (generate_sukuk_purchases (RS := Tape) 739923 [11%Z]
        [Sukuk.Row 1 738000 0.08 5000] [7%Z] 2)
     (fun purchases => length purchases = 2%nat)
     (World [0; 0; 0]%Z [0%Z] [30%Z]).
Proof.
  eapply wp_mono.
  - apply (@purchases_table_rows (list Z) Tape 739923 [11%Z]
             [Sukuk.Row 1 738000 0.08 5000] [7%Z] 2%nat
             (World [0; 0; 0]%Z [0%Z] [30%Z])); try discriminate.
    intros s [E | []]. subst s. simpl. split; [lia | lra].
  - intros purchases H. apply H.
Defined.

Lemma Zsum_indicator (x a : Z) (ids : list Z) :
  NoDup ids -> In x ids ->
  Zsum (map (fun id => if (x =? id)%Z then a else 0%Z) ids) = a.
Proof.
  induction 1 as [|id ids Hnotin Hnd IH]; intros Hin; [contradiction|].
  cbn [map Zsum fold_right]. fold (Zsum (map (fun id0 => if (x =? id0)%Z then a else 0%Z) ids)).
  destruct Hin as [-> | Hin].
  - rewrite Z.eqb_refl.
    assert (E : Zsum (map (fun id0 => if (x =? id0)%Z then a else 0%Z) ids) = 0%Z).
    { clear -Hnotin. induction ids as [|y ids IH]; [reflexivity|].
      cbn [map Zsum fold_right].
      destruct (Z.eqb_spec x y) as [-> | _]; [exfalso; apply Hnotin; left; reflexivity|].
      fold (Zsum (map (fun id0 => if (x =? id0)%Z then a else 0%Z) ids)).
      rewrite IH; [reflexivity|]. intros H. apply Hnotin. right. exact H. }
    rewrite E. lia.
  - destruct (Z.eqb_spec x id) as [-> | _]; [contradiction|].
    rewrite IH by exact Hin. lia.
Qed.

Lemma total_invested_cons p ps id :
  total_invested (p :: ps) id
  = ((if (Purchase.investor_id p =? id)%Z then Purchase.amount p else 0)
     + total_invested ps id)%Z.
Proof.
  unfold total_invested. cbn [filter].
  destruct (Purchase.investor_id p =? id)%Z; reflexivity.
Qed.

Lemma Zsum_map_add {A} (f g : A -> Z) (l : list A) :
  Zsum (map (fun x => (f x + g x)%Z) l) = (Zsum (map f l) + Zsum (map g l))%Z.
Proof.
  induction l as [|x l IH]; [reflexivity|].
  cbn [map Zsum fold_right] in *. unfold Zsum in IH. rewrite IH. lia.
Qed.

Lemma total_invested_sum (ids : list Z) (purchases : list Purchase.row) :
  NoDup ids ->
  Forall (fun p => In (Purchase.investor_id p) ids) purchases ->
  Zsum (map (total_invested purchases) ids) = Zsum (map Purchase.amount purchases).
Proof.
  intros Hnd. induction 1 as [|p ps Hp Hps IH].
  - induction ids as [|id ids IHids]; [reflexivity|].
    inversion Hnd; subst. cbn [map Zsum fold_right]. unfold Zsum in IHids.
    rewrite IHids by assumption. reflexivity.
  - rewrite (map_ext _ _ (total_invested_cons p ps)).
    rewrite Zsum_map_add, IH, (@Zsum_indicator _ (Purchase.amount p) _ Hnd Hp).
    reflexivity.
Qed.

(** X11. After the update that ends the purchase generator, the
    [total_invested] values of the investors add up to the total amount of
    the purchases: every purchase is counted for exactly one investor, and
    an investor without purchase has the total 0. *)
Theorem total_invested_conservation :
  forall (rng : Type) (RS : RandomSource rng) (now : Z)
         (investor_ids : list Z) (sukuk_df : list Sukuk.row)
         (employee_ids : list Z) (num_purchases : nat) (w : world rng),
    NoDup investor_ids ->
    investor_ids <> [] -> sukuk_df <> [] -> employee_ids <> [] ->
    (forall s, In s sukuk_df ->
               (Sukuk.issue_date s <= now)%Z /\ 0 <= Sukuk.minimum_investment s) ->
    wp (generate_sukuk_purchases now investor_ids sukuk_df employee_ids num_purchases)
       (fun purchases =>
          Zsum (map (total_invested purchases) investor_ids)
          = Zsum (map Purchase.amount purchases) /\
          forall id, ~ In id (map Purchase.investor_id purchases) ->
                     total_invested purchases id = 0%Z) w.
Proof.
  intros rng RS now investor_ids sukuk_df employee_ids num_purchases w
         Hnd Hi Hs He Hrows.
  unfold generate_sukuk_purchases. eapply wp_mono.
  - apply wp_generate_sukuk_purchases_loop; assumption.
  - intros res (new & Eres & _ & Hall). simpl in Eres. subst new. split.
    + apply total_invested_sum; [exact Hnd|].
      eapply Forall_impl; [|exact Hall]. intros p (_ & _ & H & _). exact H.
    + intros id Hnot. unfold total_invested.
      assert (E : filter (fun p => (Purchase.investor_id p =? id)%Z) res = []).
      { clear -Hnot. induction res as [|p ps IH]; [reflexivity|].
        cbn [filter]. destruct (Z.eqb_spec (Purchase.investor_id p) id) as [E | _].
        - exfalso. apply Hnot. left. exact E.
        - apply IH. intros H. apply Hnot. right. exact H. }
      rewrite E. reflexivity.
Qed.

Lemma total_invested_conservation_witness :
  wp (generate_sukuk_purchases (RS := Tape) 739923 [11; 12]%Z
        [Sukuk.Row 1 738000 0.08 5000] [7%Z] 2)
     (fun purchases =>
        Zsum (map (total_invested purchases) [11; 12]%Z)
        = Zsum (map Purchase.amount purchases))
     (World [0; 0; 0; 7; 1; 0]%Z [0%Z] [30%Z]).
Proof.
  eapply wp_mono.
  - apply (@total_invested_conservation (list Z) Tape 739923 [11; 12]%Z
             [Sukuk.Row 1 738000 0.08 5000] [7%Z] 2%nat
             (World [0; 0; 0; 7; 1; 0]%Z [0%Z] [30%Z])); try discriminate.
    + repeat constructor; simpl; intuition lia.
    + intros s [E | []]. subst s. simpl. split; [lia | lra].
  - intros purchases H. apply H.
Defined.

(** ** The distribution table *)

Lemma remove_nth_incl {A} (l : list A) : forall i, incl (remove_nth i l) l.
Proof.
  induction l as [|h t IH]; intros [|i]; simpl.
  - apply incl_refl.
  - apply incl_refl.
  - apply incl_tl, incl_refl.
  - intros x [-> | Hx]; [left; reflexivity | right; apply (IH i); exact Hx].
Qed.

Lemma remove_nth_length {A} (l : list A) :
  forall i, (i < length l)%nat -> length (remove_nth i l) = (length l - 1)%nat.
Proof.
  induction l as [|h t IH]; intros [|i] Hi; simpl in *; try lia.
  rewrite IH by lia. lia.
Qed.

Section DistributionTable.

Context {rng : Type} {RS : RandomSource rng}.
Implicit Types w : world rng.
Variable now : Z.

Lemma wp_df_sample {A} n : forall (rows : list A) w,
  (n <= length rows)%nat ->
  wp (df_sample n rows) (fun l => length l = n /\ incl l rows) w.
Proof.
  induction n as [|n IH]; intros rows w Hn.
  - apply wp_ret. split; [reflexivity | intros x []].
  - cbn [df_sample]. destruct rows as [|d t] eqn:E; [simpl in Hn; lia|].
    rewrite <- E in *.
    assert (Hlen : (0 < Z.of_nat (length rows))%Z) by lia.
    eapply wp_bind_with.
    + apply wp_on_np with (P := fun x => (0 <= x < Z.of_nat (length rows))%Z).
      intros s. apply randbelow_range. exact Hlen.
    + cbv beta. intros i w1 Hi.
      eapply wp_bind_with.
      * apply IH. rewrite remove_nth_length by lia. lia.
      * cbv beta. intros rest w2 [Hlr Hincl]. apply wp_ret. split.
        -- simpl. rewrite Hlr. reflexivity.
        -- intros x [<- | Hx].
           ++ apply nth_In. lia.
           ++ apply (remove_nth_incl rows (Z.to_nat i)). apply Hincl. exact Hx.
Qed.

Lemma wp_distribution_loop_rows purchase employee_ids num quarters :
  employee_ids <> [] ->
  forall distributions w,
    wp (distribution_loop now purchase employee_ids num quarters distributions)
       (fun res =>
          exists new,
            res = distributions ++ new /\
            Forall (distribution_post now purchase employee_ids) new /\
            ((length distributions < num)%nat -> (length res <= num)%nat)) w.
Proof.
  intros He. induction quarters as [|quarter rest IH]; intros distributions w.
  - simpl. apply wp_ret. exists []. rewrite app_nil_r.
    repeat split; auto. lia.
  - cbn [distribution_loop].
    destruct (Z.ltb_spec now (PurchaseReturn.purchase_date purchase + 90 * quarter + 90))
      as [Hlate | Hdue].
    + apply wp_ret. exists []. rewrite app_nil_r. repeat split; auto. lia.
    + wp_step wp_uniform. rename a into u, H into Hu.
      wp_step wp_choice. rename a into processed_by, H into Hproc.
      set (row := {| Distribution.purchase_id := PurchaseReturn.purchase_id purchase;
                     Distribution.distribution_date := _;
                     Distribution.amount := _;
                     Distribution.period_start := _;
                     Distribution.period_end := _;
                     Distribution.processed_by_employee_id := processed_by |}).
      assert (Hrow : distribution_post now purchase employee_ids row).
      { unfold distribution_post. subst row.
        cbn [Distribution.purchase_id Distribution.distribution_date
             Distribution.amount Distribution.processed_by_employee_id].
        repeat split; try assumption.
        - apply py_round_mono. fold (quarterly_share purchase).
          assert (Hx : 0 <= quarterly_share purchase * (u - 0.9))
            by (apply Qmult_le_0_compat; lra).
          lra.
        - apply py_round_mono. fold (quarterly_share purchase).
          assert (Hx : 0 <= quarterly_share purchase * (1.1 - u))
            by (apply Qmult_le_0_compat; lra).
          lra. }
      destruct (Nat.leb_spec num (length (distributions ++ [row]))) as [Hfull | Hroom].
      * apply wp_ret. exists [row]. repeat split.
        -- constructor; [exact Hrow | constructor].
        -- intros Hlt. rewrite length_app. simpl. lia.
      * eapply wp_mono; [apply IH|].
        intros res (new & Eres & Hrows & Hcap).
        exists (row :: new). repeat split.
        -- rewrite Eres, <- app_assoc. reflexivity.
        -- constructor; [exact Hrow | exact Hrows].
        -- intros _. apply Hcap. exact Hroom.
Qed.

Lemma wp_generate_profit_distributions_loop employee_ids num sampled :
  employee_ids <> [] ->
  forall distributions w,
    wp (generate_profit_distributions_loop now employee_ids num sampled distributions)
       (fun res =>
          exists new,
            res = distributions ++ new /\
            Forall (fun d => exists purchase, In purchase sampled /\
                               distribution_post now purchase employee_ids d) new /\
            ((length distributions < num)%nat -> (length res <= num)%nat)) w.
Proof.
  intros He. induction sampled as [|purchase rest IH]; intros distributions w.
  - apply wp_ret. exists []. rewrite app_nil_r. repeat split; auto. lia.
  - cbn [generate_profit_distributions_loop]. unfold purchase_distributions.
    wp_step wp_distribution_loop_rows.
    destruct H as (block & Eblock & Hblock & Hcap).
    assert (Hblock' : Forall (fun d => exists p, In p (purchase :: rest) /\
                                distribution_post now p employee_ids d) block).
    { eapply Forall_impl; [|exact Hblock]. intros d Hd.
      exists purchase. split; [left; reflexivity | exact Hd]. }
    destruct (Nat.leb_spec num (length a)) as [Hfull | Hroom].
    + apply wp_ret. exists block. repeat split; assumption.
    + eapply wp_mono; [apply IH|].
      intros res (new & Eres & Hnew & Hcap').
      exists (block ++ new). repeat split.
      * rewrite Eres, Eblock, <- app_assoc. reflexivity.
      * apply Forall_app. split; [exact Hblock'|].
        eapply Forall_impl; [|exact Hnew]. intros d (p & Hin & Hd).
        exists p. split; [right; exact Hin | exact Hd].
      * intros _. apply Hcap'. exact Hroom.
Qed.

End DistributionTable.

(** X12. A purchase receives one distribution per full 90-day quarter
    elapsed since the purchase date, at most 8 and none for a purchase dated
    after [now], provided the global distribution count leaves room: the date
    check never stops the loop. Every distribution is dated on or before
    [now]. *)
Theorem distribution_count :
  forall (rng : Type) (RS : RandomSource rng) (now : Z)
         (purchase : PurchaseReturn.row) (employee_ids : list Z)
         (num_distributions : nat) (distributions : list Distribution.row)
         (w : world rng),
    employee_ids <> [] ->
    wp (purchase_distributions now purchase employee_ids num_distributions distributions)
       (fun res =>
          exists new,
            res = distributions ++ new /\
            (length new <= 8)%nat /\
            Forall (fun d => (Distribution.distribution_date d <= now)%Z) new /\
            ((length distributions
              + Z.to_nat (Z.min (Z.quot (now - PurchaseReturn.purchase_date purchase) 90) 8)
              <= num_distributions)%nat ->
             length new
             = Z.to_nat (Z.min (Z.quot (now - PurchaseReturn.purchase_date purchase) 90) 8))) w.
Proof.
  intros rng RS now purchase employee_ids num_distributions distributions w He.
  eapply wp_mono.
  - apply wp_conj.
    + apply (wp_purchase_distributions now purchase num_distributions distributions w He).
    + unfold purchase_distributions.
      apply (wp_distribution_loop_rows now purchase num_distributions
               (py_range (Z.min (quarters_since_purchase now purchase) 8)) He).
  - intros res [(new & Eres & Hlen & _ & Hexact & _) (new' & Eres' & Hrows & _)].
    rewrite Eres in Eres'. apply app_inv_head in Eres'. subst new'.
    unfold quarters_since_purchase in *. rewrite py_int_div90 in *.
    exists new. repeat split; try assumption.
    + lia.
    + eapply Forall_impl; [|exact Hrows]. intros d (_ & H & _). exact H.
Qed.

Lemma distribution_count_witness :
  wp (purchase_distributions (RS := Tape) 739923
        (PurchaseReturn.Row 1 11 1 739700 5000 0.08) [7%Z] 800 [])
     (fun res => length res = 2%nat)
     (World [] [] []).
Proof.
  eapply wp_mono.
  - apply (@distribution_count (list Z) Tape 739923
             (PurchaseReturn.Row 1 11 1 739700 5000 0.08) [7%Z] 800%nat []
             (World [] [] [])).
    discriminate.
  - intros res (new & E & _ & _ & H). simpl in E. subst res.
    apply H. vm_compute. lia.
Defined.

(** X14. The distribution table holds at most [num_distributions] rows;
    every row belongs to a purchase of the joined purchases, is dated on or
    before [now] and is processed by an employee of the Finance pool. With a
    target of 0, or without purchases, the generator returns the empty
    table, even when the Finance pool is empty. *)
Theorem distributions_table_integrity :
  forall (rng : Type) (RS : RandomSource rng) (now : Z)
         (purchases_df : list PurchaseReturn.row) (employee_ids : list Z)
         (num_distributions : nat) (w : world rng),
    employee_ids <> [] ->
    wp (generate_profit_distributions now purchases_df employee_ids num_distributions)
       (fun table =>
          (length table <= num_distributions)%nat /\
          Forall (fun d =>
                    (exists purchase, In purchase purchases_df /\
                       Distribution.purchase_id d = PurchaseReturn.purchase_id purchase) /\
                    (Distribution.distribution_date d <= now)%Z /\
                    In (Distribution.processed_by_employee_id d) employee_ids) table) w
    /\ (forall pool,
          wp (generate_profit_distributions now purchases_df pool 0)
             (fun table => table = []) w)
    /\ (forall pool,
          wp (generate_profit_distributions now [] pool num_distributions)
             (fun table => table = []) w).
Proof.
  intros rng RS now purchases_df employee_ids num_distributions w He.
  split; [|split].
  - unfold generate_profit_distributions.
    eapply wp_bind_with.
    + apply wp_df_sample. apply Nat.le_min_l.
    + cbv beta. intros sampled w1 [_ Hincl].
      eapply wp_bind_with.
      * apply (wp_generate_profit_distributions_loop now num_distributions sampled He).
      * cbv beta. intros all w2 (new & Eres & Hnew & _). simpl in Eres. subst new.
        apply wp_ret. split; [apply firstn_le_length|].
        apply Forall_firstn_of. eapply Forall_impl; [|exact Hnew].
        intros d (purchase & Hin & Hid & Hdate & Hproc & _).
        repeat split; try assumption.
        exists purchase. split; [apply Hincl; exact Hin | exact Hid].
  - intros pool. unfold generate_profit_distributions.
    rewrite Nat.min_0_r. exists [], w. split; reflexivity.
  - intros pool. unfold generate_profit_distributions.
    cbn [length Nat.min]. exists [], w.
    split; [destruct num_distributions; reflexivity | reflexivity].
Qed.

Lemma distributions_table_integrity_witness :
  wp (generate_profit_distributions (RS := Tape) 739923
        [PurchaseReturn.Row 1 11 1 739700 5000 0.08] [7%Z] 800)
     (fun table => (length table <= 800)%nat)
     (World [] [] []).
Proof.
  assert (H : [7%Z] <> []) by discriminate.
  eapply wp_mono.
  - apply (proj1 (@distributions_table_integrity (list Z) Tape 739923
                    [PurchaseReturn.Row 1 11 1 739700 5000 0.08] [7%Z] 800%nat
                    (World [] [] []) H)).
  - intros table Ht. apply Ht.
Defined.

(** ** The instrument table *)

Section IssuanceTable.

Context {rng : Type} {RS : RandomSource rng}.
Implicit Types w : world rng.
Variables now issue_window_end : Z.

Lemma wp_generate_sukuk_issuance employee_ids i w :
  employee_ids <> [] -> (START_DATE <= issue_window_end)%Z ->
  wp (generate_sukuk_issuance now issue_window_end employee_ids i)
     (issuance_post now issue_window_end employee_ids i) w.
Proof.
  intros He Hwin. unfold generate_sukuk_issuance.
  wp_step wp_date_between. rename a into issue_date, H into Hdate.
  wp_step wp_choice. rename a into years, H into Hyears.
  wp_step wp_randint. rename a into total, H into Htotal.
  wp_step wp_uniform. rename a into jitter, H into Hjitter.
  wp_step wp_choice. rename a into sukuk_type, H into Htype.
  wp_step wp_choice. rename a into minimum, H into Hmin.
  wp_step wp_choice. rename a into assets, H into Hassets.
  wp_step wp_choice. rename a into issuer, H into Hissuer.
  apply wp_ret. unfold issuance_post.
  cbn [Issuance.sukuk_name Issuance.issue_date Issuance.maturity_date
       Issuance.total_amount Issuance.expected_return_rate
       Issuance.minimum_investment Issuance.status
       Issuance.issued_by_employee_id snd].
  assert (Hy : 2 <= inject_Z years /\ inject_Z years <= 10).
  { simpl in Hyears. split.
    - change 2 with (inject_Z 2). apply inject_Z_le_const. lia.
    - change 10 with (inject_Z 10). apply inject_Z_le_const. lia. }
  refine (conj eq_refl (conj Hdate (conj _ (conj Htotal (conj _ (conj _
            (conj Hmin (conj _ Hissuer)))))))).
  - exists years. split; [exact Hyears | split; [reflexivity|]].
    split; apply py_round_mono; lra.
  - apply Qle_trans with (py_round 0.05 4);
      [apply Qle_bool_imp_le; vm_compute; reflexivity | apply py_round_mono; lra].
  - apply Qle_trans with (py_round 0.11 4);
      [apply py_round_mono; lra | apply Qle_bool_imp_le; vm_compute; reflexivity].
  - destruct (Z.ltb_spec now (issue_date + years * 365)) as [Hlt | Hge].
    + split; [intros _; exact Hlt | reflexivity].
    + split; [discriminate | lia].
Qed.

Lemma wp_generate_sukuk_issuances_loop employee_ids indices :
  employee_ids <> [] -> (START_DATE <= issue_window_end)%Z ->
  forall sukuk_list w,
    wp (generate_sukuk_issuances_loop now issue_window_end employee_ids indices sukuk_list)
       (fun res =>
          exists new,
            res = sukuk_list ++ new /\
            Forall2 (issuance_post now issue_window_end employee_ids) indices new) w.
Proof.
  intros He Hwin. induction indices as [|i rest IH]; intros sukuk_list w.
  - apply wp_ret. exists []. rewrite app_nil_r. split; [reflexivity | constructor].
  - cbn [generate_sukuk_issuances_loop].
    wp_step wp_generate_sukuk_issuance.
    eapply wp_mono; [apply IH|].
    intros res (new & Eres & Hall).
    exists (a :: new). split.
    + rewrite Eres, <- app_assoc. reflexivity.
    + constructor; assumption.
Qed.

End IssuanceTable.

Lemma Forall2_length_eq {A B} (R : A -> B -> Prop) l1 l2 :
  Forall2 R l1 l2 -> length l1 = length l2.
Proof. induction 1; simpl; congruence. Qed.

Lemma Forall2_Forall_r {A B} (R : A -> B -> Prop) (P : B -> Prop) l1 l2 :
  Forall2 R l1 l2 -> (forall a b, In a l1 -> R a b -> P b) -> Forall P l2.
Proof.
  induction 1 as [|a b l1 l2 Hab Hrest IH]; intros HP; constructor.
  - apply (HP a b); [left; reflexivity | exact Hab].
  - apply IH. intros a' b' Hin. apply HP. right. exact Hin.
Qed.





(** ** Instruments, then purchases *)

Lemma In_read_sukuk (table : list Issuance.row) (s : Sukuk.row) :
  In s (read_sukuk table) ->
  exists r, In r table /\
    (1 <= Sukuk.sukuk_id s <= Z.of_nat (length table))%Z /\
    Sukuk.issue_date s = Issuance.issue_date r /\
    Sukuk.minimum_investment s = inject_Z (Issuance.minimum_investment r).
Proof.
  unfold read_sukuk. intros H. apply in_map_iff in H.
  destruct H as ([id r] & <- & Hin). unfold with_rowid in Hin.
  pose proof (in_combine_l _ _ _ _ Hin) as Hid.
  pose proof (in_combine_r _ _ _ _ Hin) as Hr.
  apply in_map_iff in Hid. destruct Hid as (k & <- & Hk). apply in_seq in Hk.
  exists r. cbn [Sukuk.sukuk_id Sukuk.issue_date Sukuk.minimum_investment].
  repeat split; try assumption; lia.
Qed.

Lemma py_int_inject (m : Z) : py_int (inject_Z m) = m /\ py_int (inject_Z m * 50) = (m * 50)%Z.
Proof.
  unfold py_int. cbn [inject_Z Qmult Qnum Qden]. rewrite !Z.quot_1_r.
  split; reflexivity.
Qed.

(** X16. Instruments, then purchases: when the issue window ends on or
    before [now], the purchase generator accepts every table of at least one
    instrument that the instrument generator returns. Each of the
    [num_purchases] purchases then names an instrument key of that table, is
    dated between START_DATE and [now], has an amount between 1000 and
    500000 and, at 1000 per unit, between 1 and 500 units. *)
Theorem issuances_then_purchases :
  forall (rng : Type) (RS : RandomSource rng) (now issue_window_end : Z)
         (finance_ids investor_ids operations_ids : list Z)
         (num_sukuk num_purchases : nat) (w : world rng),
    finance_ids <> [] -> investor_ids <> [] -> operations_ids <> [] ->
    (START_DATE <= issue_window_end <= now)%Z ->
    wp (sukuk_issuances <-
          generate_sukuk_issuances now issue_window_end finance_ids (S num_sukuk) ;;
        generate_sukuk_purchases now investor_ids (read_sukuk sukuk_issuances)
                                 operations_ids num_purchases)
       (fun purchases =>
          length purchases = num_purchases /\
          Forall (fun p =>
                    (1 <= Purchase.sukuk_id p <= Z.of_nat (S num_sukuk))%Z /\
                    (START_DATE <= Purchase.purchase_date p <= now)%Z /\
                    (1000 <= Purchase.amount p <= 500000)%Z /\
                    1 <= Purchase.units p /\ Purchase.units p <= 500) purchases) w.
Proof.
  intros rng RS now issue_window_end finance_ids investor_ids operations_ids
         num_sukuk num_purchases w Hf Hi Ho [Hw1 Hw2].
  unfold generate_sukuk_issuances at 1.
  eapply wp_bind_with.
  - apply wp_generate_sukuk_issuances_loop; assumption.
  - cbv beta. intros table w1 (new & Eres & Hall). simpl in Eres. subst new.
    assert (Hlen : length table = S num_sukuk).
    { rewrite <- (Forall2_length_eq Hall), length_py_range. lia. }
    assert (Hrows : forall s, In s (read_sukuk table) ->
              (1 <= Sukuk.sukuk_id s <= Z.of_nat (S num_sukuk))%Z /\
              (START_DATE <= Sukuk.issue_date s <= now)%Z /\
              exists m, In m [1000; 5000; 10000]%Z /\
                        Sukuk.minimum_investment s = inject_Z m).
    { intros s Hs. apply In_read_sukuk in Hs.
      destruct Hs as (r & Hr & Hid & Hdate & Hmin).
      assert (Hpost : Forall (fun r => (START_DATE <= Issuance.issue_date r
                                        <= issue_window_end)%Z /\
                                       In (Issuance.minimum_investment r)
                                          [1000; 5000; 10000]%Z) table).
      { apply (Forall2_Forall_r _ Hall). intros i r' _ Hr'.
        destruct Hr' as (_ & Hd & _ & _ & _ & _ & Hm & _). split; assumption. }
      rewrite Forall_forall in Hpost. destruct (Hpost r Hr) as [Hd Hm].
      rewrite Hlen in Hid. rewrite Hdate.
      repeat split; try lia.
      exists (Issuance.minimum_investment r). split; assumption. }
    unfold generate_sukuk_purchases. eapply wp_mono.
    + apply wp_generate_sukuk_purchases_loop; try assumption.
      * destruct table as [|r t]; [discriminate Hlen | discriminate].
      * intros s Hs. destruct (Hrows s Hs) as (_ & Hd & m & Hm & Em).
        split; [lia|]. rewrite Em. change 0 with (inject_Z 0).
        apply inject_Z_le_const. simpl in Hm. lia.
    + intros res (new & Eres & Hn & Hposts). simpl in Eres. subst new.
      split; [exact Hn|].
      eapply Forall_impl; [|exact Hposts].
      intros p ((s & Hs & Hid & Hd1 & Hd2 & Hamt) & Hnow & _ & _ & Hunits).
      destruct (Hrows s Hs) as (Hkey & Hdate & m & Hm & Em).
      rewrite Em in Hamt. destruct (py_int_inject m) as [E1 E2].
      rewrite E1, E2 in Hamt.
      assert (Ha : (1000 <= Purchase.amount p <= 500000)%Z) by (simpl in Hm; lia).
      assert (Hq1 : 1000 <= inject_Z (Purchase.amount p)).
      { change 1000 with (inject_Z 1000). apply inject_Z_le_const. lia. }
      assert (Hq2 : inject_Z (Purchase.amount p) <= 500000).
      { change 500000 with (inject_Z 500000). apply inject_Z_le_const. lia. }
      rewrite Hunits. repeat split; try lia.
      * apply Qle_shift_div_l; lra.
      * apply Qle_shift_div_r; lra.
Qed.

Lemma issuances_then_purchases_witness :
  wp (sukuk_issuances <-
        generate_sukuk_issuances (RS := Tape) 739923 739922 [3%Z] 1 ;;
      generate_sukuk_purchases 739923 [11%Z] (read_sukuk sukuk_issuances) [7%Z] 2)
     (fun purchases => length purchases = 2%nat)
     (World [] [] []).
Proof.
  eapply wp_mono.
  - apply (@issuances_then_purchases (list Z) Tape 739923 739922 [3%Z] [11%Z] [7%Z]
             0%nat 2%nat (World [] [] [])); try discriminate.
    unfold START_DATE. lia.
  - intros purchases H. apply H.
Defined.

(** ** The run *)

(** X17. A run over non-empty pools and instruments issued on or before
    [now] completes: none of the four stages raises, the purchase and loan
    tables have exactly the requested numbers of rows, and the payment and
    distribution tables at most the requested numbers. *)
Theorem main_completes :
  forall (rng : Type) (RS : RandomSource rng) (now : Z)
         (u : upstream) (v : volumes) (w : world rng),
    investor_ids u <> [] -> sukuk_df u <> [] -> borrowers_df u <> [] ->
    operations_employee_ids u <> [] -> risk_employee_ids u <> [] ->
    finance_employee_ids u <> [] ->
    (forall s, In s (sukuk_df u) ->
               (Sukuk.issue_date s <= now)%Z /\ 0 <= Sukuk.minimum_investment s) ->
    wp (main now u v)
       (fun d =>
          length (sukuk_purchases d) = num_purchases v /\
          length (business_loans d) = num_loans v /\
          (length (loan_payments_table d) <= num_payments v)%nat /\
          (length (profit_distributions d) <= num_distributions v)%nat) w.
Proof.
  intros rng RS now u v w Hi Hs Hb Ho Hr Hf Hrows. unfold main.
  eapply wp_bind_with.
  { unfold generate_sukuk_purchases.
    apply wp_generate_sukuk_purchases_loop; eassumption. }
  cbv beta. intros purchases w1 (newp & Ep & Hlp & _). simpl in Ep. subst newp.
  eapply wp_bind_with.
  { unfold generate_business_loans.
    apply (wp_generate_business_loans_loop_rows now (num_loans v) Hb Hr). }
  cbv beta. intros loans w2 (newl & El & Hll & Hposts). simpl in El. subst newl.
  assert (Hserv : Forall serviceable loans).
  { eapply Forall_impl; [|exact Hposts]. intros loan (Hgen & _).
    apply generated_loan_serviceable. exact Hgen. }
  assert (Hstage3 : forall w', wp (generate_loan_payments now loans (num_payments v))
                                 (fun t => (length t <= num_payments v)%nat) w').
  { intros w'. unfold generate_loan_payments. eapply wp_bind_with.
    - apply wp_generate_loan_payments_loop. apply with_rowid_Forall. exact Hserv.
    - cbv beta. intros all w3 _. apply wp_ret. apply firstn_le_length. }
  eapply wp_bind_with; [apply Hstage3|].
  cbv beta. intros payments w3 Hpay.
  assert (Hstage4 : forall w', wp (generate_profit_distributions now
                                    (join_purchases purchases (sukuk_df u))
                                    (finance_employee_ids u) (num_distributions v))
                                 (fun t => (length t <= num_distributions v)%nat) w').
  { intros w'. unfold generate_profit_distributions. eapply wp_bind_with.
    - apply wp_df_sample. apply Nat.le_min_l.
    - cbv beta. intros sampled w4 _. eapply wp_bind_with.
      + apply (wp_generate_profit_distributions_loop now (num_distributions v)
                 sampled Hf).
      + cbv beta. intros all w5 _. apply wp_ret. apply firstn_le_length. }
  eapply wp_bind_with; [apply Hstage4|].
  cbv beta. intros distributions w4 Hdist.
  apply wp_ret. cbn [sukuk_purchases business_loans loan_payments_table
                     profit_distributions].
  repeat split; assumption.
Qed.

Lemma main_completes_witness :
  wp (main (RS := Tape) 739923
        (Upstream [11%Z] [Sukuk.Row 1 738000 0.08 5000] [Borrower.Row 1 800]
                  [7%Z] [8%Z] [9%Z])
        (Volumes 1 1 3 2))
     (fun d => length (business_loans d) = 1%nat)
     (World [] [] []).
Proof.
  eapply wp_mono.
  - apply (@main_completes (list Z) Tape 739923
             (Upstream [11%Z] [Sukuk.Row 1 738000 0.08 5000] [Borrower.Row 1 800]
                       [7%Z] [8%Z] [9%Z])
             (Volumes 1 1 3 2) (World [] [] [])); try discriminate.
    intros s [E | []]. subst s. simpl. split; [lia | lra].
  - intros d H. apply H.
Defined.

(** ** Credit scores and the length of a schedule *)

(** X18. Whatever the draw of the normal distribution, the credit score of
    a borrower is an integer from 300 to 850; inside that range it is the
    draw truncated to an integer. *)
Theorem credit_score_range :
  forall normal_draw : Q,
    (300 <= credit_score_of normal_draw <= 850)%Z /\
    (300 <= normal_draw -> normal_draw <= 850 ->
     credit_score_of normal_draw = Qfloor normal_draw).
Proof.
  intros x. unfold credit_score_of, np_clip.
  assert (Hlo : 300 <= Qmin (Qmax x 300) 850).
  { apply Q.min_glb; [apply Q.le_max_r | lra]. }
  assert (Hhi : Qmin (Qmax x 300) 850 <= 850) by apply Q.le_min_r.
  rewrite py_int_nonneg by lra. split.
  - split.
    + change 300%Z with (Qfloor (inject_Z 300)) at 1. apply Qfloor_resp_le. exact Hlo.
    + change 850%Z with (Qfloor (inject_Z 850)) at 2. apply Qfloor_resp_le. exact Hhi.
  - intros H1 H2. apply Z.le_antisymm; apply Qfloor_resp_le.
    + rewrite Q.min_l; [rewrite Q.max_l; [apply Qle_refl | exact H1]|].
      rewrite Q.max_l by exact H1. exact H2.
    + apply Q.min_glb; [apply Q.le_max_l | exact H2].
Qed.

Lemma defaulted_count_below_months (months : Z) :
  (1 <= months)%Z -> (py_int (inject_Z months * 0.7) < months)%Z.
Proof.
  intros Hm.
  assert (HM : 1 <= inject_Z months).
  { change 1 with (inject_Z 1). apply inject_Z_le_const. exact Hm. }
  rewrite py_int_nonneg by lra.
  apply Z.lt_le_trans with (Qfloor (inject_Z months * 0.7) + 1)%Z; [lia|].
  assert (H : inject_Z (Qfloor (inject_Z months * 0.7)) < inject_Z months).
  { apply Qle_lt_trans with (inject_Z months * 0.7); [apply Qfloor_le | lra]. }
  rewrite <- Zlt_Qlt in H. lia.
Qed.

(** X19. A loan never receives more payments than it has periods, and a
    Defaulted loan always receives fewer: at most int(0.7 x periods). *)
Theorem payments_never_exceed_term :
  forall (rng : Type) (RS : RandomSource rng) (now : Z) (num_payments : nat)
         (loan_id : Z) (loan : Loan.row) (all_payments : list Payment.row)
         (w : world rng),
    (0 < Loan.loan_amount loan)%Z -> 0 <= Loan.profit_rate loan ->
    wp (loan_payments now num_payments loan_id loan all_payments)
       (fun res =>
          exists new,
            res = all_payments ++ new /\
            (Z.of_nat (length new) <= loan_months loan)%Z /\
            (Loan.loan_status loan = Defaulted ->
             (Z.of_nat (length new) <= py_int (inject_Z (loan_months loan) * 0.7))%Z /\
             (Z.of_nat (length new) < loan_months loan)%Z)) w.
Proof.
  intros rng RS now num_payments loan_id loan all_payments w HL Hr.
  pose proof (loan_months_pos loan) as Hm.
  pose proof (defaulted_count_below_months Hm) as Hd.
  eapply wp_mono.
  - apply wp_loan_payments. split; [exact HL | exact Hr].
  - intros res (new & n & Eres & Hn & _ & Hlen & _).
    exists new. split; [exact Eres|].
    unfold num_payments_rule in Hn. cbv zeta in Hn.
    destruct (Loan.loan_status loan).
    + split; [lia | discriminate].
    + split; [lia | discriminate].
    + assert (H0 : (0 <= py_int (inject_Z (loan_months loan) * 0.3))%Z).
      { assert (HM : 1 <= inject_Z (loan_months loan)).
        { change 1 with (inject_Z 1). apply inject_Z_le_const. exact Hm. }
        change 0%Z with (py_int 0). apply py_int_mono; lra. }
      set (k := py_int (inject_Z (loan_months loan) * 0.7)) in *.
      set (m := loan_months loan) in *.
      assert (Hk : (Z.of_nat (length new) <= k)%Z) by lia.
      split; [lia|]. intros _. split; [exact Hk | lia].
Qed.

Lemma payments_never_exceed_term_witness :
  wp (loan_payments (RS := Tape) 739923 3 1
        (Loan.Row 1 100000 737425 738505 0.1 "Working Capital" Defaulted
                  "Inventory" 7 55000) [])
     (fun res => (Z.of_nat (length res) <= 36)%Z)
     (World [] [] []).
Proof.
  eapply wp_mono.
  - apply (@payments_never_exceed_term (list Z) Tape 739923 3%nat 1%Z
             (Loan.Row 1 100000 737425 738505 0.1 "Working Capital" Defaulted
                       "Inventory" 7 55000) [] (World [] [] [])).
    + simpl. lia.
    + simpl. lra.
  - intros res (new & E & H & _). simpl in E. subst res. exact H.
Defined.

(** ** An empty Finance pool *)

Lemma py_range_pos n :
  (1 <= n)%Z -> py_range n = 0%Z :: map Z.of_nat (seq 1 (Z.to_nat n - 1)).
Proof.
  intros H. unfold py_range.
  replace (Z.to_nat n) with (S (Z.to_nat n - 1)) at 1 by lia.
  reflexivity.
Qed.

(** X20. The distribution generator fails fast on an empty Finance pool:
    for a purchase with at least one full quarter elapsed, the loop raises
    [IndexError] at the first distribution, whatever the target count. *)
Theorem distributions_need_finance_pool :
  forall (rng : Type) (RS : RandomSource rng) (now : Z)
         (purchase : PurchaseReturn.row) (num_distributions : nat)
         (distributions : list Distribution.row) (w : world rng),
    (1 <= quarters_since_purchase now purchase)%Z ->
    purchase_distributions now purchase [] num_distributions distributions w
    = Raise IndexError.
Proof.
  intros rng RS now purchase num_distributions distributions w Hq.
  unfold purchase_distributions. rewrite py_range_pos by lia.
  cbn [distribution_loop].
  pose proof (@quarter_due now purchase 0%Z) as Hdue.
  destruct (Z.ltb_spec now (PurchaseReturn.purchase_date purchase + 90 * 0 + 90)) as [Hlt | _].
  - lia.
  - raise_step wp_uniform. reflexivity.
Qed.

Lemma distributions_need_finance_pool_witness :
  purchase_distributions (RS := Tape) 739923
    (PurchaseReturn.Row 1 11 1 739700 5000 0.08) [] 800 [] (World [] [] [])
  = Raise IndexError.
Proof.
  apply (@distributions_need_finance_pool (list Z) Tape 739923
           (PurchaseReturn.Row 1 11 1 739700 5000 0.08) 800%nat []
           (World [] [] [])).
  vm_compute. discriminate.
Defined.

(** * The generators in binary64 *)

(** ** Rounding to binary64 *)

Lemma pow2_pos c : 0 < 2 ^ c.
Proof. apply Qpower_0_lt. reflexivity. Qed.

Lemma pow2_add a b : 2 ^ (a + b) == 2 ^ a * 2 ^ b.
Proof. apply Qpower_plus. discriminate. Qed.

Lemma pow2_opp a : 2 ^ (- a) == / 2 ^ a.
Proof. apply Qpower_opp. Qed.

Lemma pow2_le a b : (a <= b)%Z -> 2 ^ a <= 2 ^ b.
Proof. intros H. apply Qpower_le_compat_l; [exact H | discriminate]. Qed.

Lemma pow2_lt a b : (a < b)%Z -> 2 ^ a < 2 ^ b.
Proof. intros H. apply Qpower_lt_compat_l; [exact H | reflexivity]. Qed.

Lemma pow2_inv a : 2 ^ a * 2 ^ (- a) == 1.
Proof.
  rewrite <- pow2_add. replace (a + - a)%Z with 0%Z by lia. reflexivity.
Qed.

Lemma pow2_Z n : (0 <= n)%Z -> inject_Z (2 ^ n) == 2 ^ n.
Proof. intros H. rewrite Zpower_Qpower by exact H. reflexivity. Qed.

Lemma Qdiv_le_cross u v p q : 0 < v -> 0 < q -> u * q <= p * v -> u / v <= p / q.
Proof.
  intros Hv Hq H. apply Qle_shift_div_r; [exact Hv|].
  setoid_replace (p / q * v) with (p * v / q) by (field; lra).
  apply Qle_shift_div_l; assumption.
Qed.

Lemma Qdiv_lt_cross u v p q : 0 < v -> 0 < q -> u * q < p * v -> u / v < p / q.
Proof.
  intros Hv Hq H. apply Qlt_shift_div_r; [exact Hv|].
  setoid_replace (p / q * v) with (p * v / q) by (field; lra).
  apply Qlt_shift_div_l; assumption.
Qed.

Lemma ilog2_spec x : 0 < x -> 2 ^ ilog2 x <= x /\ x < 2 ^ (ilog2 x + 1).
Proof.
  intros Hx. destruct x as [n d]. unfold ilog2. cbn [Qnum Qden].
  assert (Hn : (0 < n)%Z) by (unfold Qlt in Hx; simpl in Hx; lia).
  pose proof (Z.log2_spec n Hn) as [Ha1 Ha2].
  pose proof (Z.log2_spec (Zpos d) eq_refl) as [Hb1 Hb2].
  pose proof (Z.log2_nonneg n) as Ha0.
  pose proof (Z.log2_nonneg (Zpos d)) as Hb0.
  set (a := Z.log2 n) in *. set (b := Z.log2 (Zpos d)) in *.
  rewrite Z.pow_succ_r in Ha2, Hb2 by assumption.
  rewrite (Qmake_Qdiv n d).
  assert (E1 : 2 ^ (a - b) == inject_Z (2 ^ a) / inject_Z (2 ^ b)).
  { replace (a - b)%Z with (a + - b)%Z by lia.
    rewrite pow2_add, pow2_opp, !pow2_Z by assumption. reflexivity. }
  assert (E2 : 2 ^ (a - b - 1) == inject_Z (2 ^ a) / (2 * inject_Z (2 ^ b))).
  { replace (a - b - 1)%Z with (a + - b + - (1))%Z by lia.
    rewrite !pow2_add, !pow2_opp, !pow2_Z by assumption.
    assert (0 < 2 ^ b) by apply pow2_pos. change (2 ^ 1) with 2. field. lra. }
  assert (E3 : 2 ^ (a - b + 1) == (2 * inject_Z (2 ^ a)) / inject_Z (2 ^ b)).
  { replace (a - b + 1)%Z with (a + - b + 1)%Z by lia.
    rewrite !pow2_add, !pow2_opp, !pow2_Z by assumption.
    assert (0 < 2 ^ b) by apply pow2_pos. change (2 ^ 1) with 2. field. lra. }
  assert (Hpb : 0 < inject_Z (2 ^ b)).
  { rewrite pow2_Z by assumption. apply pow2_pos. }
  assert (Hpa : 0 < inject_Z (2 ^ a)).
  { rewrite pow2_Z by assumption. apply pow2_pos. }
  assert (Hd : 0 < inject_Z (Zpos d)) by reflexivity.
  assert (HN : 0 < inject_Z n) by (change 0 with (inject_Z 0); rewrite <- Zlt_Qlt; exact Hn).
  rewrite Zle_Qle in Ha1, Hb1. rewrite Zlt_Qlt in Ha2, Hb2.
  rewrite inject_Z_mult in Ha2, Hb2. change (inject_Z 2) with 2 in Ha2, Hb2.
  destruct (Z.leb_spec (Zpos d * 2 ^ a) (n * 2 ^ b)) as [Hc | Hc].
  - rewrite Zle_Qle in Hc. rewrite !inject_Z_mult in Hc.
    rewrite E1, E3. split.
    + apply Qdiv_le_cross; try assumption. lra.
    + apply Qdiv_lt_cross; try assumption. nra.
  - rewrite Zlt_Qlt in Hc. rewrite !inject_Z_mult in Hc.
    replace (a - b - 1 + 1)%Z with (a - b)%Z by lia.
    rewrite E1, E2. split.
    + apply Qdiv_le_cross; try assumption; [lra|]. nra.
    + apply Qdiv_lt_cross; try assumption. lra.
Qed.

Lemma ilog2_unique x e : 2 ^ e <= x -> x < 2 ^ (e + 1) -> ilog2 x = e.
Proof.
  intros H1 H2.
  assert (Hx : 0 < x) by (apply Qlt_le_trans with (2 ^ e); [apply pow2_pos | exact H1]).
  destruct (ilog2_spec Hx) as [H3 H4].
  destruct (Z.lt_trichotomy (ilog2 x) e) as [L | [E | G]].
  - exfalso. assert (2 ^ (ilog2 x + 1) <= 2 ^ e) by (apply pow2_le; lia). lra.
  - exact E.
  - exfalso. assert (2 ^ (e + 1) <= 2 ^ ilog2 x) by (apply pow2_le; lia). lra.
Qed.

Lemma ilog2_mono x y : 0 < x -> x <= y -> (ilog2 x <= ilog2 y)%Z.
Proof.
  intros Hx Hxy. assert (Hy : 0 < y) by lra.
  destruct (ilog2_spec Hx) as [H1 H2]. destruct (ilog2_spec Hy) as [H3 H4].
  destruct (Z.le_gt_cases (ilog2 x) (ilog2 y)) as [L | G]; [exact L|].
  exfalso. assert (2 ^ (ilog2 y + 1) <= 2 ^ ilog2 x) by (apply pow2_le; lia). lra.
Qed.

Lemma round53_scaled x :
  0 < x ->
  2 ^ 52 <= x * 2 ^ (- (ilog2 x - 52)) /\ x * 2 ^ (- (ilog2 x - 52)) < 2 ^ 53.
Proof.
  intros Hx. destruct (ilog2_spec Hx) as [H1 H2].
  set (e := ilog2 x) in *.
  pose proof (pow2_pos (- (e - 52))) as Hp.
  assert (E1 : 2 ^ 52 == 2 ^ e * 2 ^ (- (e - 52))).
  { rewrite <- pow2_add. replace (e + - (e - 52))%Z with 52%Z by lia. reflexivity. }
  assert (E2 : 2 ^ 53 == 2 ^ (e + 1) * 2 ^ (- (e - 52))).
  { rewrite <- pow2_add. replace (e + 1 + - (e - 52))%Z with 53%Z by lia. reflexivity. }
  rewrite E1, E2. split.
  - apply Qmult_le_compat_r; lra.
  - apply Qmult_lt_compat_r; lra.
Qed.

Lemma round53_mantissa x :
  0 < x ->
  (2 ^ 52 <= round_half_even (x * 2 ^ (- (ilog2 x - 52))) <= 2 ^ 53)%Z.
Proof.
  intros Hx. destruct (round53_scaled Hx) as [H1 H2]. split.
  - rewrite <- (round_half_even_inject (2 ^ 52)). apply round_half_even_mono.
    rewrite pow2_Z by lia. exact H1.
  - rewrite <- (round_half_even_inject (2 ^ 53)). apply round_half_even_mono.
    rewrite pow2_Z by lia. lra.
Qed.

Lemma round53_bounds x :
  0 < x -> 2 ^ ilog2 x <= round53 x /\ round53 x <= 2 ^ (ilog2 x + 1).
Proof.
  intros Hx. destruct (round53_mantissa Hx) as [H1 H2]. unfold round53.
  set (e := ilog2 x) in *.
  set (m := round_half_even (x * 2 ^ (- (e - 52)))) in *.
  pose proof (pow2_pos (e - 52)) as Hp.
  rewrite Zle_Qle in H1, H2. rewrite !pow2_Z in H1, H2 by lia.
  assert (E1 : 2 ^ e == 2 ^ 52 * 2 ^ (e - 52)).
  { rewrite <- pow2_add. replace (52 + (e - 52))%Z with e by lia. reflexivity. }
  assert (E2 : 2 ^ (e + 1) == 2 ^ 53 * 2 ^ (e - 52)).
  { rewrite <- pow2_add. replace (53 + (e - 52))%Z with (e + 1)%Z by lia. reflexivity. }
  rewrite E1, E2. split; apply Qmult_le_compat_r; lra.
Qed.

Lemma round53_pos x : 0 < x -> 0 < round53 x.
Proof.
  intros Hx. destruct (round53_bounds Hx) as [H _].
  apply Qlt_le_trans with (2 ^ ilog2 x); [apply pow2_pos | exact H].
Qed.

Lemma round53_mono x y : 0 < x -> x <= y -> round53 x <= round53 y.
Proof.
  intros Hx Hxy. assert (Hy : 0 < y) by lra.
  pose proof (ilog2_mono Hx Hxy) as He.
  destruct (Z.eq_dec (ilog2 x) (ilog2 y)) as [E | NE].
  - unfold round53. rewrite E.
    apply Qmult_le_compat_r; [|apply Qlt_le_weak, pow2_pos].
    rewrite <- Zle_Qle. apply round_half_even_mono.
    apply Qmult_le_compat_r; [exact Hxy | apply Qlt_le_weak, pow2_pos].
  - destruct (round53_bounds Hx) as [_ H1]. destruct (round53_bounds Hy) as [H2 _].
    assert (2 ^ (ilog2 x + 1) <= 2 ^ ilog2 y) by (apply pow2_le; lia). lra.
Qed.

Lemma round53_exact n k :
  (0 < n < 2 ^ 53)%Z -> round53 (inject_Z n * 2 ^ k) == inject_Z n * 2 ^ k.
Proof.
  intros [Hn1 Hn2].
  pose proof (Z.log2_spec n Hn1) as [Ha1 Ha2].
  pose proof (Z.log2_nonneg n) as Ha0.
  assert (Ha3 : (Z.log2 n < 53)%Z) by (apply Z.log2_lt_pow2; lia).
  set (a := Z.log2 n) in *.
  pose proof (pow2_pos k) as Hk.
  assert (He : ilog2 (inject_Z n * 2 ^ k) = (a + k)%Z).
  { apply ilog2_unique.
    - rewrite pow2_add. apply Qmult_le_compat_r; [|lra].
      rewrite <- pow2_Z by lia. rewrite <- Zle_Qle. exact Ha1.
    - replace (a + k + 1)%Z with (Z.succ a + k)%Z by lia.
      rewrite pow2_add. apply Qmult_lt_compat_r; [lra|].
      rewrite <- pow2_Z by lia. rewrite <- Zlt_Qlt. exact Ha2. }
  unfold round53. rewrite He.
  assert (Es : inject_Z n * 2 ^ k * 2 ^ (- (a + k - 52))
               == inject_Z (n * 2 ^ (52 - a))).
  { rewrite inject_Z_mult, pow2_Z by lia.
    rewrite <- Qmult_assoc, <- pow2_add.
    replace (k + - (a + k - 52))%Z with (52 - a)%Z by lia. reflexivity. }
  rewrite (round_half_even_comp Es), round_half_even_inject.
  rewrite inject_Z_mult, pow2_Z by lia.
  rewrite <- Qmult_assoc, <- pow2_add.
  replace (52 - a + (a + k - 52))%Z with k by lia. reflexivity.
Qed.

Lemma double_pos x : 0 < x -> double x = round53 x.
Proof.
  intros H. unfold double. destruct (Qcompare_spec x 0); try reflexivity; exfalso; lra.
Qed.

Lemma double_neg x : x < 0 -> double x = - round53 (- x).
Proof.
  intros H. unfold double. destruct (Qcompare_spec x 0); try reflexivity; exfalso; lra.
Qed.

Lemma double_zero x : x == 0 -> double x = 0.
Proof.
  intros H. unfold double. destruct (Qcompare_spec x 0); try reflexivity; exfalso; lra.
Qed.

(** Rounding is monotone. *)
Lemma double_mono x y : x <= y -> double x <= double y.
Proof.
  intros Hxy.
  destruct (Qcompare_spec x 0) as [Ex | Lx | Gx];
  destruct (Qcompare_spec y 0) as [Ey | Ly | Gy]; try (exfalso; lra).
  - rewrite (double_zero Ex), (double_zero Ey). apply Qle_refl.
  - rewrite (double_zero Ex), (double_pos Gy). apply Qlt_le_weak, round53_pos, Gy.
  - rewrite (double_neg Lx), (double_zero Ey).
    assert (0 < round53 (- x)) by (apply round53_pos; lra). lra.
  - rewrite (double_neg Lx), (double_neg Ly).
    assert (round53 (- y) <= round53 (- x)) by (apply round53_mono; lra). lra.
  - rewrite (double_neg Lx), (double_pos Gy).
    assert (0 < round53 (- x)) by (apply round53_pos; lra).
    assert (0 < round53 y) by (apply round53_pos; lra). lra.
  - rewrite (double_pos Gx), (double_pos Gy). apply round53_mono; assumption.
Qed.

Lemma double_comp x y : x == y -> double x == double y.
Proof.
  intros E. apply Qle_antisym; apply double_mono; rewrite E; apply Qle_refl.
Qed.

(** A rational [n * 2^k] with [|n| < 2^53] is a float. *)
Lemma double_exact n k :
  (Z.abs n < 2 ^ 53)%Z -> double (inject_Z n * 2 ^ k) == inject_Z n * 2 ^ k.
Proof.
  intros Hn. pose proof (pow2_pos k) as Hk.
  destruct (Z.lt_trichotomy n 0) as [L | [E | G]].
  - assert (Hx : inject_Z n * 2 ^ k < 0).
    { assert (inject_Z n < 0) by (change 0 with (inject_Z 0); rewrite <- Zlt_Qlt; exact L).
      setoid_replace 0 with (0 * 2 ^ k) by ring. apply Qmult_lt_compat_r; assumption. }
    rewrite (double_neg Hx).
    assert (Ex : - (inject_Z n * 2 ^ k) == inject_Z (- n) * 2 ^ k).
    { rewrite inject_Z_opp. ring. }
    assert (Hr : round53 (- (inject_Z n * 2 ^ k)) == inject_Z (- n) * 2 ^ k).
    { rewrite <- (@round53_exact (- n) k) by lia.
      apply Qle_antisym; apply round53_mono; rewrite ?Ex; try apply Qle_refl.
      - rewrite <- Ex. lra.
      - rewrite <- Ex. lra. }
    rewrite Hr, inject_Z_opp. ring.
  - subst n. rewrite double_zero; [|ring]. ring.
  - assert (Hx : 0 < inject_Z n * 2 ^ k).
    { assert (0 < inject_Z n) by (change 0 with (inject_Z 0); rewrite <- Zlt_Qlt; exact G).
      apply Qmult_lt_0_compat; assumption. }
    rewrite (double_pos Hx). apply round53_exact. lia.
Qed.

Lemma double_inject n : (Z.abs n < 2 ^ 53)%Z -> double (inject_Z n) == inject_Z n.
Proof.
  intros Hn.
  assert (E : inject_Z n == inject_Z n * 2 ^ 0) by (change (2 ^ 0) with 1; ring).
  rewrite (double_comp E), (double_exact n 0 Hn). symmetry. exact E.
Qed.

Lemma round53_is_float x :
  0 < x -> exists n k, (0 < n < 2 ^ 53)%Z /\ round53 x == inject_Z n * 2 ^ k.
Proof.
  intros Hx. destruct (round53_mantissa Hx) as [H1 H2]. unfold round53.
  set (c := (ilog2 x - 52)%Z) in *.
  set (m := round_half_even (x * 2 ^ (- c))) in *.
  destruct (Z.eq_dec m (2 ^ 53)) as [E | NE].
  - exists 1%Z, (53 + c)%Z. split; [split; reflexivity|].
    rewrite E, pow2_add. rewrite (@pow2_Z 53) by (intros H; discriminate H).
    change (inject_Z 1) with 1. ring.
  - exists m, c. split; [|reflexivity].
    assert (0 < 2 ^ 52)%Z by reflexivity. lia.
Qed.

(** Rounding is idempotent. *)
Lemma double_idem x : double (double x) == double x.
Proof.
  destruct (Qcompare_spec x 0) as [E | L | G].
  - rewrite (double_zero E). reflexivity.
  - rewrite (double_neg L).
    destruct (@round53_is_float (- x)) as (n & k & Hn & Hr); [lra|].
    assert (E : - round53 (- x) == inject_Z (- n) * 2 ^ k).
    { rewrite Hr, inject_Z_opp. ring. }
    rewrite (double_comp E), E. apply double_exact. lia.
  - rewrite (double_pos G).
    destruct (round53_is_float G) as (n & k & Hn & Hr).
    rewrite (double_comp Hr), Hr. apply double_exact. lia.
Qed.

Lemma double_nonneg x : 0 <= x -> 0 <= double x.
Proof. intros H. change 0 with (double 0). apply double_mono. exact H. Qed.

Lemma double_opp x : double (- x) == - double x.
Proof.
  destruct (Qcompare_spec x 0) as [E | L | G].
  - rewrite (double_zero E). rewrite double_zero; [reflexivity | lra].
  - rewrite (double_neg L). rewrite double_pos by lra. ring.
  - rewrite (double_pos G). rewrite double_neg by lra.
    assert (E : - - x == x) by ring.
    assert (Hr : round53 (- - x) == round53 x).
    { apply Qle_antisym; apply round53_mono; lra. }
    rewrite Hr. reflexivity.
Qed.

(** ** Float operations *)


Lemma is_float_double x : is_float (double x).
Proof. apply double_idem. Qed.

Lemma is_float_inject n : (Z.abs n < 2 ^ 53)%Z -> is_float (inject_Z n).
Proof. apply double_inject. Qed.

Lemma is_float_0 : is_float 0.
Proof. reflexivity. Qed.

Lemma is_float_max0 x : is_float x -> is_float (py_max0 x).
Proof.
  intros H. unfold py_max0, is_float.
  destruct (Q.max_spec 0 x) as [[_ E] | [_ E]].
  - rewrite (double_comp E), E. exact H.
  - rewrite (double_comp E), E. reflexivity.
Qed.

Lemma double_le_float x y : is_float y -> x <= y -> double x <= y.
Proof.
  intros Hy H. unfold is_float in Hy.
  apply Qle_trans with (double y); [apply double_mono, H | rewrite Hy; apply Qle_refl].
Qed.

Lemma double_ge_float x y : is_float y -> y <= x -> y <= double x.
Proof.
  intros Hy H. unfold is_float in Hy.
  apply Qle_trans with (double y); [rewrite Hy; apply Qle_refl | apply double_mono, H].
Qed.

Lemma double_le_inject x z : (Z.abs z < 2 ^ 53)%Z -> x <= inject_Z z -> double x <= inject_Z z.
Proof. intros Hz. apply double_le_float, is_float_inject, Hz. Qed.

Lemma double_ge_inject x z : (Z.abs z < 2 ^ 53)%Z -> inject_Z z <= x -> inject_Z z <= double x.
Proof. intros Hz. apply double_ge_float, is_float_inject, Hz. Qed.

Lemma float_round_mono n x y : x <= y -> float_round x n <= float_round y n.
Proof. intros H. apply double_mono, py_round_mono, H. Qed.

Lemma float_round_nonneg n x : 0 <= x -> 0 <= float_round x n.
Proof. intros H. apply double_nonneg, py_round_nonneg, H. Qed.

Lemma float_round_le_inject n x z :
  (Z.abs z < 2 ^ 53)%Z -> x <= inject_Z z -> float_round x n <= inject_Z z.
Proof. intros Hz H. apply double_le_inject; [exact Hz | apply py_round_le_inject, H]. Qed.


Lemma float_round_0 n : float_round 0 n == 0.
Proof.
  apply Qle_antisym.
  - apply (@float_round_le_inject n 0 0); [reflexivity | apply Qle_refl].
  - apply float_round_nonneg, Qle_refl.
Qed.

Lemma fmul_nonneg x y : 0 <= x -> 0 <= y -> 0 <= fmul x y.
Proof. intros Hx Hy. apply double_nonneg, Qmult_le_0_compat; assumption. Qed.

Lemma fmul_mono_r x y z : 0 <= x -> y <= z -> fmul x y <= fmul x z.
Proof.
  intros Hx H. apply double_mono.
  assert (0 <= x * (z - y)) by (apply Qmult_le_0_compat; lra). lra.
Qed.

Lemma fmul_mono_l x y z : 0 <= z -> x <= y -> fmul x z <= fmul y z.
Proof.
  intros Hz H. apply double_mono.
  assert (0 <= (y - x) * z) by (apply Qmult_le_0_compat; lra). lra.
Qed.

Lemma fdiv_nonneg x y : 0 <= x -> 0 < y -> 0 <= fdiv x y.
Proof.
  intros Hx Hy. apply double_nonneg. unfold Qdiv.
  apply Qmult_le_0_compat; [exact Hx | apply Qinv_le_0_compat; lra].
Qed.

Lemma py_int_comp x y : 0 <= x -> x == y -> py_int x = py_int y.
Proof.
  intros H E. apply Z.le_antisymm; apply py_int_mono; lra.
Qed.

Lemma random_max_lt_1 : F64.random_max < 1.
Proof. reflexivity. Qed.

Section F64API.

Context {rng : Type} {RS : RandomSource rng}.
Implicit Types w : world rng.

Lemma wp_random64 w : wp F64.random (fun x => 0 <= x /\ x <= F64.random_max) w.
Proof.
  unfold F64.random. eapply wp_bind_with.
  - apply wp_on_py with (P := fun k => (0 <= k < 2 ^ 53)%Z).
    intros s. apply randbelow_range. reflexivity.
  - cbv beta. intros k w1 [Hk0 Hk1]. apply wp_ret.
    assert (Hd : 0 < inject_Z (2 ^ 53)) by reflexivity.
    unfold F64.random_max. split.
    + apply Qle_shift_div_l; [exact Hd|]. rewrite Qmult_0_l.
      change 0 with (inject_Z 0). rewrite <- Zle_Qle. exact Hk0.
    + apply Qdiv_le_cross; try exact Hd.
      apply Qmult_le_compat_r; [|apply Qlt_le_weak, Hd].
      rewrite <- Zle_Qle. lia.
Qed.

Lemma wp_uniform64 a b w :
  is_float a -> a <= b ->
  wp (F64.uniform a b) (fun x => a <= x /\ x <= F64.uniform_max a b) w.
Proof.
  intros Ha Hab. unfold F64.uniform. eapply wp_bind_with; [apply wp_random64|].
  cbv beta. intros x w1 [H0 H1]. apply wp_ret.
  assert (Hd : 0 <= fsub b a) by (apply double_nonneg; lra).
  unfold F64.uniform_max. split.
  - apply double_ge_float; [exact Ha|].
    assert (0 <= fmul (fsub b a) x) by (apply fmul_nonneg; assumption). lra.
  - apply double_mono.
    assert (fmul (fsub b a) x <= fmul (fsub b a) F64.random_max)
      by (apply fmul_mono_r; assumption).
    lra.
Qed.

Lemma wp_py_div64 x y w :
  ~ y == 0 -> wp (F64.py_div x y) (fun q => q = fdiv x y) w.
Proof.
  intros Hy. unfold F64.py_div. destruct (Qeq_bool y 0) eqn:E.
  - apply Qeq_bool_eq in E. contradiction.
  - apply wp_ret. reflexivity.
Qed.

Lemma bisect_le cum y hi : (bisect cum y hi <= hi)%nat.
Proof.
  revert cum. induction hi as [|hi IH]; intros [|c cum]; simpl; try lia.
  destruct (Qlt_le_dec y c); [lia|]. specialize (IH cum). lia.
Qed.

Lemma wp_choices64 {A} (population : list A) weights w :
  population <> [] -> wp (F64.choices1 population weights) (fun x => In x population) w.
Proof.
  intros Hne. unfold F64.choices1. destruct population as [|d t] eqn:E; [congruence|].
  rewrite <- E. eapply wp_bind_with; [apply wp_random64|].
  cbv beta. intros x w1 _. apply wp_ret. apply nth_In.
  pose proof (bisect_le (F64.accumulate weights)
                (fmul x (fadd (last (F64.accumulate weights) 0) 0))
                (length population - 1)) as Hb.
  subst population. simpl in *. lia.
Qed.

End F64API.

(** ** Agreement with the IEEE operations

    [double] against the binary64 operations of [SpecFloat]: on the decimal
    literals of the source, and on the installment and the split of the
    first payment of the loan of 100016 at 0.075 over 12 periods, computed
    operation by operation on both sides. *)

Example double_agrees_with_SpecFloat :
  map (fun '(n, d) =>
         Qeq_bool (of_spec_float (Binary64.of_fraction n d))
                  (double (inject_Z n / inject_Z d)))
      [(5, 100); (1, 10); (2, 100); (3, 100); (-1, 100); (1, 100); (3, 10);
       (9, 10); (7, 10); (95, 100); (5, 10); (11, 10)]%Z
  = [true; true; true; true; true; true; true; true; true; true; true; true]
  /\ (let '(monthly_payment, principal_portion, profit_portion) :=
        Binary64.first_on_time_payment 100016 75 1000 12 in
      let loan := Loan.Row 1 100016 737425 737785 (double 0.075) "Working Capital"
                           PaidOff "Inventory" 7 0 in
      let profit := fmul (double (inject_Z 100016)) (fdiv (double 0.075) 12) in
      (Qeq_bool (of_spec_float monthly_payment) (F64.installment loan),
       Qeq_bool (of_spec_float profit_portion) profit,
       Qeq_bool (of_spec_float principal_portion)
                (fsub (F64.installment loan) profit)))
     = (true, true, true).
Proof.
  split; vm_compute; reflexivity.
Qed.

(** ** Status and outstanding balance of a loan *)


Lemma uniform_max_05_09 : F64.uniform_max (double 0.5) (double 0.9) <= double 0.9.
Proof. apply Qle_bool_imp_le. vm_compute. reflexivity. Qed.

Lemma uniform_max_09_11 : F64.uniform_max (double 0.9) (double 1.1) <= double 1.1.
Proof. apply Qle_bool_imp_le. vm_compute. reflexivity. Qed.



Lemma loan_amount_is_float (z : Z) :
  (MIN_LOAN_AMOUNT <= z <= MAX_LOAN_AMOUNT)%Z ->
  (Z.abs z < 2 ^ 53)%Z /\ double (inject_Z z) == inject_Z z /\ 10000 <= inject_Z z.
Proof.
  unfold MIN_LOAN_AMOUNT, MAX_LOAN_AMOUNT. intros H.
  assert (Hz : (Z.abs z < 2 ^ 53)%Z).
  { apply Z.lt_trans with 500001%Z; [lia | reflexivity]. }
  split; [exact Hz|]. split.
  - apply double_inject. exact Hz.
  - change 10000 with (inject_Z 10000). rewrite <- Zle_Qle. lia.
Qed.

Section Loan64Facts.

Context {rng : Type} {RS : RandomSource rng}.
Implicit Types w : world rng.
Variable now : Z.




End Loan64Facts.




(** The hypothesis on the date: at a date before END_DATE a loan can be
    disbursed after [now]. With [now] = 2024-10-15 and a loan of 100000
    disbursed on 2024-10-31 for 12 months, the elapsed time is negative and
    the stored balance of the Active loan is 103111.11. *)
Example balance_before_end_date :
  option_map
    (fun loan => (Loan.loan_status loan, Loan.loan_amount loan,
                  Loan.disbursement_date loan,
                  Qeq_bool (Loan.outstanding_balance loan) (double 103111.11)))
    (value_of (F64.generate_business_loan (RS := Tape) 739174 [Borrower.Row 1 800] [7%Z]
                 (World [0; 0; 5000; 4503599627370496; 0; 0; 0]%Z [0%Z] [1765%Z])))
  = Some (Active, 100000%Z, 739190%Z, true)
  /\ (739174 < END_DATE)%Z.
Proof.
  split; vm_compute; reflexivity.
Qed.

(** ** The remaining balance and the amounts of the payments *)

Lemma is_float_3_256 : is_float (3 # 256).
Proof. apply Qeq_bool_eq. vm_compute. reflexivity. Qed.

Lemma generated_loan64_months loan :
  F64.generated_loan loan ->
  In (F64.loan_months loan) [12; 24; 36; 48; 60]%Z.
Proof.
  intros (_ & _ & (term & Hterm & Hmat) & _).
  unfold F64.loan_months.
  replace (Loan.maturity_date loan - Loan.disbursement_date loan)%Z
    with (term * 30)%Z by lia.
  simpl in Hterm.
  destruct Hterm as [<- | [<- | [<- | [<- | [<- | []]]]]]; vm_compute; tauto.
Qed.

Lemma installment_of_loan64 loan :
  F64.generated_loan loan ->
  F64.installment_ok (inject_Z (Loan.loan_amount loan)) (Loan.profit_rate loan)
                     (F64.installment loan).
Proof.
  intros Hgen. pose proof (generated_loan64_months Hgen) as Hm.
  destruct Hgen as (Hamt & _ & _ & Hr1 & Hr2).
  destruct (loan_amount_is_float Hamt) as (Hz & HLf & HL).
  unfold F64.installment_ok, F64.installment.
  set (L := inject_Z (Loan.loan_amount loan)) in *.
  set (M := F64.loan_months loan) in *.
  set (r := Loan.profit_rate loan) in *.
  assert (H07 : 0 <= double 0.07) by (apply Qle_bool_imp_le; vm_compute; reflexivity).
  assert (H14 : double 0.14 / 12 <= 3 # 256)
    by (apply Qle_bool_imp_le; vm_compute; reflexivity).
  assert (HM' : 1 <= double (inject_Z M) /\ double (inject_Z M) <= 64).
  { simpl in Hm.
    destruct Hm as [<- | [<- | [<- | [<- | [<- | []]]]]];
      split; apply Qle_bool_imp_le; vm_compute; reflexivity. }
  destruct HM' as [HM1 HM2]. set (Mf := double (inject_Z M)) in *.
  assert (HM12 : 0 <= fdiv (inject_Z M) 12).
  { simpl in Hm.
    destruct Hm as [<- | [<- | [<- | [<- | [<- | []]]]]];
      apply Qle_bool_imp_le; vm_compute; reflexivity. }
  assert (Hrr0 : 0 <= fdiv r 12).
  { apply fdiv_nonneg; lra. }
  assert (Hrr1 : fdiv r 12 <= 3 # 256).
  { apply double_le_float; [apply is_float_3_256|].
    apply Qle_trans with (double 0.14 / 12); [|exact H14].
    apply Qmult_le_compat_r; [exact Hr2|]. apply Qle_bool_imp_le. reflexivity. }
  assert (Htp : 0 <= fmul (fmul (double L) r) (fdiv (inject_Z M) 12)).
  { apply fmul_nonneg; [|exact HM12]. apply fmul_nonneg; lra. }
  assert (Htot : L <= fadd (double L)
                        (fmul (fmul (double L) r) (fdiv (inject_Z M) 12))).
  { apply double_ge_float; [exact HLf|]. lra. }
  set (total := fadd (double L) (fmul (fmul (double L) r) (fdiv (inject_Z M) 12))) in *.
  assert (Hq : L / 64 <= total / Mf).
  { apply Qdiv_le_cross; try lra.
    assert (0 <= L * (64 - Mf)) by (apply Qmult_le_0_compat; lra).
    assert (0 <= (total - L) * 64) by (apply Qmult_le_0_compat; lra).
    lra. }
  assert (Hmp : double (L / 64) <= fdiv total Mf) by (apply double_mono, Hq).
  assert (H1 : 1 <= double (L / 64)).
  { apply (@double_ge_inject _ 1); [reflexivity|]. change (inject_Z 1) with 1.
    apply Qle_shift_div_l; lra. }
  refine (conj _ (conj _ (conj _ _))).
  - apply is_float_double.
  - lra.
  - exact Hrr0.
  - apply Qle_trans with (double (L / 64)); [|exact Hmp].
    apply double_mono.
    assert (0 <= L * ((3 # 256) - fdiv r 12)) by (apply Qmult_le_0_compat; lra).
    assert (E : L / 64 == L * (1 # 64)) by (field).
    rewrite E. lra.
Qed.

Lemma py_max0_64_bounds remaining realized :
  is_float remaining -> 0 <= remaining -> 0 <= realized ->
  0 <= py_max0 (fsub remaining realized) /\
  py_max0 (fsub remaining realized) <= remaining /\
  is_float (py_max0 (fsub remaining realized)).
Proof.
  intros HF H1 H2. unfold py_max0. split; [|split].
  - apply Q.le_max_l.
  - apply Q.max_lub; [exact H1|]. apply double_le_float; [exact HF | lra].
  - apply is_float_max0, is_float_double.
Qed.

Lemma principal_portion64_nonneg L r mp remaining :
  F64.installment_ok L r mp -> 0 <= remaining -> remaining <= L ->
  0 <= fmul remaining (fdiv r 12) /\
  0 <= fsub mp (fmul remaining (fdiv r 12)).
Proof.
  intros (_ & Hmp & Hr & Hcover) H0 H1.
  assert (Hp : 0 <= fmul remaining (fdiv r 12)) by (apply fmul_nonneg; assumption).
  split; [exact Hp|]. apply double_nonneg.
  assert (fmul remaining (fdiv r 12) <= fmul L (fdiv r 12))
    by (apply fmul_mono_l; assumption).
  lra.
Qed.

Section Payment64Facts.

Context {rng : Type} {RS : RandomSource rng}.
Implicit Types w : world rng.
Variable now : Z.

(** What [realized_payment] returns: the rule of the status, and amounts
    inside the installment. *)
Lemma wp_realized_payment64 L r mp remaining status w :
  F64.installment_ok L r mp -> 0 <= remaining -> remaining <= L ->
  wp (F64.realized_payment mp (fsub mp (fmul remaining (fdiv r 12)))
                           (fmul remaining (fdiv r 12)) status)
     (fun res =>
        let '(a, p, f) := res in
        F64.realized_rule r mp remaining status p /\
        0 <= a /\ a <= mp /\ 0 <= p /\ 0 <= f /\
        match status with
        | OnTime => a = mp
        | Late => fmul mp (double 0.5) <= a /\ a <= fmul mp (double 0.9)
        | Missed => a = 0 /\ p = 0 /\ f = 0
        end) w.
Proof.
  intros Hok H0 H1.
  destruct (principal_portion64_nonneg Hok H0 H1) as [Hpf Hpp].
  destruct Hok as (HFmp & Hmp & Hr & Hcover).
  unfold F64.realized_payment, F64.realized_rule. destruct status.
  - apply wp_ret. repeat split; try lra.
  - eapply wp_bind_with.
    { apply wp_uniform64; [apply is_float_double|].
      apply Qle_bool_imp_le. vm_compute. reflexivity. }
    cbv beta. intros u ? [Hu1 Hu2].
    assert (Hu3 : u <= double 0.9).
    { eapply Qle_trans; [exact Hu2 | apply uniform_max_05_09]. }
    assert (H05 : 0 <= double 0.5 /\ double 0.9 <= 1).
    { split; apply Qle_bool_imp_le; vm_compute; reflexivity. }
    wp_step wp_py_div64. wp_step wp_py_div64. subst a a0.
    apply wp_ret.
    assert (Ha0 : 0 <= fmul mp u) by (apply fmul_nonneg; lra).
    repeat split.
    + exists u. repeat split; assumption.
    + exact Ha0.
    + apply double_le_float; [exact HFmp|].
      assert (0 <= mp * (1 - u)) by (apply Qmult_le_0_compat; lra). lra.
    + apply fmul_nonneg; [exact Ha0 | apply fdiv_nonneg; assumption].
    + apply fmul_nonneg; [exact Ha0 | apply fdiv_nonneg; assumption].
    + apply fmul_mono_r; lra.
    + apply fmul_mono_r; lra.
  - apply wp_ret. repeat split; try lra; apply Qle_refl.
Qed.

Lemma wp_payment_loop64 loan_id d r mp num L payment_nums :
  F64.installment_ok L r mp ->
  forall remaining all w,
    is_float remaining -> 0 <= remaining -> remaining <= L ->
    wp (F64.payment_loop now loan_id d r mp num payment_nums remaining all)
       (fun res =>
          exists new,
            res = all ++ new /\
            F64.balance_trace r mp remaining new /\
            Forall (F64.payment_amounts_ok mp) new) w.
Proof.
  intros Hok. induction payment_nums as [|pn rest IH]; intros remaining all w HF H0 H1.
  - simpl. apply wp_ret. exists []. rewrite app_nil_r.
    repeat split; constructor.
  - cbn [F64.payment_loop].
    destruct (Z.ltb_spec now (d + 30 * (pn + 1))) as [Hlate | Hdue].
    + apply wp_ret. exists []. rewrite app_nil_r. repeat split; constructor.
    + wp_step wp_choices64. rename a into status.
      wp_step (wp_realized_payment64 status w1 Hok H0 H1).
      destruct a as [[actual_payment actual_principal] actual_profit].
      destruct H2 as (Hrule & Ha0 & Ha1 & Hp0 & Hf0 & Hst).
      destruct (py_max0_64_bounds HF H0 Hp0) as (Hb0 & Hb1 & HbF).
      set (row := {| Payment.loan_id := loan_id;
                     Payment.payment_date := (d + 30 * (pn + 1))%Z;
                     Payment.payment_amount := float_round actual_payment 2;
                     Payment.principal_amount := float_round actual_principal 2;
                     Payment.profit_amount := float_round actual_profit 2;
                     Payment.remaining_balance :=
                       float_round (py_max0 (fsub remaining actual_principal)) 2;
                     Payment.payment_status := status |}).
      assert (Hstep : forall ps,
                 F64.balance_trace r mp (py_max0 (fsub remaining actual_principal)) ps ->
                 F64.balance_trace r mp remaining (row :: ps)).
      { intros ps Hps. apply F64.trace_cons with (realized := actual_principal); auto. }
      assert (Hrow : F64.payment_amounts_ok mp row).
      { unfold F64.payment_amounts_ok. subst row.
        cbn [Payment.payment_amount Payment.principal_amount Payment.profit_amount
             Payment.payment_status].
        refine (conj _ (conj _ (conj _ (conj _ _)))).
        - apply float_round_nonneg. exact Ha0.
        - apply float_round_mono. exact Ha1.
        - apply float_round_nonneg. exact Hp0.
        - apply float_round_nonneg. exact Hf0.
        - destruct status.
          + rewrite Hst. reflexivity.
          + destruct Hst as [Hl Hh]. split; apply float_round_mono; assumption.
          + destruct Hst as (-> & -> & ->). repeat split; apply float_round_0. }
      destruct (Nat.leb_spec num (length (all ++ [row]))) as [Hfull | Hroom].
      * apply wp_ret. exists [row]. repeat split.
        -- apply Hstep. constructor.
        -- constructor; [exact Hrow | constructor].
      * eapply wp_mono.
        -- apply IH; [exact HbF | exact Hb0 | lra].
        -- intros res (new & Eres & Htrace & Hrows).
           exists (row :: new). repeat split.
           ++ rewrite Eres, <- app_assoc. reflexivity.
           ++ apply Hstep. exact Htrace.
           ++ constructor; [exact Hrow | exact Hrows].
Qed.

Lemma wp_loan_monthly_payment64 loan w :
  F64.generated_loan loan ->
  wp (F64.loan_monthly_payment loan) (fun mp => mp = F64.installment loan) w.
Proof.
  intros Hgen. unfold F64.loan_monthly_payment. eapply wp_mono.
  - apply wp_py_div64.
    pose proof (generated_loan64_months Hgen) as Hm. simpl in Hm.
    destruct Hm as [<- | [<- | [<- | [<- | [<- | []]]]]];
      intros E; apply Qeq_bool_iff in E; vm_compute in E; discriminate E.
  - intros mp E. exact E.
Qed.

Lemma wp_draw_num_loan_payments64 loan w :
  F64.generated_loan loan ->
  wp (F64.draw_num_loan_payments now loan) (fun _ => True) w.
Proof.
  intros Hgen. unfold F64.draw_num_loan_payments.
  destruct (Loan.loan_status loan).
  - apply wp_ret. exact I.
  - apply wp_ret. exact I.
  - eapply wp_mono; [|intros; exact I].
    apply wp_randint.
    pose proof (generated_loan64_months Hgen) as Hm. simpl in Hm.
    destruct Hm as [<- | [<- | [<- | [<- | [<- | []]]]]]; vm_compute; discriminate.
Qed.

Lemma wp_loan_payments64 num loan_id loan all w :
  F64.generated_loan loan ->
  wp (F64.loan_payments now num loan_id loan all)
     (fun res =>
        exists new,
          res = all ++ new /\
          F64.balance_trace (Loan.profit_rate loan) (F64.installment loan)
                            (double (inject_Z (Loan.loan_amount loan))) new /\
          Forall (F64.payment_amounts_ok (F64.installment loan)) new) w.
Proof.
  intros Hgen. unfold F64.loan_payments.
  pose proof (installment_of_loan64 Hgen) as Hok.
  destruct Hgen as (Hamt & Hrest).
  destruct (loan_amount_is_float Hamt) as (Hz & HLf & HL).
  wp_step wp_loan_monthly_payment64; [split; assumption|]. subst a.
  wp_step wp_draw_num_loan_payments64; [split; assumption|].
  apply wp_payment_loop64 with (L := inject_Z (Loan.loan_amount loan)).
  - exact Hok.
  - apply is_float_double.
  - lra.
  - lra.
Qed.



End Payment64Facts.



(** The stored balances of the program, on the loan of 100016 at 0.075
    over 12 periods with two On Time payments: 91681.33 and 83294.57. On
    exact rationals the second one rounds to 83294.58: the float operations
    decide the last digit. *)
Example stored_balances_100016 :
  let loan := Loan.Row 1 100016 737425 737785 (double 0.075) "Working Capital"
                       PaidOff "Inventory" 7 0 in
  option_map (map (fun p => Qeq_bool (Payment.remaining_balance p) (double 91681.33)
                            || Qeq_bool (Payment.remaining_balance p) (double 83294.57)))
    (value_of (F64.loan_payments (RS := Tape) 739923 2 1 loan [] (World [] [] [])))
  = Some [true; true]
  /\ option_map (map Payment.remaining_balance)
       (value_of (loan_payments (RS := Tape) 739923 2 1
                    (Loan.Row 1 100016 737425 737785 0.075 "Working Capital"
                              PaidOff "Inventory" 7 0) [] (World [] [] [])))
     = Some [9168133 # 100; 8329458 # 100].
Proof.
  cbv zeta. split; vm_compute; reflexivity.
Qed.

(** X2. Every stored amount of a payment of a generated loan is
    non-negative and the payment amount never exceeds the installment
    rounded to 2 decimals: an On Time payment stores the rounded
    installment, a Late payment between 50% and 90% of the installment
    (rounded), a Missed payment stores three zeros. The installment and the
    products are those of the program, in binary64. *)
Theorem payment_amount_bounds :
  forall (rng : Type) (RS : RandomSource rng) (now : Z) (num_payments : nat)
         (loan_id : Z) (loan : Loan.row) (all_payments : list Payment.row)
         (w : world rng),
    F64.generated_loan loan ->
    wp (F64.loan_payments now num_payments loan_id loan all_payments)
       (fun res =>
          exists new,
            res = all_payments ++ new /\
            Forall (F64.payment_amounts_ok (F64.installment loan)) new) w.
Proof.
  intros rng RS now num_payments loan_id loan all_payments w Hgen.
  eapply wp_mono.
  - apply wp_loan_payments64. exact Hgen.
  - intros res (new & Eres & _ & Hrows).
    exists new. split; assumption.
Qed.

Lemma payment_amount_bounds_witness :
  wp (F64.loan_payments (RS := Tape) 739923 4 1
        (Loan.Row 1 100008 737425 737785 (double 0.0775) "Working Capital" PaidOff
                  "Inventory" 7 0) [])
     (fun res => Forall (fun p => 0 <= Payment.payment_amount p) res)
     (World [0; 8700000000000000; 5000; 8900000000000000; 0]%Z [] []).
Proof.
  eapply wp_mono.
  - apply (@payment_amount_bounds (list Z) Tape 739923 4%nat 1%Z
             (Loan.Row 1 100008 737425 737785 (double 0.0775) "Working Capital" PaidOff
                       "Inventory" 7 0) []
             (World [0; 8700000000000000; 5000; 8900000000000000; 0]%Z [] [])).
    unfold F64.generated_loan. cbn [Loan.loan_amount Loan.disbursement_date
      Loan.maturity_date Loan.profit_rate].
    split; [vm_compute; split; discriminate|].
    split; [vm_compute; split; discriminate|].
    split; [exists 12%Z; split; [simpl; tauto | reflexivity]|].
    split; apply Qle_bool_imp_le; vm_compute; reflexivity.
  - intros res (new & E & H). simpl in E. subst res.
    eapply Forall_impl; [|exact H]. intros p Hp. apply Hp.
Defined.

(** The stored On Time payment of the program, on the loan of 100008 at
    0.0775 over 12 periods: 8979.89, where exact rationals round to
    8979.88. *)
Example stored_payment_100008 :
  option_map (map (fun p => Qeq_bool (Payment.payment_amount p) (double 8979.89)))
    (value_of (F64.loan_payments (RS := Tape) 739923 1 1
                 (Loan.Row 1 100008 737425 737785 (double 0.0775) "Working Capital"
                           PaidOff "Inventory" 7 0) [] (World [] [] [])))
  = Some [true]
  /\ option_map (map Payment.payment_amount)
       (value_of (loan_payments (RS := Tape) 739923 1 1
                    (Loan.Row 1 100008 737425 737785 0.0775 "Working Capital"
                              PaidOff "Inventory" 7 0) [] (World [] [] [])))
     = Some [897988 # 100].
Proof.
  split; vm_compute; reflexivity.
Qed.

(** ** The amounts of the distributions *)

Section Distribution64Facts.

Context {rng : Type} {RS : RandomSource rng}.
Implicit Types w : world rng.
Variable now : Z.

Lemma wp_distribution_loop64 purchase employee_ids num quarters :
  employee_ids <> [] ->
  forall distributions w,
    wp (F64.distribution_loop now purchase employee_ids num quarters distributions)
       (fun res =>
          exists new,
            res = distributions ++ new /\
            Forall (F64.distribution_post now purchase employee_ids) new) w.
Proof.
  intros He. induction quarters as [|quarter rest IH]; intros distributions w.
  - simpl. apply wp_ret. exists []. rewrite app_nil_r. split; [reflexivity | constructor].
  - cbn [F64.distribution_loop].
    destruct (Z.ltb_spec now (PurchaseReturn.purchase_date purchase + 90 * quarter + 90))
      as [Hlate | Hdue].
    + apply wp_ret. exists []. rewrite app_nil_r. split; [reflexivity | constructor].
    + eapply wp_bind_with.
      { apply wp_uniform64; [apply is_float_double|].
        apply Qle_bool_imp_le. vm_compute. reflexivity. }
      cbv beta. intros u ? [Hu1 Hu2].
      assert (Hu3 : u <= double 1.1).
      { eapply Qle_trans; [exact Hu2 | apply uniform_max_09_11]. }
      wp_step wp_choice. rename a into processed_by, H into Hproc.
      set (row := {| Distribution.purchase_id := PurchaseReturn.purchase_id purchase;
                     Distribution.distribution_date := _;
                     Distribution.amount := _;
                     Distribution.period_start := _;
                     Distribution.period_end := _;
                     Distribution.processed_by_employee_id := processed_by |}).
      assert (Hrow : F64.distribution_post now purchase employee_ids row).
      { unfold F64.distribution_post. subst row.
        cbn [Distribution.purchase_id Distribution.distribution_date
             Distribution.amount Distribution.processed_by_employee_id].
        fold (F64.quarterly_share purchase).
        repeat split; try assumption.
        - apply float_round_mono, fmul_mono_r; assumption.
        - apply float_round_mono, fmul_mono_r; assumption. }
      destruct (Nat.leb_spec num (length (distributions ++ [row]))) as [Hfull | Hroom].
      * apply wp_ret. exists [row]. split; [reflexivity|].
        constructor; [exact Hrow | constructor].
      * eapply wp_mono; [apply IH|].
        intros res (new & Eres & Hrows).
        exists (row :: new). split.
        -- rewrite Eres, <- app_assoc. reflexivity.
        -- constructor; [exact Hrow | exact Hrows].
Qed.

End Distribution64Facts.

(** X13. For a purchase whose quarterly share of the expected return
    (amount x rate / 4) is not negative, every distribution amount lies
    between the share times the float of 0.9 and the share times the float
    of 1.1, each rounded to 2 decimals; every distribution belongs to the
    purchase and is processed by an employee of the Finance pool. The share
    and the products are those of the program, in binary64. *)
Theorem distribution_amount_bounds :
  forall (rng : Type) (RS : RandomSource rng) (now : Z)
         (purchase : PurchaseReturn.row) (employee_ids : list Z)
         (num_distributions : nat) (distributions : list Distribution.row)
         (w : world rng),
    employee_ids <> [] ->
    0 <= F64.quarterly_share purchase ->
    wp (F64.purchase_distributions now purchase employee_ids num_distributions
                                   distributions)
       (fun res =>
          exists new,
            res = distributions ++ new /\
            Forall (fun d =>
                      float_round (fmul (F64.quarterly_share purchase) (double 0.9)) 2
                      <= Distribution.amount d /\
                      Distribution.amount d
                      <= float_round (fmul (F64.quarterly_share purchase) (double 1.1)) 2 /\
                      Distribution.purchase_id d = PurchaseReturn.purchase_id purchase /\
                      In (Distribution.processed_by_employee_id d) employee_ids) new) w.
Proof.
  intros rng RS now purchase employee_ids num_distributions distributions w He Hq.
  unfold F64.purchase_distributions. eapply wp_mono.
  - apply (wp_distribution_loop64 now purchase num_distributions
             (py_range (Z.min (F64.quarters_since_purchase now purchase) 8)) He).
  - intros res (new & Eres & Hrows).
    exists new. split; [exact Eres|].
    eapply Forall_impl; [|exact Hrows].
    intros d (Hid & _ & Hproc & Hamt). destruct (Hamt Hq) as [Hlo Hhi].
    repeat split; assumption.
Qed.

Lemma distribution_amount_bounds_witness :
  wp (F64.purchase_distributions (RS := Tape) 739923
        (PurchaseReturn.Row 1 11 1 739700 1006 (double 0.1)) [7%Z] 800 [])
     (fun res => Forall (fun d => double 22.63 <= Distribution.amount d /\
                                  Distribution.amount d <= double 27.67) res)
     (World [9007199254740991; 0; 0; 0]%Z [] []).
Proof.
  eapply wp_mono.
  - apply (@distribution_amount_bounds (list Z) Tape 739923
             (PurchaseReturn.Row 1 11 1 739700 1006 (double 0.1)) [7%Z] 800%nat []
             (World [9007199254740991; 0; 0; 0]%Z [] [])).
    + discriminate.
    + apply Qle_bool_imp_le. vm_compute. reflexivity.
  - intros res (new & E & H). simpl in E. subst res.
    eapply Forall_impl; [|exact H]. intros d (Hlo & Hhi & _). split.
    + eapply Qle_trans; [|exact Hlo]. apply Qle_bool_imp_le. vm_compute. reflexivity.
    + eapply Qle_trans; [exact Hhi|]. apply Qle_bool_imp_le. vm_compute. reflexivity.
Defined.

(** The largest draw of [random()] on the purchase of 1006 at 0.1: the
    factor is the float of 1.1, above 11/10, and the program stores 27.67;
    the smallest draw stores 22.64. *)
Example stored_distributions_1006 :
  option_map (map (fun d => Qeq_bool (Distribution.amount d) (double 27.67)
                            || Qeq_bool (Distribution.amount d) (double 22.64)))
    (value_of (F64.purchase_distributions (RS := Tape) 739923
                 (PurchaseReturn.Row 1 11 1 739700 1006 (double 0.1)) [7%Z] 800 []
                 (World [9007199254740991; 0; 0; 0]%Z [] [])))
  = Some [true; true]
  /\ ~ double 1.1 <= 1.1.
Proof.
  split.
  - vm_compute. reflexivity.
  - intros H. apply Qle_bool_iff in H. vm_compute in H. discriminate H.
Qed.
